(** * The host authority of the Uno session (services/gameLogic, types)

    A shallow embedding of the deck helpers and of [MockGameServer], the
    host-side state machine, together with the properties of the
    specification that concern them.

    Conventions of the embedding.
    - A JavaScript array is a [list] in index order: [push] appends at the
      end, [pop] removes the last element, [unshift] conses at the front,
      [splice(0,7)] is [take 7] / [drop 7].
    - [currentPlayerIndex] and every other roster index is a [nat]; the
      arithmetic of [getNextPlayerIndex] is carried out in [Z] with the
      truncating remainder of JavaScript.
    - A reference to a [Player] object ([state.winner], the [roundWinner]
      argument) is the roster position of that object: the roster is only
      re-built while the status is LOBBY, where no reference is held.
    - [uuidv4()] and [Math.random()] are oracles of the server: the k-th
      call returns the k-th value of the oracle, and
      [Math.floor(Math.random() * n)] is the raw value reduced modulo [n].
    - [Date.now()] and [String.prototype.trim] are arguments of the
      operations that call them.
    - Timeouts are not part of the state: [checkBotTurn] only arms the
      timeout of a bot, and the delay it draws from [Math.random] is not
      counted among the calls of the oracle, which is the sequence of the
      other values.
    - An operation either returns, throws a [TypeError] (a property read
      on [undefined]) or runs for ever; see [Result]. *)

From Stdlib Require Import ZArith Lia.
From stdpp Require Import base list strings pretty.

(** ** types.ts *)

Module CardColor.
Inductive t := red | yellow | green | blue | black.
#[global] Instance eq_dec : EqDecision t.
Proof. solve_decision. Defined.
End CardColor.

Module CardType.
Inductive t := number | skip | reverse | draw2 | wild | wild4.
#[global] Instance eq_dec : EqDecision t.
Proof. solve_decision. Defined.
End CardType.

Module Card.
Record t := mk {
  id : string;
  color : CardColor.t;
  type : CardType.t;
  value : option nat (* 0-9 for number cards, undefined otherwise *)
}.
#[global] Instance eq_dec : EqDecision t.
Proof. solve_decision. Defined.
End Card.

Module Player.
Record t := mk {
  id : string;
  name : string;
  avatar : string;
  hand : list Card.t;
  isHost : bool;
  score : nat;
  isEliminated : bool;
  hasCalledUno : bool;
  isBot : bool;
  isSpectator : bool
}.
#[global] Instance eq_dec : EqDecision t.
Proof. solve_decision. Defined.

Definition set_hand (h : list Card.t) (p : t) : t :=
  mk (id p) (name p) (avatar p) h (isHost p) (score p) (isEliminated p)
     (hasCalledUno p) (isBot p) (isSpectator p).
Definition set_score (n : nat) (p : t) : t :=
  mk (id p) (name p) (avatar p) (hand p) (isHost p) n (isEliminated p)
     (hasCalledUno p) (isBot p) (isSpectator p).
Definition set_isEliminated (b : bool) (p : t) : t :=
  mk (id p) (name p) (avatar p) (hand p) (isHost p) (score p) b
     (hasCalledUno p) (isBot p) (isSpectator p).
Definition set_hasCalledUno (b : bool) (p : t) : t :=
  mk (id p) (name p) (avatar p) (hand p) (isHost p) (score p) (isEliminated p)
     b (isBot p) (isSpectator p).
Definition set_isSpectator (b : bool) (p : t) : t :=
  mk (id p) (name p) (avatar p) (hand p) (isHost p) (score p) (isEliminated p)
     (hasCalledUno p) (isBot p) b.

(** [p.hand.push(...cs)] *)
Definition push_hand (cs : list Card.t) (p : t) : t := set_hand (hand p ++ cs) p.

(** [!p.isEliminated && !p.isSpectator]: the test every roster filter and
    the seat walk use. *)
Definition active (p : t) : bool := negb (isEliminated p) && negb (isSpectator p).
End Player.

Module GameStatus.
Inductive t := LOBBY | PLAYING | ROUND_OVER | GAME_OVER.
#[global] Instance eq_dec : EqDecision t.
Proof. solve_decision. Defined.
End GameStatus.

Module GameMode.
Inductive t := QUICK | TOURNAMENT.
#[global] Instance eq_dec : EqDecision t.
Proof. solve_decision. Defined.
Definition to_string (m : t) : string :=
  match m with QUICK => "QUICK" | TOURNAMENT => "TOURNAMENT" end.
End GameMode.

(** [direction: 1 | -1], 1 for clockwise, -1 for counter-clockwise. *)
Module Direction.
Inductive t := clockwise | counterClockwise.
#[global] Instance eq_dec : EqDecision t.
Proof. solve_decision. Defined.
Definition to_Z (d : t) : Z :=
  match d with clockwise => 1%Z | counterClockwise => (-1)%Z end.
(** [direction *= -1] *)
Definition flip (d : t) : t :=
  match d with clockwise => counterClockwise | counterClockwise => clockwise end.
End Direction.

Module ChatMessage.
Record t := mk {
  id : string; senderId : string; senderName : string; text : string;
  timestamp : nat
}.
End ChatMessage.

Module Reaction.
Record t := mk { playerId : string; emoji : string; timestamp : nat }.
End Reaction.

Module GameState.
Record t := mk {
  roomId : string;
  players : list Player.t;
  deck : list Card.t;
  discardPile : list Card.t;
  currentPlayerIndex : nat;
  direction : Direction.t;
  status : GameStatus.t;
  winner : option nat;
  currentColor : CardColor.t;
  turnTimer : nat;
  log : list string;
  mode : GameMode.t;
  chatMessages : list ChatMessage.t;
  lastReaction : option Reaction.t
}.

Definition set_players (x : list Player.t) (g : t) : t :=
  mk (roomId g) x (deck g) (discardPile g) (currentPlayerIndex g) (direction g)
     (status g) (winner g) (currentColor g) (turnTimer g) (log g) (mode g)
     (chatMessages g) (lastReaction g).
Definition set_deck (x : list Card.t) (g : t) : t :=
  mk (roomId g) (players g) x (discardPile g) (currentPlayerIndex g) (direction g)
     (status g) (winner g) (currentColor g) (turnTimer g) (log g) (mode g)
     (chatMessages g) (lastReaction g).
Definition set_discardPile (x : list Card.t) (g : t) : t :=
  mk (roomId g) (players g) (deck g) x (currentPlayerIndex g) (direction g)
     (status g) (winner g) (currentColor g) (turnTimer g) (log g) (mode g)
     (chatMessages g) (lastReaction g).
Definition set_currentPlayerIndex (x : nat) (g : t) : t :=
  mk (roomId g) (players g) (deck g) (discardPile g) x (direction g)
     (status g) (winner g) (currentColor g) (turnTimer g) (log g) (mode g)
     (chatMessages g) (lastReaction g).
Definition set_direction (x : Direction.t) (g : t) : t :=
  mk (roomId g) (players g) (deck g) (discardPile g) (currentPlayerIndex g) x
     (status g) (winner g) (currentColor g) (turnTimer g) (log g) (mode g)
     (chatMessages g) (lastReaction g).
Definition set_status (x : GameStatus.t) (g : t) : t :=
  mk (roomId g) (players g) (deck g) (discardPile g) (currentPlayerIndex g)
     (direction g) x (winner g) (currentColor g) (turnTimer g) (log g) (mode g)
     (chatMessages g) (lastReaction g).
Definition set_winner (x : option nat) (g : t) : t :=
  mk (roomId g) (players g) (deck g) (discardPile g) (currentPlayerIndex g)
     (direction g) (status g) x (currentColor g) (turnTimer g) (log g) (mode g)
     (chatMessages g) (lastReaction g).
Definition set_currentColor (x : CardColor.t) (g : t) : t :=
  mk (roomId g) (players g) (deck g) (discardPile g) (currentPlayerIndex g)
     (direction g) (status g) (winner g) x (turnTimer g) (log g) (mode g)
     (chatMessages g) (lastReaction g).
Definition set_turnTimer (x : nat) (g : t) : t :=
  mk (roomId g) (players g) (deck g) (discardPile g) (currentPlayerIndex g)
     (direction g) (status g) (winner g) (currentColor g) x (log g) (mode g)
     (chatMessages g) (lastReaction g).
(** [state.log.push(msg)] *)
Definition push_log (msg : string) (g : t) : t :=
  mk (roomId g) (players g) (deck g) (discardPile g) (currentPlayerIndex g)
     (direction g) (status g) (winner g) (currentColor g) (turnTimer g)
     (log g ++ [msg]) (mode g) (chatMessages g) (lastReaction g).
Definition set_chatMessages (x : list ChatMessage.t) (g : t) : t :=
  mk (roomId g) (players g) (deck g) (discardPile g) (currentPlayerIndex g)
     (direction g) (status g) (winner g) (currentColor g) (turnTimer g)
     (log g) (mode g) x (lastReaction g).
Definition set_lastReaction (x : option Reaction.t) (g : t) : t :=
  mk (roomId g) (players g) (deck g) (discardPile g) (currentPlayerIndex g)
     (direction g) (status g) (winner g) (currentColor g) (turnTimer g)
     (log g) (mode g) (chatMessages g) x.
End GameState.

(** ** Outcomes of an operation *)

Inductive Result (A : Type) : Type :=
| Ok (a : A)      (* the call returns *)
| TypeError       (* a property of [undefined] is read *)
| Diverges.       (* a [while] loop never exits *)
Arguments Ok {A} a.
Arguments TypeError {A}.
Arguments Diverges {A}.

Definition bind {A B} (r : Result A) (k : A → Result B) : Result B :=
  match r with
  | Ok a => k a
  | TypeError => TypeError
  | Diverges => Diverges
  end.

Notation "x ←! r ; k" := (bind r (λ x, k))
  (at level 20, r at level 100, k at level 200, right associativity,
   format "x  ←!  r ;  '/' k").
Notation "' pat ←! r ; k" := (bind r (λ pat, k))
  (at level 20, pat pattern, r at level 100, k at level 200, right associativity,
   format "' pat  ←!  r ;  '/' k").

(** ** Array helpers *)

(** [arr.pop()]: the last element and the shortened array, [None] for
    [undefined] on the empty array. *)
Definition pop {A} (l : list A) : option (A * list A) :=
  match reverse l with
  | [] => None
  | x :: r => Some (x, reverse r)
  end.

(** [arr.findIndex(pred)], with [None] for -1. *)
Definition findIndex {A} (P : A → Prop) `{∀ x, Decision (P x)} (l : list A)
  : option nat := fst <$> list_find P l.

(** [[a[i], a[j]] = [a[j], a[i]]] *)
Definition swap {A} (l : list A) (i j : nat) : list A :=
  match l !! i, l !! j with
  | Some x, Some y => <[j:=x]> (<[i:=y]> l)
  | _, _ => l
  end.

(** ** Deck and rules (helper functions of gameLogic) *)

(** constants.ts *)
Definition COLORS : list CardColor.t :=
  [CardColor.red; CardColor.yellow; CardColor.green; CardColor.blue].

Definition AVATARS_MALE : list string :=
  ["https://api.dicebear.com/7.x/avataaars/svg?seed=Felix";
   "https://api.dicebear.com/7.x/avataaars/svg?seed=Jack";
   "https://api.dicebear.com/7.x/avataaars/svg?seed=Max";
   "https://api.dicebear.com/7.x/avataaars/svg?seed=Alexander";
   "https://api.dicebear.com/7.x/avataaars/svg?seed=Christopher";
   "https://api.dicebear.com/7.x/avataaars/svg?seed=Ryker";
   "https://api.dicebear.com/7.x/avataaars/svg?seed=Mason";
   "https://api.dicebear.com/7.x/avataaars/svg?seed=Caleb";
   "https://api.dicebear.com/7.x/avataaars/svg?seed=Jace";
   "https://api.dicebear.com/7.x/avataaars/svg?seed=Leo"].

Definition AVATARS_FEMALE : list string :=
  ["https://api.dicebear.com/7.x/avataaars/svg?seed=Aneka";
   "https://api.dicebear.com/7.x/avataaars/svg?seed=Zoe";
   "https://api.dicebear.com/7.x/avataaars/svg?seed=Lily";
   "https://api.dicebear.com/7.x/avataaars/svg?seed=Sophia";
   "https://api.dicebear.com/7.x/avataaars/svg?seed=Mila";
   "https://api.dicebear.com/7.x/avataaars/svg?seed=Aria";
   "https://api.dicebear.com/7.x/avataaars/svg?seed=Luna";
   "https://api.dicebear.com/7.x/avataaars/svg?seed=Ella";
   "https://api.dicebear.com/7.x/avataaars/svg?seed=Grace";
   "https://api.dicebear.com/7.x/avataaars/svg?seed=Chloe"].

(** The cards [generateDeck] pushes, in push order and before an id is
    drawn for each. *)
Definition Face : Type := CardColor.t * CardType.t * option nat.

Definition colorFaces (color : CardColor.t) : list Face :=
  (color, CardType.number, Some 0)
  :: flat_map (λ i, [(color, CardType.number, Some i);
                     (color, CardType.number, Some i)]) (seq 1 9)
  ++ flat_map (λ ty, [(color, ty, None); (color, ty, None)])
       [CardType.skip; CardType.reverse; CardType.draw2].

Definition deckFaces : list Face :=
  flat_map colorFaces COLORS
  ++ flat_map (λ _ : nat, [(CardColor.black, CardType.wild, None);
                           (CardColor.black, CardType.wild4, None)]) (seq 0 4).

Definition face (c : Card.t) : Face := (Card.color c, Card.type c, Card.value c).

(** The Fisher-Yates loop of [shuffleDeck]: [i] runs from [length - 1]
    down to 1, the k-th call of [Math.random] gives [j]. *)
Fixpoint shuffleLoop {A} (random : nat → nat) (k : nat) (i : nat) (newDeck : list A)
  : list A :=
  match i with
  | 0 => newDeck
  | S i' =>
      let j := random k `mod` (i + 1) in
      shuffleLoop random (S k) i' (swap newDeck i j)
  end.

Definition shuffleDeck {A} (random : nat → nat) (k : nat) (deck : list A) : list A :=
  shuffleLoop random k (length deck - 1) deck.

(** Number of [Math.random] calls of one [shuffleDeck]. *)
Definition shuffleCalls {A} (deck : list A) : nat := length deck - 1.

Definition generateDeck (uuidv4 : nat → string) (u : nat)
    (random : nat → nat) (k : nat) : list Card.t :=
  shuffleDeck random k
    (imap (λ n '(color, ty, v), Card.mk (uuidv4 (u + n)) color ty v) deckFaces).

Definition isValidMove (card topCard : Card.t) (currentColor : CardColor.t) : bool :=
  if bool_decide (Card.color card = CardColor.black) then true
  else if bool_decide (Card.color card = currentColor) then true
  else if bool_decide (Card.type card = Card.type topCard) then
    if bool_decide (Card.type card = CardType.number)
    then bool_decide (Card.value card = Card.value topCard)
    else true
  else false.

Definition cardScore (total : nat) (card : Card.t) : nat :=
  match Card.type card with
  | CardType.wild | CardType.wild4 => total + 50
  | CardType.skip | CardType.reverse | CardType.draw2 => total + 20
  | CardType.number => total + default 0 (Card.value card)
  end.

Definition calculateHandScore (hand : list Card.t) : nat :=
  foldl cardScore 0 hand.

(** [Array.prototype.sort(cmp)]: stable, [x] stays before [y] when
    [cmp x y <= 0]. *)
Fixpoint insertSorted {A} (cmp : A → A → Z) (x : A) (l : list A) : list A :=
  match l with
  | [] => [x]
  | y :: l' => if (cmp x y <=? 0)%Z then x :: y :: l' else y :: insertSorted cmp x l'
  end.

Definition sort {A} (cmp : A → A → Z) (l : list A) : list A :=
  foldr (insertSorted cmp) [] l.

(** ** The host server *)

Module MockGameServer.

(** The private fields of the class that the operations below touch:
    [state], the two oracles with the number of calls made so far, the
    number of [notify()] broadcasts and whether [timerInterval] is armed. *)
Record t := mk {
  state : GameState.t;
  uuidv4 : nat → string;
  uuidCalls : nat;
  random : nat → nat;
  randomCalls : nat;
  notifyCalls : nat;
  timerRunning : bool
}.

Definition upd (f : GameState.t → GameState.t) (sv : t) : t :=
  mk (f (state sv)) (uuidv4 sv) (uuidCalls sv) (random sv) (randomCalls sv)
     (notifyCalls sv) (timerRunning sv).
Definition usedUuid (n : nat) (sv : t) : t :=
  mk (state sv) (uuidv4 sv) (uuidCalls sv + n) (random sv) (randomCalls sv)
     (notifyCalls sv) (timerRunning sv).
Definition usedRandom (n : nat) (sv : t) : t :=
  mk (state sv) (uuidv4 sv) (uuidCalls sv) (random sv) (randomCalls sv + n)
     (notifyCalls sv) (timerRunning sv).
Definition notify (sv : t) : t :=
  mk (state sv) (uuidv4 sv) (uuidCalls sv) (random sv) (randomCalls sv)
     (S (notifyCalls sv)) (timerRunning sv).
Definition setTimer (b : bool) (sv : t) : t :=
  mk (state sv) (uuidv4 sv) (uuidCalls sv) (random sv) (randomCalls sv)
     (notifyCalls sv) b.

Definition players (sv : t) : list Player.t := GameState.players (state sv).

(** [this.state.players[i]], read for a property. *)
Definition getPlayer (i : nat) (sv : t) : Result Player.t :=
  match players sv !! i with
  | Some p => Ok p
  | None => TypeError
  end.

(** In-place update of the [Player] object at seat [i]. *)
Definition updPlayer (i : nat) (f : Player.t → Player.t) (sv : t) : t :=
  upd (λ g, GameState.set_players (alter f i (GameState.players g)) g) sv.

Definition activePlayers (sv : t) : list Player.t :=
  filter (λ p, Player.active p = true) (players sv).

(** The constructor; [roomCode] is the code it derives from [Math.random]. *)
Definition new (hostName hostAvatar : string) (mode : GameMode.t)
    (roomCode : string) (uuidv4 : nat → string) (random : nat → nat) : t :=
  let host := Player.mk "host-id" hostName hostAvatar [] true 0 false false false false in
  mk (GameState.mk roomCode [host] [] [] 0 Direction.clockwise GameStatus.LOBBY
        None CardColor.black 30 ["Lobby created. Waiting for players..."] mode [] None)
     uuidv4 0 random 1 0 false.

(** [handleJoinRequest], as far as the session state goes. *)
Definition handleJoinRequest (name avatar : string) (existingId : option string)
    (sv : t) : t :=
  let reconnect :=
    match existingId with
    | Some eid =>
        negb (bool_decide (eid = "")) (* [if (payload.existingId)] *)
        && bool_decide (Exists (λ p, Player.id p = eid) (players sv))
    | None => false
    end in
  if reconnect then notify sv
  else if 15 <=? length (players sv) then sv
  else
    let isSpectator :=
      negb (bool_decide (GameState.status (state sv) = GameStatus.LOBBY)) in
    let newPlayer :=
      Player.mk (uuidv4 sv (uuidCalls sv)) name avatar [] false 0 false false false
        isSpectator in
    notify
      (upd (λ g, GameState.push_log
                   (name +:+ " joined" +:+ (if isSpectator then " as Spectator" else ""))
                   (GameState.set_players (GameState.players g ++ [newPlayer]) g))
         (usedUuid 1 sv)).

Definition startTurnTimer (sv : t) : t :=
  setTimer true (upd (GameState.set_turnTimer 30) sv).

(** The [deck.length === 0] block of [drawCards]: [None] is the [break]. *)
Definition refill (sv : t) : option t :=
  let g := state sv in
  match GameState.deck g with
  | [] =>
      match pop (GameState.discardPile g) with
      | Some (top, rest) =>
          Some (usedRandom (shuffleCalls rest)
                  (upd (λ g, GameState.set_discardPile [top]
                               (GameState.set_deck
                                  (shuffleDeck (random sv) (randomCalls sv) rest) g))
                     sv))
      | None => None
      end
  | _ :: _ => Some sv
  end.

Fixpoint drawCards (playerIndex count : nat) (sv : t) : Result t :=
  match count with
  | 0 => Ok sv
  | S count' =>
      match refill sv with
      | None => Ok sv
      | Some sv1 =>
          match pop (GameState.deck (state sv1)) with
          | None => drawCards playerIndex count' sv1
          | Some (card, deck') =>
              _ ←! getPlayer playerIndex sv1;
              drawCards playerIndex count'
                (upd (GameState.set_deck deck')
                   (updPlayer playerIndex (Player.push_hand [card]) sv1))
          end
      end
  end.

(** [(nextIndex + direction + len) % len] *)
Definition stepSeat (len : nat) (d : Direction.t) (nextIndex : nat) : nat :=
  Z.to_nat (Z.rem (Z.of_nat nextIndex + Direction.to_Z d + Z.of_nat len) (Z.of_nat len)).

(** The [while] loop of [getNextPlayerIndex], [fuel] bounding the number
    of iterations. With an empty roster the index is [NaN] and the read
    of [players[NaN].isEliminated] throws. *)
Fixpoint seatWalk (fuel : nat) (ps : list Player.t) (d : Direction.t)
    (offset nextIndex count : nat) : Result nat :=
  if count <? offset then
    match fuel with
    | 0 => Diverges
    | S fuel' =>
        let len := length ps in
        let nextIndex' := stepSeat len d nextIndex in
        if len =? 0 then TypeError
        else
          match ps !! nextIndex' with
          | None => TypeError
          | Some p =>
              let count' := if Player.active p then S count else count in
              if len * 2 <? count' then Ok nextIndex'
              else seatWalk fuel' ps d offset nextIndex' count'
          end
    end
  else Ok nextIndex.

(** Iterations after which the loop has exited if it ever does: the count
    goes up at least once in [length ps] iterations and the loop is left
    at [length ps * 2 + 1] at the latest (see [getNextPlayerIndex_Diverges]
    below). *)
Definition seatWalkBound (ps : list Player.t) : nat :=
  S (length ps * (length ps * 2 + 1)).

Definition getNextPlayerIndex (offset : nat) (sv : t) : Result nat :=
  seatWalk (seatWalkBound (players sv)) (players sv)
    (GameState.direction (state sv)) offset
    (GameState.currentPlayerIndex (state sv)) 0.

Definition advanceTurn (offset : nat) (sv : t) : Result t :=
  let sv := startTurnTimer sv in
  i ←! getNextPlayerIndex offset sv;
  Ok (upd (GameState.set_currentPlayerIndex i) sv).

(** [b.score - a.score] *)
Definition byScoreDesc (a b : Player.t) : Z :=
  (Z.of_nat (Player.score b) - Z.of_nat (Player.score a))%Z.

(** The [forEach] over [activePlayers] in [handleRoundWin]. *)
Definition scoreRound (winnerId : string) (p : Player.t) : Player.t :=
  if Player.active p then
    if bool_decide (Player.id p ≠ winnerId)
    then Player.set_score (calculateHandScore (Player.hand p)) p
    else Player.set_score 0 p
  else p.

Definition eliminateHighest (sv : t) : t :=
  match head (sort byScoreDesc (activePlayers sv)) with
  | Some highestScorer =>
      if 0 <? Player.score highestScorer then
        match list_find (λ p, Player.id p = Player.id highestScorer) (players sv) with
        | Some (i, playerToEliminate) =>
            upd (GameState.push_log
                   (Player.name playerToEliminate +:+ " eliminated! (" +:+
                    pretty (Player.score playerToEliminate) +:+ " pts)"))
              (updPlayer i (Player.set_isEliminated true) sv)
        | None => sv
        end
      else sv
  | None => sv
  end.

Definition crownLastRemaining (sv : t) : t :=
  if length (activePlayers sv) =? 1 then
    upd (λ g, GameState.set_status GameStatus.GAME_OVER
                (GameState.set_winner
                   (findIndex (λ p, Player.active p = true) (players sv)) g)) sv
  else sv.

(** [handleRoundWin(roundWinner)], [roundWinner] being the object at seat
    [w]. *)
Definition handleRoundWin (w : nat) (sv : t) : Result t :=
  let sv := setTimer false sv in
  roundWinner ←! getPlayer w sv;
  match GameState.mode (state sv) with
  | GameMode.QUICK =>
      Ok (notify
            (upd (λ g, GameState.push_log
                         (Player.name roundWinner +:+ " won the Quick Match!")
                         (GameState.set_winner (Some w)
                            (GameState.set_status GameStatus.GAME_OVER g))) sv))
  | GameMode.TOURNAMENT =>
      let sv :=
        upd (λ g, GameState.push_log (Player.name roundWinner +:+ " won the round!")
                    (GameState.set_status GameStatus.ROUND_OVER g)) sv in
      let sv :=
        upd (λ g, GameState.set_players
                    (scoreRound (Player.id roundWinner) <$> GameState.players g) g) sv in
      Ok (notify (crownLastRemaining (eliminateHighest sv)))
  end.

(** The call [isValidMove(card, topCard, currentColor)] of [playCard],
    where [topCard] is [undefined] on an empty discard pile: the first two
    tests of [isValidMove] do not read it, the third one throws. *)
Definition validAgainstTop (card : Card.t) (topCard : option Card.t)
    (currentColor : CardColor.t) : Result bool :=
  match topCard with
  | Some top => Ok (isValidMove card top currentColor)
  | None =>
      if bool_decide (Card.color card = CardColor.black) then Ok true
      else if bool_decide (Card.color card = currentColor) then Ok true
      else TypeError
  end.

(** [player.hand.splice(cardIndex, 1); discardPile.push(card)] *)
Definition moveToDiscard (playerIndex cardIndex : nat) (card : Card.t) (sv : t) : t :=
  upd (λ g, GameState.set_discardPile (GameState.discardPile g ++ [card]) g)
    (updPlayer playerIndex (λ p, Player.set_hand (delete cardIndex (Player.hand p)) p) sv).

(** The forgotten-UNO penalty. *)
Definition unoPenalty (playerIndex : nat) (sv : t) : Result t :=
  player ←! getPlayer playerIndex sv;
  if (length (Player.hand player) =? 1) && negb (Player.hasCalledUno player) then
    drawCards playerIndex 1
      (upd (GameState.push_log (Player.name player +:+ " forgot UNO! +1 Card Penalty.")) sv)
  else Ok sv.

(** [if (player.hand.length > 1) player.hasCalledUno = false] *)
Definition resetUno (playerIndex : nat) (sv : t) : Result t :=
  player ←! getPlayer playerIndex sv;
  if 1 <? length (Player.hand player)
  then Ok (updPlayer playerIndex (Player.set_hasCalledUno false) sv)
  else Ok sv.

(** [currentColor = card.color; if (card.color === 'black' && wildColor) ...] *)
Definition setColor (card : Card.t) (wildColor : option CardColor.t) (sv : t) : t :=
  upd (GameState.set_currentColor
         (match wildColor with
          | Some c => if bool_decide (Card.color card = CardColor.black) then c
                      else Card.color card
          | None => Card.color card
          end)) sv.

(** The side effect of the card's type; returns [nextOffset] too. *)
Definition cardEffect (card : Card.t) (sv : t) : Result (nat * t) :=
  match Card.type card with
  | CardType.reverse =>
      let activeCount := length (activePlayers sv) in
      if activeCount =? 2 then Ok (2, sv)
      else Ok (1, upd (λ g, GameState.set_direction
                              (Direction.flip (GameState.direction g)) g) sv)
  | CardType.skip => Ok (2, sv)
  | CardType.draw2 =>
      nextP ←! getNextPlayerIndex 1 sv;
      sv ←! drawCards nextP 2 sv;
      Ok (2, sv)
  | CardType.wild4 =>
      nextP ←! getNextPlayerIndex 1 sv;
      sv ←! drawCards nextP 4 sv;
      Ok (2, sv)
  | CardType.number | CardType.wild => Ok (1, sv)
  end.

(** The tail of [playCard]: round resolution on an empty hand, the turn
    advance otherwise. *)
Definition finishPlay (playerIndex nextOffset : nat) (sv : t) : Result t :=
  player ←! getPlayer playerIndex sv;
  if length (Player.hand player) =? 0 then handleRoundWin playerIndex sv
  else
    sv ←! advanceTurn nextOffset sv;
    Ok (notify sv).

(** [playCard] from the point where the move has been accepted. *)
Definition applyPlay (playerIndex cardIndex : nat) (card : Card.t)
    (wildColor : option CardColor.t) (sv : t) : Result t :=
  let sv := moveToDiscard playerIndex cardIndex card sv in
  sv ←! unoPenalty playerIndex sv;
  sv ←! resetUno playerIndex sv;
  let sv := setColor card wildColor sv in
  '(nextOffset, sv) ←! cardEffect card sv;
  finishPlay playerIndex nextOffset sv.

Definition playCard (playerId cardId : string) (wildColor : option CardColor.t)
    (sv : t) : Result t :=
  let g := state sv in
  let playerIndex := findIndex (λ p, Player.id p = playerId) (GameState.players g) in
  if bool_decide (playerIndex ≠ Some (GameState.currentPlayerIndex g)) then Ok sv
  else
    let playerIndex := GameState.currentPlayerIndex g in
    player ←! getPlayer playerIndex sv;
    match list_find (λ c, Card.id c = cardId) (Player.hand player) with
    | None => Ok sv
    | Some (cardIndex, card) =>
        let topCard := last (GameState.discardPile g) in
        valid ←! validAgainstTop card topCard (GameState.currentColor g);
        if negb valid then Ok sv
        else applyPlay playerIndex cardIndex card wildColor sv
    end.

Definition drawCard (playerId : string) (sv : t) : Result t :=
  let g := state sv in
  let playerIndex := findIndex (λ p, Player.id p = playerId) (GameState.players g) in
  if bool_decide (playerIndex ≠ Some (GameState.currentPlayerIndex g)) then Ok sv
  else
    let playerIndex := GameState.currentPlayerIndex g in
    sv ←! drawCards playerIndex 1 sv;
    player ←! getPlayer playerIndex sv;
    let sv := upd (GameState.push_log (Player.name player +:+ " drew a card")) sv in
    sv ←! advanceTurn 1 sv;
    Ok (notify sv).

Definition callUno (playerId : string) (sv : t) : t :=
  match list_find (λ p, Player.id p = playerId) (players sv) with
  | Some (i, player) =>
      if length (Player.hand player) <=? 2 then
        notify
          (upd (GameState.push_log (Player.name player +:+ " called UNO!"))
             (updPlayer i (Player.set_hasCalledUno true) sv))
      else sv
  | None => sv
  end.

(** The [forEach] of [startGame]: seven cards off the front of the deck
    for every non-spectator, in roster order. *)
Fixpoint dealStart (ps : list Player.t) (deck : list Card.t)
  : list Player.t * list Card.t :=
  match ps with
  | [] => ([], deck)
  | p :: ps' =>
      if negb (Player.isSpectator p) then
        let '(ps'', deck') := dealStart ps' (drop 7 deck) in
        (Player.set_hasCalledUno false
           (Player.set_score 0
              (Player.set_isEliminated false (Player.set_hand (take 7 deck) p)))
           :: ps'', deck')
      else
        let '(ps'', deck') := dealStart ps' deck in
        (Player.set_isEliminated true (Player.set_hand [] p) :: ps'', deck')
  end.

(** The [forEach] of [nextRound] over [activePlayers]; the other
    [Player] objects are not touched. *)
Fixpoint dealRound (ps : list Player.t) (deck : list Card.t)
  : list Player.t * list Card.t :=
  match ps with
  | [] => ([], deck)
  | p :: ps' =>
      if Player.active p then
        let '(ps'', deck') := dealRound ps' (drop 7 deck) in
        (Player.set_score 0
           (Player.set_hasCalledUno false (Player.set_hand (take 7 deck) p))
           :: ps'', deck')
      else
        let '(ps'', deck') := dealRound ps' deck in
        (p :: ps'', deck')
  end.

(** [firstCard = deck.pop()!; while (firstCard.color === 'black')
    { deck.unshift(firstCard); firstCard = deck.pop()! }] *)
Fixpoint flipOpening (fuel : nat) (deck : list Card.t)
  : Result (Card.t * list Card.t) :=
  match pop deck with
  | None => TypeError
  | Some (firstCard, deck') =>
      if bool_decide (Card.color firstCard = CardColor.black) then
        match fuel with
        | 0 => Diverges
        | S fuel' => flipOpening fuel' (firstCard :: deck')
        end
      else Ok (firstCard, deck')
  end.

(** After [length deck] rotations every card has been looked at (see
    [openingCard_Diverges] below). *)
Definition openingCard (deck : list Card.t) : Result (Card.t * list Card.t) :=
  flipOpening (length deck) deck.

(** [while (players[currentPlayerIndex].isSpectator) ...] of [startGame] *)
Fixpoint skipSpectators (fuel : nat) (ps : list Player.t) (i : nat) : Result nat :=
  match ps !! i with
  | None => TypeError
  | Some p =>
      if Player.isSpectator p then
        match fuel with
        | 0 => Diverges
        | S fuel' => skipSpectators fuel' ps ((i + 1) `mod` length ps)
        end
      else Ok i
  end.

(** The 108 [uuidv4()] calls and the 107 [Math.random()] calls of one
    [generateDeck()]. *)
Definition freshDeck (sv : t) : list Card.t * t :=
  (generateDeck (uuidv4 sv) (uuidCalls sv) (random sv) (randomCalls sv),
   usedRandom (length deckFaces - 1) (usedUuid (length deckFaces) sv)).

Definition startGame (sv : t) : Result t :=
  if length (players sv) <? 2 then Ok sv
  else
    let '(deck, sv) := freshDeck sv in
    let '(ps, deck) := dealStart (players sv) deck in
    '(firstCard, deck) ←! openingCard deck;
    i ←! skipSpectators (length ps) ps 0;
    let sv :=
      upd (λ g,
        GameState.push_log
          ("Game Started (" +:+ GameMode.to_string (GameState.mode g) +:+ " Mode)")
          (GameState.set_currentPlayerIndex i
             (GameState.set_status GameStatus.PLAYING
                (GameState.set_currentColor (Card.color firstCard)
                   (GameState.set_discardPile [firstCard]
                      (GameState.set_deck deck (GameState.set_players ps g))))))) sv in
    Ok (notify (startTurnTimer sv)).

Definition nextRound (sv : t) : Result t :=
  if bool_decide (GameState.status (state sv) = GameStatus.GAME_OVER) then Ok sv
  else
    let '(deck, sv) := freshDeck sv in
    let sv := upd (λ g, GameState.set_discardPile [] (GameState.set_deck deck g)) sv in
    let active := activePlayers sv in
    if length active <? 2 then
      Ok (notify
            (upd (λ g,
               (if length active =? 1
                then GameState.set_winner
                       (findIndex (λ p, Player.active p = true) (players sv))
                else λ g, g)
                 (GameState.set_status GameStatus.GAME_OVER g)) sv))
    else
      let '(ps, deck) := dealRound (players sv) deck in
      '(firstCard, deck) ←! openingCard deck;
      (* [activePlayers[0]] exists and is a roster member, so neither the
         read of its id nor [findIndex] can fail *)
      let firstPlayerId := default "" (Player.id <$> head active) in
      let i := default 0 (findIndex (λ p, Player.id p = firstPlayerId) ps) in
      let sv :=
        upd (λ g,
          GameState.push_log "Next Round Started!"
            (GameState.set_currentPlayerIndex i
               (GameState.set_status GameStatus.PLAYING
                  (GameState.set_currentColor (Card.color firstCard)
                     (GameState.set_discardPile [firstCard]
                        (GameState.set_deck deck (GameState.set_players ps g))))))) sv in
      Ok (notify (startTurnTimer sv)).

(** [handlePlayerExit] ([leaveGame], a closed connection), as far as the
    session state goes. *)
Definition handlePlayerExit (playerId : string) (sv : t) : Result t :=
  let g := state sv in
  if bool_decide (GameState.status g = GameStatus.LOBBY) then
    Ok (notify
          (upd (GameState.set_players
                  (filter (λ p, Player.id p ≠ playerId) (GameState.players g))) sv))
  else
    match list_find (λ p, Player.id p = playerId) (GameState.players g) with
    | Some (i, player) =>
        if Player.isEliminated player then Ok (notify sv)
        else
          let sv :=
            upd (GameState.push_log (Player.name player +:+ " left the game."))
              (updPlayer i
                 (λ p, Player.set_isSpectator true
                         (Player.set_hand [] (Player.set_isEliminated true p))) sv) in
          let active := activePlayers sv in
          let over := bool_decide (GameState.status g = GameStatus.GAME_OVER) in
          if (length active <=? 1) && negb over then
            let sv := setTimer false sv in
            let sv := upd (GameState.set_status GameStatus.GAME_OVER) sv in
            match list_find (λ p, Player.active p = true) (players sv) with
            | Some (w, p) =>
                Ok (notify
                      (upd (λ g, GameState.push_log (Player.name p +:+ " wins!")
                                   (GameState.set_winner (Some w) g)) sv))
            | None =>
                Ok (notify
                      (upd (GameState.push_log "Game Over - No players remaining") sv))
            end
          else if negb over
                  && match players sv !! GameState.currentPlayerIndex g with
                     | Some p => bool_decide (Player.id p = playerId)
                     | None => false (* [players[i]?.id] is [undefined] *)
                     end
          then
            sv ←! advanceTurn 1 sv;
            Ok (notify sv)
          else Ok (notify sv)
    | None => Ok (notify sv)
    end.

(** [arr[Math.floor(Math.random() * arr.length)]] on the k-th call of
    [Math.random]; the arrays it is used on are not empty. *)
Definition pick (random : nat → nat) (k : nat) (arr : list string) : string :=
  default "undefined" (arr !! (random k `mod` length arr)).

Definition botNames : list string :=
  ["Alpha"; "Beta"; "Gamma"; "Delta"; "Omega"; "Neo"; "Trinity"; "Morpheus"].

Definition addBot (sv : t) : t :=
  if 15 <=? length (players sv) then sv
  else
    let k := randomCalls sv in
    let name :=
      "Bot " +:+ pick (random sv) k botNames +:+ " "
      +:+ pretty (random sv (k + 1) `mod` 99) in
    let avatar := pick (random sv) (k + 2) (AVATARS_MALE ++ AVATARS_FEMALE) in
    let bot :=
      Player.mk (uuidv4 sv (uuidCalls sv)) name avatar [] false 0 false false true
        false in
    notify
      (upd (λ g, GameState.push_log (name +:+ " (Bot) added")
                   (GameState.set_players (GameState.players g ++ [bot]) g))
         (usedRandom 3 (usedUuid 1 sv))).

(** [handleTimeout], the action of the turn timer when it reaches zero. *)
Definition handleTimeout (sv : t) : Result t :=
  currentPlayer ←! getPlayer (GameState.currentPlayerIndex (state sv)) sv;
  if Player.isSpectator currentPlayer || Player.isEliminated currentPlayer then
    sv ←! advanceTurn 1 sv;
    Ok (notify sv)
  else drawCard (Player.id currentPlayer) sv.

(** The sort key of [executeBotTurn]. *)
Definition botPriority (c : Card.t) : Z :=
  ((if bool_decide (Card.type c = CardType.wild4) then 10 else 0)
   + (if bool_decide (Card.type c = CardType.draw2) then 5 else 0)
   + (if bool_decide (Card.type c = CardType.skip)
         || bool_decide (Card.type c = CardType.reverse) then 3 else 0))%Z.

(** [scoreB - scoreA] *)
Definition byBotPriority (a b : Card.t) : Z := (botPriority b - botPriority a)%Z.

(** [bot.hand.filter(c => isValidMove(c, topCard, currentColor))]: the
    callback throws on the first card for which it reads [topCard.type]
    while the discard pile is empty. *)
Fixpoint validMoves (hand : list Card.t) (topCard : option Card.t)
    (currentColor : CardColor.t) : Result (list Card.t) :=
  match hand with
  | [] => Ok []
  | c :: hand' =>
      valid ←! validAgainstTop c topCard currentColor;
      rest ←! validMoves hand' topCard currentColor;
      Ok (if valid : bool then c :: rest else rest)
  end.

(** [counts[color]] after the [forEach] over the hand. *)
Definition colorCount (hand : list Card.t) (color : CardColor.t) : nat :=
  length (filter (λ c, Card.color c = color) hand).

(** [Object.keys(counts).reduce((a, b) => counts[a] > counts[b] ? a : b)],
    the keys being red, blue, green, yellow in this order. *)
Definition bestColor (hand : list Card.t) : CardColor.t :=
  foldl (λ a b, if colorCount hand b <? colorCount hand a then a else b)
    CardColor.red [CardColor.blue; CardColor.green; CardColor.yellow].

(** [executeBotTurn(bot)], [bot] being the object at seat [botIndex]. The
    [checkBotTurn()] that ends the operations above only arms the timeout
    that later makes this call. *)
Definition executeBotTurn (botIndex : nat) (sv : t) : Result t :=
  let g := state sv in
  bot ←! getPlayer botIndex sv;
  let topCard := last (GameState.discardPile g) in
  moves ←! validMoves (Player.hand bot) topCard (GameState.currentColor g);
  match sort byBotPriority moves with
  | cardToPlay :: _ =>
      let wildColor :=
        if bool_decide (Card.color cardToPlay = CardColor.black)
        then Some (bestColor (Player.hand bot)) else None in
      let sv := if length (Player.hand bot) =? 2 then callUno (Player.id bot) sv
                else sv in
      playCard (Player.id bot) (Card.id cardToPlay) wildColor sv
  | [] => drawCard (Player.id bot) sv
  end.

(** [sendReaction]; [now] is the value of [Date.now()]. *)
Definition sendReaction (now : nat) (playerId emoji : string) (sv : t) : t :=
  match list_find (λ p, Player.id p = playerId) (players sv) with
  | Some (_, player) =>
      notify
        (upd (λ g, GameState.push_log (Player.name player +:+ " reacted " +:+ emoji)
                     (GameState.set_lastReaction
                        (Some (Reaction.mk playerId emoji now)) g)) sv)
  | None => sv
  end.

(** [sendChat]; [trim] stands for [String.prototype.trim], [now] for the
    value of [Date.now()]. A text that trims to the empty string is falsy.
    A [string] is read as the sequence of the code units of the
    JavaScript string, of which [substring(0, 100)] keeps the first 100. *)
Definition sendChat (trim : string → string) (now : nat) (playerId text : string)
    (sv : t) : t :=
  match list_find (λ p, Player.id p = playerId) (players sv) with
  | Some (_, player) =>
      if bool_decide (trim text = EmptyString) then sv
      else
        let msg :=
          ChatMessage.mk (uuidv4 sv (uuidCalls sv)) playerId (Player.name player)
            (String.substring 0 100 (trim text)) now in
        let msgs := GameState.chatMessages (state sv) ++ [msg] in
        notify
          (upd (GameState.set_chatMessages
                  (if 50 <? length msgs then drop 1 msgs else msgs))
             (usedUuid 1 sv))
  | None => sv
  end.

End MockGameServer.

Definition demo_uuid (n : nat) : string := "c" +:+ pretty n.

(** The session apart from the cards: every field of the server except
    the roster, the deck, the discard pile and the [Math.random] count. *)
Definition outsideCards (sv : MockGameServer.t) :=
  let g := MockGameServer.state sv in
  (GameState.roomId g, GameState.currentPlayerIndex g, GameState.direction g,
   GameState.status g, GameState.winner g, GameState.currentColor g,
   GameState.turnTimer g, GameState.log g, GameState.mode g,
   GameState.chatMessages g, GameState.lastReaction g,
   MockGameServer.uuidv4 sv, MockGameServer.uuidCalls sv, MockGameServer.random sv,
   MockGameServer.notifyCalls sv, MockGameServer.timerRunning sv).

(** [sv'] is [sv] after seat [i] has drawn the cards [drawn] from the deck,
    the discard pile having been turned over when the deck ran out. *)
Definition drawnBy (i : nat) (drawn : list Card.t) (sv sv' : MockGameServer.t) : Prop :=
  MockGameServer.players sv'
    = alter (Player.push_hand drawn) i (MockGameServer.players sv)
  ∧ GameState.deck (MockGameServer.state sv')
      ++ GameState.discardPile (MockGameServer.state sv') ++ drawn
    ≡ₚ GameState.deck (MockGameServer.state sv)
      ++ GameState.discardPile (MockGameServer.state sv)
  ∧ outsideCards sv' = outsideCards sv.

(** ** A play, as the specification words it *)

(** The three guards of [playCard] pass: it is the turn of [playerId],
    whose [Player] object is [player]; [card] is the card of that hand
    with id [cardId], at position [cardIndex]; the move is legal. *)
Definition accepted (sv : MockGameServer.t) (playerId cardId : string)
    (player : Player.t) (cardIndex : nat) (card : Card.t) : Prop :=
  let g := MockGameServer.state sv in
  findIndex (λ p, Player.id p = playerId) (GameState.players g)
    = Some (GameState.currentPlayerIndex g)
  ∧ GameState.players g !! GameState.currentPlayerIndex g = Some player
  ∧ list_find (λ c, Card.id c = cardId) (Player.hand player) = Some (cardIndex, card)
  ∧ MockGameServer.validAgainstTop card (last (GameState.discardPile g))
      (GameState.currentColor g) = Ok true.

(** The play leaves exactly one card in a hand whose owner has not
    called Uno. *)
Definition forgotUno (player : Player.t) (cardIndex : nat) : bool :=
  (length (delete cardIndex (Player.hand player)) =? 1)
  && negb (Player.hasCalledUno player).

(** The acting player after the card has left the hand, [penalty] has been
    drawn and the Uno flag has been looked at. *)
Definition afterPlay (cardIndex : nat) (penalty : list Card.t) (p : Player.t)
  : Player.t :=
  let p' := Player.push_hand penalty
              (Player.set_hand (delete cardIndex (Player.hand p)) p) in
  if 1 <? length (Player.hand p') then Player.set_hasCalledUno false p' else p'.

(** The side-effect table of [playCard]: the offset the turn advances by
    for a card, with [activeCount] active players at the table. *)
Definition nextOffsetOf (card : Card.t) (activeCount : nat) : nat :=
  match Card.type card with
  | CardType.number | CardType.wild => 1
  | CardType.skip | CardType.draw2 | CardType.wild4 => 2
  | CardType.reverse => if activeCount =? 2 then 2 else 1
  end.

(** Whether the card flips [direction]. *)
Definition flipsDirection (card : Card.t) (activeCount : nat) : bool :=
  bool_decide (Card.type card = CardType.reverse) && negb (activeCount =? 2).

(** Whether the card makes the next seat draw. *)
Definition makesNextDraw (card : Card.t) : bool :=
  bool_decide (Card.type card = CardType.draw2)
  || bool_decide (Card.type card = CardType.wild4).

(** ** The seat walk, as the specification words it *)

(** The seat reached from seat [cur] after [k] steps in direction order,
    with wraparound. *)
Definition seatAfter (ps : list Player.t) (d : Direction.t) (cur k : nat) : nat :=
  Z.to_nat ((Z.of_nat cur + Direction.to_Z d * Z.of_nat k) `mod` Z.of_nat (length ps)).

(** Whether seat [i] holds a non-eliminated, non-spectator player. *)
Definition activeAt (ps : list Player.t) (i : nat) : bool :=
  match ps !! i with
  | Some p => Player.active p
  | None => false
  end.

(** How many of the first [k] seats of the walk hold an active player. *)
Fixpoint activeSeats (ps : list Player.t) (d : Direction.t) (cur k : nat) : nat :=
  match k with
  | 0 => 0
  | S k' =>
      activeSeats ps d cur k' + (if activeAt ps (seatAfter ps d cur k) then 1 else 0)
  end.

(** The value of [nextIndex] after [k] iterations of the loop body: the
    start value itself, which need not be a seat, before the first. *)
Definition walked (ps : list Player.t) (d : Direction.t) (cur k : nat) : nat :=
  match k with 0 => cur | S _ => seatAfter ps d cur k end.

(** ** Sessions as sequences of calls *)

Inductive Action :=
| Join (name avatar : string)
| StartGame
| PlayCard (playerId cardId : string) (wildColor : option CardColor.t)
| DrawCard (playerId : string)
| CallUno (playerId : string)
| NextRound.

Definition step (a : Action) (sv : MockGameServer.t) : Result MockGameServer.t :=
  match a with
  | Join name avatar => Ok (MockGameServer.handleJoinRequest name avatar None sv)
  | StartGame => MockGameServer.startGame sv
  | PlayCard playerId cardId wildColor =>
      MockGameServer.playCard playerId cardId wildColor sv
  | DrawCard playerId => MockGameServer.drawCard playerId sv
  | CallUno playerId => Ok (MockGameServer.callUno playerId sv)
  | NextRound => MockGameServer.nextRound sv
  end.

Fixpoint run (trace : list Action) (sv : MockGameServer.t) : Result MockGameServer.t :=
  match trace with
  | [] => Ok sv
  | a :: trace' => sv' ←! step a sv; run trace' sv'
  end.

(** Every card in play: the deck, the discard pile and all hands. *)
Definition allCards (sv : MockGameServer.t) : list Card.t :=
  GameState.deck (MockGameServer.state sv)
  ++ GameState.discardPile (MockGameServer.state sv)
  ++ concat (Player.hand <$> MockGameServer.players sv).

(** What [nextRound] does to a seat: a fresh hand of seven with flag and
    score reset for an active player, nothing for the others. *)
Definition dealtInRound (p p' : Player.t) : Prop :=
  if Player.active p
  then ∃ h, length h = 7
            ∧ p' = Player.set_score 0 (Player.set_hasCalledUno false (Player.set_hand h p))
  else p' = p.

(** Whom [handleRoundWin] eliminates: nobody ([None]) when no active
    player has points, else the earliest seat [e] among the active
    players of highest score. *)
Definition highestScorer (ps : list Player.t) (elim : option nat) : Prop :=
  match elim with
  | Some e =>
      ∃ pe, ps !! e = Some pe ∧ Player.active pe = true ∧ 0 < Player.score pe
            ∧ ∀ i p, ps !! i = Some p → Player.active p = true →
                     Player.score p ≤ Player.score pe
                     ∧ (i < e → Player.score p < Player.score pe)
  | None =>
      ∀ i p, ps !! i = Some p → Player.active p = true → Player.score p = 0
  end.

(** ** Sample sessions *)

Definition sampleUuid (n : nat) : string := "uuid-" +:+ pretty n.
Definition sampleRandom (k : nat) : nat := k * 7 + 3.

Definition seatedPlayer (id : string) (hand : list Card.t) (eliminated : bool)
  : Player.t :=
  Player.mk id id "avatar" hand false 0 eliminated false false false.

Definition tableOf (ps : list Player.t) (deck discardPile : list Card.t)
    (cur : nat) (d : Direction.t) (mode : GameMode.t) : MockGameServer.t :=
  MockGameServer.mk
    (GameState.mk "ROOM01" ps deck discardPile cur d GameStatus.PLAYING None
       CardColor.red 30 [] mode [] None)
    sampleUuid 0 sampleRandom 0 0 true.

Definition red3 := Card.mk "r3" CardColor.red CardType.number (Some 3).
Definition red5 := Card.mk "r5" CardColor.red CardType.number (Some 5).
Definition red9 := Card.mk "r9" CardColor.red CardType.number (Some 9).
Definition redReverse := Card.mk "rR" CardColor.red CardType.reverse None.
Definition green6 := Card.mk "g6" CardColor.green CardType.number (Some 6).
Definition green7 := Card.mk "g7" CardColor.green CardType.number (Some 7).
Definition blue3 := Card.mk "b3" CardColor.blue CardType.number (Some 3).
Definition blue4 := Card.mk "b4" CardColor.blue CardType.number (Some 4).
Definition blue9 := Card.mk "b9" CardColor.blue CardType.number (Some 9).
Definition blueSkip := Card.mk "bS" CardColor.blue CardType.skip None.
Definition yellow1 := Card.mk "y1" CardColor.yellow CardType.number (Some 1).
Definition yellow2 := Card.mk "y2" CardColor.yellow CardType.number (Some 2).
Definition yellow9 := Card.mk "y9" CardColor.yellow CardType.number (Some 9).
Definition wildCard := Card.mk "w1" CardColor.black CardType.wild None.

(** A holds two cards and has not called Uno; red 9 is on top. *)
Definition tableTwoCards : MockGameServer.t :=
  tableOf [seatedPlayer "A" [red5; green7] false;
           seatedPlayer "B" [blue3; yellow2] false]
    [yellow1; blue4] [red9] 0 Direction.clockwise GameMode.TOURNAMENT.

Definition tableTwoCardsPlayed : MockGameServer.t :=
  match MockGameServer.playCard "A" "r5" None tableTwoCards with
  | Ok sv => sv
  | _ => tableTwoCards
  end.

(** The same table after A has called Uno on the two cards, after A and
    then B have drawn instead of playing, and after A has then played the
    red 5 from a hand of three. *)
Definition tableUnoCalled : MockGameServer.t :=
  MockGameServer.callUno "A" tableTwoCards.

Definition tableUnoDrew : MockGameServer.t :=
  match MockGameServer.drawCard "A" tableUnoCalled with
  | Ok sv => sv
  | _ => tableUnoCalled
  end.

Definition tableUnoDrawn : MockGameServer.t :=
  match MockGameServer.drawCard "B" tableUnoDrew with
  | Ok sv => sv
  | _ => tableUnoDrew
  end.

Definition tableUnoPlayed : MockGameServer.t :=
  match MockGameServer.playCard "A" "r5" None tableUnoDrawn with
  | Ok sv => sv
  | _ => tableUnoDrawn
  end.

(** A holds a reverse at a table of two. *)
Definition tableReverse : MockGameServer.t :=
  tableOf [seatedPlayer "A" [redReverse; green7; red5] false;
           seatedPlayer "B" [blue3; yellow2] false]
    [yellow1; blue4] [red9] 0 Direction.clockwise GameMode.TOURNAMENT.

Definition tableReversePlayed : MockGameServer.t :=
  match MockGameServer.playCard "A" "rR" None tableReverse with
  | Ok sv => sv
  | _ => tableReverse
  end.

(** A holds a reverse at a table of three. *)
Definition tableReverseThree : MockGameServer.t :=
  tableOf [seatedPlayer "A" [redReverse; green7; red5] false;
           seatedPlayer "B" [blue3; yellow2] false;
           seatedPlayer "C" [blue9; red3] false]
    [yellow1; blue4] [red9] 0 Direction.clockwise GameMode.TOURNAMENT.

Definition tableReverseThreePlayed : MockGameServer.t :=
  match MockGameServer.playCard "A" "rR" None tableReverseThree with
  | Ok sv => sv
  | _ => tableReverseThree
  end.

(** The round-resolution example: A plays the last card, B is left with
    35 points, C with 62. *)
Definition tableLastCard : MockGameServer.t :=
  tableOf [seatedPlayer "A" [red5] false;
           seatedPlayer "B" [blueSkip; yellow9; green6] false;
           seatedPlayer "C" [wildCard; blue9; red3] false]
    [yellow1; blue4] [red9] 0 Direction.clockwise GameMode.TOURNAMENT.

Definition tableLastCardPlayed : MockGameServer.t :=
  match MockGameServer.playCard "A" "r5" None tableLastCard with
  | Ok sv => sv
  | _ => tableLastCard
  end.


(** A lobby of three, and a first round of a tournament played from it:
    Bob (uuid-0) goes out, Cy (uuid-1) holds the most points. *)
Definition lobby : MockGameServer.t :=
  MockGameServer.new "Ann" "a" GameMode.TOURNAMENT "ROOM01" sampleUuid sampleRandom.

Definition firstRound : list Action :=
  [Join "Bob" "b"; Join "Cy" "c"; StartGame;
   PlayCard "host-id" "uuid-13" None; PlayCard "uuid-0" "uuid-11" None;
   PlayCard "uuid-1" "uuid-103" (Some CardColor.red);
   PlayCard "uuid-0" "uuid-17" None; PlayCard "uuid-1" "uuid-22" None;
   PlayCard "uuid-0" "uuid-23" None; PlayCard "host-id" "uuid-2" None;
   DrawCard "uuid-1"; PlayCard "uuid-0" "uuid-25" None;
   DrawCard "uuid-1"; PlayCard "uuid-0" "uuid-15" None;
   PlayCard "host-id" "uuid-7" None; DrawCard "uuid-1";
   CallUno "uuid-0"; PlayCard "uuid-0" "uuid-108" (Some CardColor.red);
   PlayCard "host-id" "uuid-4" None; DrawCard "uuid-1";
   DrawCard "uuid-0"; PlayCard "host-id" "uuid-10" None;
   PlayCard "uuid-1" "uuid-84" None; CallUno "uuid-0";
   PlayCard "uuid-0" "uuid-90" None; PlayCard "host-id" "uuid-40" None;
   PlayCard "uuid-1" "uuid-49" None; PlayCard "host-id" "uuid-33" None;
   DrawCard "uuid-0"; PlayCard "uuid-1" "uuid-46" None;
   CallUno "uuid-0"; PlayCard "uuid-0" "uuid-96" None;
   DrawCard "host-id"; PlayCard "uuid-0" "uuid-89" None].

(** The same round up to the point where Bob holds two cards and it is
    his turn; he calls Uno, then draws instead of playing. *)
Definition unoThenDraw : list Action :=
  take 16 firstRound ++ [CallUno "uuid-0"; DrawCard "uuid-0"].

(** The session of [firstRound] when the round is over. *)
Definition roundOver : MockGameServer.t :=
  match run firstRound lobby with
  | Ok sv => sv
  | _ => lobby
  end.

(** Players [A, B, C] with B eliminated, A to play, clockwise. *)
Definition tableABC : MockGameServer.t :=
  tableOf [seatedPlayer "A" [] false; seatedPlayer "B" [] true;
           seatedPlayer "C" [] false]
    [] [] 0 Direction.clockwise GameMode.TOURNAMENT.

(** ** Notions and tables for sessions, bots and the other calls *)

(** How many copies of a face the deck of the rules holds. *)
Definition copies (f : Face) : nat :=
  match f with
  | (CardColor.black, CardType.wild, None) => 4
  | (CardColor.black, CardType.wild4, None) => 4
  | (CardColor.black, _, _) => 0
  | (_, CardType.number, Some 0) => 1
  | (_, CardType.number, Some v) => if v <=? 9 then 2 else 0
  | (_, CardType.skip, None) => 2
  | (_, CardType.reverse, None) => 2
  | (_, CardType.draw2, None) => 2
  | _ => 0
  end.

(** The points of one card, as the scoring table words them. *)
Definition cardPoints (card : Card.t) : nat :=
  match Card.type card with
  | CardType.number => default 0 (Card.value card)
  | CardType.skip | CardType.reverse | CardType.draw2 => 20
  | CardType.wild | CardType.wild4 => 50
  end.

(** The cards a draw can reach: the deck and the discard pile below its
    top card. *)
Definition available (sv : MockGameServer.t) : nat :=
  length (GameState.deck (MockGameServer.state sv))
  + (length (GameState.discardPile (MockGameServer.state sv)) - 1).

(** What [handlePlayerExit] does to the [Player] object of a leaver once
    the game has started. *)
Definition retired (p : Player.t) : Player.t :=
  Player.set_isSpectator true (Player.set_hand [] (Player.set_isEliminated true p)).

(** What [startGame] does to a seat: seven cards and a clean record for a
    player, an empty hand and the eliminated mark for a spectator. *)
Definition dealtAtStart (p p' : Player.t) : Prop :=
  if Player.isSpectator p
  then p' = Player.set_isEliminated true (Player.set_hand [] p)
  else ∃ h, length h = 7
            ∧ p' = Player.set_hasCalledUno false
                     (Player.set_score 0
                        (Player.set_isEliminated false (Player.set_hand h p))).

(** The lobby of [firstRound] with Bob and Cy in. *)
Definition lobbyOfThree : MockGameServer.t :=
  match run (take 2 firstRound) lobby with
  | Ok sv => sv
  | _ => lobby
  end.

(** The turn is on the seat of an active player. *)
Definition turnOnActive (sv : MockGameServer.t) : Prop :=
  activeAt (MockGameServer.players sv)
    (GameState.currentPlayerIndex (MockGameServer.state sv)) = true.

(** What a step inside a turn leaves alone: who sits where and who is
    active, the id oracle, the status, the top of the discard pile and the
    current colour. *)
Definition quiet (sv sv' : MockGameServer.t) : Prop :=
  Player.id <$> MockGameServer.players sv' = Player.id <$> MockGameServer.players sv
  ∧ Player.active <$> MockGameServer.players sv'
    = Player.active <$> MockGameServer.players sv
  ∧ MockGameServer.uuidv4 sv' = MockGameServer.uuidv4 sv
  ∧ MockGameServer.uuidCalls sv' = MockGameServer.uuidCalls sv
  ∧ GameState.status (MockGameServer.state sv')
    = GameState.status (MockGameServer.state sv)
  ∧ last (GameState.discardPile (MockGameServer.state sv'))
    = last (GameState.discardPile (MockGameServer.state sv))
  ∧ GameState.currentColor (MockGameServer.state sv')
    = GameState.currentColor (MockGameServer.state sv).

(** Every call the host serves: those of [step], a join that names an
    earlier id, and the calls of bots, timers, leavers and the chat. *)
Inductive Call :=
| Host (a : Action)
| Rejoin (name avatar existingId : string)
| AddBot
| LeaveGame (playerId : string)
| Timeout
| BotTurn (botIndex : nat)
| SendReaction (now : nat) (playerId emoji : string)
| SendChat (now : nat) (playerId text : string).

Definition call (trim : string → string) (c : Call) (sv : MockGameServer.t)
  : Result MockGameServer.t :=
  match c with
  | Host a => step a sv
  | Rejoin name avatar existingId =>
      Ok (MockGameServer.handleJoinRequest name avatar (Some existingId) sv)
  | AddBot => Ok (MockGameServer.addBot sv)
  | LeaveGame playerId => MockGameServer.handlePlayerExit playerId sv
  | Timeout => MockGameServer.handleTimeout sv
  | BotTurn botIndex => MockGameServer.executeBotTurn botIndex sv
  | SendReaction now playerId emoji =>
      Ok (MockGameServer.sendReaction now playerId emoji sv)
  | SendChat now playerId text =>
      Ok (MockGameServer.sendChat trim now playerId text sv)
  end.

Fixpoint session (trim : string → string) (calls : list Call)
    (sv : MockGameServer.t) : Result MockGameServer.t :=
  match calls with
  | [] => Ok sv
  | c :: calls' => sv' ←! call trim c sv; session trim calls' sv'
  end.

(** While the status is PLAYING the turn is on an active seat and the
    discard pile shows a card. *)
Definition playable (sv : MockGameServer.t) : Prop :=
  GameState.status (MockGameServer.state sv) = GameStatus.PLAYING →
  turnOnActive sv ∧ GameState.discardPile (MockGameServer.state sv) ≠ [].

(** The roster of [sv'] comes from that of [sv]: seats are kept or (in the
    lobby) removed, or one seat is added to fewer than 15 with the next id
    of the oracle. *)
Definition seatsFrom (sv sv' : MockGameServer.t) : Prop :=
  MockGameServer.uuidv4 sv' = MockGameServer.uuidv4 sv
  ∧ MockGameServer.uuidCalls sv ≤ MockGameServer.uuidCalls sv'
  ∧ ((Player.id <$> MockGameServer.players sv')
       `sublist_of` (Player.id <$> MockGameServer.players sv)
     ∨ (Player.id <$> MockGameServer.players sv'
        = (Player.id <$> MockGameServer.players sv)
          ++ [MockGameServer.uuidv4 sv (MockGameServer.uuidCalls sv)]
        ∧ MockGameServer.uuidCalls sv < MockGameServer.uuidCalls sv'
        ∧ length (MockGameServer.players sv) < 15)).

(** Player ids are unique and come from the host constant or from the
    first [uuidCalls] values of the oracle [u0]. *)
Definition idsFromOracle (u0 : nat → string) (sv : MockGameServer.t) : Prop :=
  MockGameServer.uuidv4 sv = u0
  ∧ NoDup (Player.id <$> MockGameServer.players sv)
  ∧ Forall (λ x, x = "host-id" ∨ ∃ n, n < MockGameServer.uuidCalls sv ∧ x = u0 n)
      (Player.id <$> MockGameServer.players sv).

(** A session with a bot: two joins, a bot, the start, a timeout on the
    first turn, and Bob leaving. *)
Definition sessionWithBot : list Call :=
  [Host (Join "Bob" "b"); Host (Join "Cy" "c"); AddBot; Host StartGame; Timeout;
   LeaveGame "uuid-0"; BotTurn 3].

Definition tableWithBot : MockGameServer.t :=
  match session (λ s, s) sessionWithBot lobby with
  | Ok sv => sv
  | _ => lobby
  end.

(** A bot X holds a wild, a draw-two and a number card; red 9 is on top. *)
Definition redDraw2 := Card.mk "rD" CardColor.red CardType.draw2 None.

Definition botSeat (id : string) (hand : list Card.t) : Player.t :=
  Player.mk id id "avatar" hand false 0 false false true false.

Definition tableBot : MockGameServer.t :=
  tableOf [botSeat "X" [green7; wildCard; redDraw2; red5];
           seatedPlayer "B" [blue3; yellow2] false]
    [yellow1; blue4; blue9; green6] [red9] 0 Direction.clockwise GameMode.TOURNAMENT.

(** The bot is down to two cards. *)
Definition tableBotTwoCards : MockGameServer.t :=
  tableOf [botSeat "X" [green7; red5];
           seatedPlayer "B" [blue3; yellow2] false]
    [yellow1; blue4; blue9; green6] [red9] 0 Direction.clockwise GameMode.TOURNAMENT.

(** The calls that deal no cards and retire nobody. *)
Definition movesCardsOnly (c : Call) : bool :=
  match c with
  | Host StartGame | Host NextRound | LeaveGame _ => false
  | _ => true
  end.

(** The cards a draw card makes the next player draw. *)
Definition drawCount (card : Card.t) : nat :=
  match Card.type card with
  | CardType.draw2 => 2
  | CardType.wild4 => 4
  | _ => 0
  end.

(** A holds a draw-two at a table of three. *)
Definition tableDrawTwo : MockGameServer.t :=
  tableOf [seatedPlayer "A" [redDraw2; green7; red5] false;
           seatedPlayer "B" [blue3; yellow2] false;
           seatedPlayer "C" [blue9] false]
    [yellow1; blue4; green6] [red9] 0 Direction.clockwise GameMode.TOURNAMENT.

Definition tableDrawTwoPlayed : MockGameServer.t :=
  match MockGameServer.playCard "A" "rD" None tableDrawTwo with
  | Ok sv => sv
  | _ => tableDrawTwo
  end.

(** The table of [tableABC] with C gone as well: A is the one active
    player left. *)
Definition tableAlone : MockGameServer.t :=
  tableOf [seatedPlayer "A" [] false; seatedPlayer "B" [] true;
           seatedPlayer "C" [] true]
    [] [] 0 Direction.counterClockwise GameMode.TOURNAMENT.

(** A holds a skip at a table of three. *)
Definition redSkip := Card.mk "rS" CardColor.red CardType.skip None.

Definition tableSkip : MockGameServer.t :=
  tableOf [seatedPlayer "A" [redSkip; green7; red5] false;
           seatedPlayer "B" [blue3; yellow2] false;
           seatedPlayer "C" [blue9] false]
    [yellow1; blue4; green6] [red9] 0 Direction.clockwise GameMode.TOURNAMENT.

Import MockGameServer.

(** * Properties *)

(** ** The seat walk of [getNextPlayerIndex] *)

Section SeatWalk.
Variable ps : list Player.t.
Variable d : Direction.t.
Hypothesis nonempty : 0 < length ps.

Local Abbreviation len := (length ps).

Lemma stepSeat_lt x : stepSeat len d x < len.
Proof.
  unfold stepSeat.
  assert (0 <= Z.of_nat x + Direction.to_Z d + Z.of_nat len)%Z
    by (destruct d; simpl; lia).
  rewrite Z.rem_mod_nonneg by lia.
  pose proof (Z.mod_pos_bound (Z.of_nat x + Direction.to_Z d + Z.of_nat len)
                (Z.of_nat len)).
  lia.
Qed.

Lemma seatAfter_lt cur k : seatAfter ps d cur k < len.
Proof.
  unfold seatAfter.
  pose proof (Z.mod_pos_bound (Z.of_nat cur + Direction.to_Z d * Z.of_nat k)
                (Z.of_nat len)).
  lia.
Qed.

Lemma stepSeat_first cur : stepSeat len d cur = seatAfter ps d cur 1.
Proof.
  unfold stepSeat, seatAfter.
  assert (0 <= Z.of_nat cur + Direction.to_Z d + Z.of_nat len)%Z
    by (destruct d; simpl; lia).
  rewrite Z.rem_mod_nonneg by lia.
  f_equal.
  replace (Z.of_nat cur + Direction.to_Z d + Z.of_nat len)%Z
    with (Z.of_nat cur + Direction.to_Z d * Z.of_nat 1 + 1 * Z.of_nat len)%Z by lia.
  apply Z_mod_plus_full.
Qed.

Lemma stepSeat_seatAfter cur k :
  stepSeat len d (seatAfter ps d cur k) = seatAfter ps d cur (S k).
Proof.
  unfold stepSeat, seatAfter.
  set (n := Z.of_nat len). set (a := (Z.of_nat cur + Direction.to_Z d * Z.of_nat k)%Z).
  assert (0 < n)%Z by (unfold n; lia).
  pose proof (Z.mod_pos_bound a n ltac:(lia)).
  rewrite Z2Nat.id by lia.
  rewrite Z.rem_mod_nonneg by (destruct d; simpl; lia).
  f_equal.
  replace (Z.of_nat cur + Direction.to_Z d * Z.of_nat (S k))%Z
    with (a + Direction.to_Z d)%Z by (unfold a; lia).
  replace (a `mod` n + Direction.to_Z d + n)%Z
    with (a `mod` n + Direction.to_Z d + 1 * n)%Z by lia.
  rewrite Z_mod_plus_full.
  rewrite Z.add_mod_idemp_l by lia. reflexivity.
Qed.

Local Abbreviation walked := (walked ps d).

Lemma walked_S cur k : walked cur (S k) = stepSeat len d (walked cur k).
Proof.
  destruct k; simpl.
  - symmetry. apply stepSeat_first.
  - symmetry. apply stepSeat_seatAfter.
Qed.

Lemma lookup_seatAfter cur k : is_Some (ps !! seatAfter ps d cur k).
Proof. apply lookup_lt_is_Some, seatAfter_lt. Qed.

Lemma activeSeats_mono cur k m : activeSeats ps d cur k ≤ activeSeats ps d cur (k + m).
Proof.
  induction m as [|m IH]; [rewrite Nat.add_0_r; lia|].
  rewrite Nat.add_succ_r. simpl. lia.
Qed.

Lemma activeSeats_le cur j k : j ≤ k → activeSeats ps d cur j ≤ activeSeats ps d cur k.
Proof.
  intros. replace k with (j + (k - j)) by lia. apply activeSeats_mono.
Qed.

(** The loop, run from the state it has after [k] iterations, exits
    after [m] more when the count first reaches its target there. *)
Lemma seatWalk_from offset cur m : ∀ k fuel,
  m ≤ fuel →
  activeSeats ps d cur k ≤ len * 2 →
  activeSeats ps d cur (k + m) = offset `min` (len * 2 + 1) →
  (∀ j, k ≤ j < k + m → activeSeats ps d cur j < offset `min` (len * 2 + 1)) →
  seatWalk fuel ps d offset (walked cur k) (activeSeats ps d cur k)
  = Ok (walked cur (k + m)).
Proof.
  induction m as [|m IH]; intros k fuel Hfuel Hcap Hhit Hbelow.
  - rewrite Nat.add_0_r in *.
    assert (Hge : offset ≤ activeSeats ps d cur k) by lia.
    destruct fuel; simpl; apply Nat.ltb_ge in Hge; rewrite Hge; reflexivity.
  - destruct fuel as [|fuel]; [lia|].
    pose proof (Hbelow k ltac:(lia)) as Hk.
    assert (Hlt : activeSeats ps d cur k < offset) by lia.
    simpl. apply Nat.ltb_lt in Hlt. rewrite Hlt.
    destruct (Nat.eqb_spec len 0) as [?|_]; [lia|].
    rewrite <- walked_S.
    destruct (lookup_seatAfter cur (S k)) as [p Hp].
    change (walked cur (S k)) with (seatAfter ps d cur (S k)).
    rewrite Hp.
    assert (Hcount :
      (if Player.active p then S (activeSeats ps d cur k) else activeSeats ps d cur k)
      = activeSeats ps d cur (S k)).
    { simpl. unfold activeAt. rewrite Hp. destruct (Player.active p); lia. }
    rewrite Hcount.
    destruct (Nat.ltb_spec (len * 2) (activeSeats ps d cur (S k))) as [Hbrk|Hgo].
    + (* the guard [count > len * 2] fires: this was the last step *)
      destruct m as [|m].
      * rewrite Nat.add_1_r. reflexivity.
      * pose proof (Hbelow (S k) ltac:(lia)). lia.
    + change (seatAfter ps d cur (S k)) with (walked cur (S k)).
      rewrite (IH (S k) fuel); [f_equal; f_equal; lia|lia|lia| |].
      * rewrite <- Hhit. f_equal. lia.
      * intros j Hj. apply Hbelow. lia.
Qed.

(** With nobody to count the loop never exits. *)
Lemma seatWalk_nobody offset fuel : ∀ x,
  0 < offset →
  Forall (λ p, Player.active p = false) ps →
  seatWalk fuel ps d offset x 0 = Diverges.
Proof.
  induction fuel as [|fuel IH]; intros x Hoff Hnone; simpl.
  - destruct (Nat.ltb_spec 0 offset); [reflexivity|lia].
  - destruct (Nat.ltb_spec 0 offset); [|lia].
    destruct (Nat.eqb_spec len 0) as [?|_]; [lia|].
    destruct (lookup_lt_is_Some_2 ps (stepSeat len d x) (stepSeat_lt x)) as [p Hp].
    rewrite Hp.
    rewrite Forall_forall in Hnone.
    rewrite (Hnone p) by (eapply list_elem_of_lookup_2; eauto).
    destruct (Nat.ltb_spec (len * 2) 0); [lia|].
    apply IH; [assumption|]. rewrite Forall_forall. assumption.
Qed.

(** Every seat comes up within [len] steps, wherever the walk stands. *)
Lemma seatAfter_reaches cur a k :
  a < len → ∃ m, 1 ≤ m ≤ len ∧ seatAfter ps d cur (k + m) = a.
Proof.
  intros Ha.
  set (n := Z.of_nat len). assert (0 < n)%Z by (unfold n; lia).
  destruct d.
  - set (r := ((Z.of_nat a - Z.of_nat cur - Z.of_nat k - 1) `mod` n)%Z).
    pose proof (Z.mod_pos_bound (Z.of_nat a - Z.of_nat cur - Z.of_nat k - 1) n
                  ltac:(lia)) as Hr.
    exists (1 + Z.to_nat r). split; [fold r in Hr; lia|].
    unfold seatAfter. fold n. simpl Direction.to_Z.
    replace (Z.of_nat cur + 1 * Z.of_nat (k + (1 + Z.to_nat r)))%Z
      with (Z.of_nat cur + Z.of_nat k + 1 + r)%Z by (fold r in Hr; lia).
    unfold r. rewrite Z.add_mod_idemp_r by lia.
    replace (Z.of_nat cur + Z.of_nat k + 1
             + (Z.of_nat a - Z.of_nat cur - Z.of_nat k - 1))%Z
      with (Z.of_nat a) by lia.
    rewrite Z.mod_small by (unfold n; lia). lia.
  - set (r := ((Z.of_nat cur - Z.of_nat k - 1 - Z.of_nat a) `mod` n)%Z).
    pose proof (Z.mod_pos_bound (Z.of_nat cur - Z.of_nat k - 1 - Z.of_nat a) n
                  ltac:(lia)) as Hr.
    exists (1 + Z.to_nat r). split; [fold r in Hr; lia|].
    unfold seatAfter. fold n. simpl Direction.to_Z.
    replace (Z.of_nat cur + -1 * Z.of_nat (k + (1 + Z.to_nat r)))%Z
      with (Z.of_nat cur - Z.of_nat k - 1 - r)%Z by (fold r in Hr; lia).
    unfold r. rewrite Zminus_mod_idemp_r.
    replace (Z.of_nat cur - Z.of_nat k - 1
             - (Z.of_nat cur - Z.of_nat k - 1 - Z.of_nat a))%Z
      with (Z.of_nat a) by lia.
    rewrite Z.mod_small by (unfold n; lia). lia.
Qed.

Lemma seatAfter_inj cur j1 j2 :
  1 ≤ j1 ≤ len → 1 ≤ j2 ≤ len →
  seatAfter ps d cur j1 = seatAfter ps d cur j2 → j1 = j2.
Proof.
  intros H1 H2 Heq. unfold seatAfter in Heq.
  set (n := Z.of_nat len) in *. assert (0 < n)%Z by (unfold n; lia).
  set (a := (Z.of_nat cur + Direction.to_Z d * Z.of_nat j1)%Z) in *.
  set (b := (Z.of_nat cur + Direction.to_Z d * Z.of_nat j2)%Z) in *.
  pose proof (Z.mod_pos_bound a n ltac:(lia)).
  pose proof (Z.mod_pos_bound b n ltac:(lia)).
  assert (Hmod : (a `mod` n = b `mod` n)%Z) by lia.
  assert (Hz : ((a - b) `mod` n = 0)%Z).
  { rewrite Zminus_mod, Hmod, Z.sub_diag. apply Z.mod_0_l. lia. }
  apply Z.mod_divide in Hz as [c Hc]; [|lia].
  assert (c = 0)%Z by (unfold a, b, n in *; destruct d; simpl in *; nia).
  subst c. unfold a, b in Hc. destruct d; simpl in Hc; lia.
Qed.

(** One turn round the table visits every seat once. *)
Lemma seatAfter_cycle cur : seatAfter ps d cur <$> seq 1 len ≡ₚ seq 0 len.
Proof.
  apply submseteq_length_Permutation.
  - apply NoDup_submseteq.
    + apply NoDup_fmap_2_strong; [|apply NoDup_seq].
      intros x y Hx%elem_of_seq Hy%elem_of_seq. apply seatAfter_inj; lia.
    + intros x (j & -> & _)%list_elem_of_fmap.
      apply elem_of_seq. pose proof (seatAfter_lt cur j). lia.
  - rewrite length_fmap, !length_seq. lia.
Qed.

Lemma activeSeats_filter cur k :
  activeSeats ps d cur k
  = length (filter (λ i, activeAt ps i = true) (seatAfter ps d cur <$> seq 1 k)).
Proof.
  induction k as [|k IH]; [reflexivity|].
  rewrite seq_S, fmap_app, filter_app, length_app, <- IH. simpl.
  rewrite filter_cons, filter_nil.
  destruct (decide (activeAt ps (seatAfter ps d cur (S k)) = true)) as [->|Hn].
  - reflexivity.
  - apply not_true_is_false in Hn. rewrite Hn. reflexivity.
Qed.

Lemma active_seats_filter (pre l : list Player.t) :
  length (filter (λ i, activeAt (pre ++ l) i = true) (seq (length pre) (length l)))
  = length (filter (λ p, Player.active p = true) l).
Proof.
  revert pre. induction l as [|x l IH]; intros pre; [reflexivity|].
  simpl seq. rewrite !filter_cons.
  assert (Hx : activeAt (pre ++ x :: l) (length pre) = Player.active x).
  { unfold activeAt. rewrite lookup_app_r, Nat.sub_diag by lia. reflexivity. }
  specialize (IH (pre ++ [x])).
  rewrite length_app, Nat.add_1_r, <- app_assoc in IH. simpl in IH.
  rewrite Hx.
  destruct (decide (Player.active x = true)); simpl; rewrite IH; reflexivity.
Qed.

(** So a full turn counts exactly the active players. *)
Lemma activeSeats_cycle cur :
  activeSeats ps d cur len = length (filter (λ p, Player.active p = true) ps).
Proof.
  rewrite activeSeats_filter, (seatAfter_cycle cur).
  apply (active_seats_filter [] ps).
Qed.

Lemma seatAfter_cycle_home cur : cur < len → seatAfter ps d cur len = cur.
Proof.
  intros Hcur. unfold seatAfter.
  rewrite Z_mod_plus_full, Z.mod_small by lia. lia.
Qed.

Hypothesis somebody : Exists (λ p, Player.active p = true) ps.

(** The next counted seat is at most [len] steps away. *)
Lemma next_active cur k :
  ∃ m, 1 ≤ m ≤ len
       ∧ activeAt ps (seatAfter ps d cur (k + m)) = true
       ∧ ∀ j, 1 ≤ j < m → activeAt ps (seatAfter ps d cur (k + j)) = false.
Proof.
  apply Exists_exists in somebody as (p & Hin & Hact).
  apply list_elem_of_lookup in Hin as [a Ha].
  destruct (seatAfter_reaches cur a k (lookup_lt_Some _ _ _ Ha)) as (m0 & Hm0 & Hseat).
  set (P := λ m, activeAt ps (seatAfter ps d cur (k + m)) = true).
  destruct (list_find P (seq 1 len)) as [[i m]|] eqn:Hfind.
  - apply list_find_Some in Hfind as (Hi & HP & Hmin).
    apply lookup_seq in Hi as [-> Hi].
    exists (1 + i). split; [lia|]. split; [exact HP|].
    intros j Hj.
    specialize (Hmin (j - 1) j).
    destruct (activeAt ps (seatAfter ps d cur (k + j))) eqn:E; [|reflexivity].
    exfalso. apply Hmin; [|lia|exact E].
    apply lookup_seq. lia.
  - exfalso. apply list_find_None in Hfind.
    rewrite Forall_forall in Hfind.
    apply (Hfind m0); [apply elem_of_seq; lia|].
    unfold P, activeAt. rewrite Hseat, Ha. exact Hact.
Qed.

(** The walk reaches any count, and does so for the first time within
    [len] steps per counted seat. *)
Lemma reach_count cur T :
  ∃ k, k ≤ T * len ∧ activeSeats ps d cur k = T
       ∧ ∀ j, j < k → activeSeats ps d cur j < T.
Proof.
  induction T as [|T (k & Hk & Hcount & Hmin)].
  - exists 0. simpl. split; [lia|]. split; [reflexivity|]. intros; lia.
  - destruct (next_active cur k) as (m & Hm & Hact & Hidle).
    assert (Hflat : ∀ j, j < m → activeSeats ps d cur (k + j) = T).
    { induction j as [|j IHj]; intros Hj.
      - rewrite Nat.add_0_r. exact Hcount.
      - rewrite Nat.add_succ_r. simpl.
        rewrite <- Nat.add_succ_r, (Hidle (S j)) by lia. rewrite IHj by lia. lia. }
    exists (k + m). split; [simpl; lia|]. split.
    + destruct m as [|m]; [lia|].
      rewrite Nat.add_succ_r. simpl.
      rewrite <- Nat.add_succ_r, Hact, Hflat by lia. lia.
    + intros j Hj.
      destruct (decide (j < k)) as [Hjk|Hjk].
      * specialize (Hmin j Hjk). lia.
      * replace j with (k + (j - k)) by lia. rewrite Hflat by lia. lia.
Qed.

(** The seat a first-reached count stands on is a counted one. *)
Lemma first_count_active cur k T :
  0 < T → activeSeats ps d cur k = T →
  (∀ j, j < k → activeSeats ps d cur j < T) →
  0 < k ∧ activeAt ps (seatAfter ps d cur k) = true.
Proof.
  intros HT Hcount Hmin.
  destruct k as [|k]; [simpl in Hcount; lia|].
  split; [lia|].
  specialize (Hmin k ltac:(lia)). simpl in Hcount.
  destruct (activeAt ps (seatAfter ps d cur (S k))); [reflexivity|lia].
Qed.

(** The loop exits, on the seat where the count first reaches
    [offset] (or [2 * len + 1], where the guard cuts the walk short). *)
Lemma seatWalk_exits cur offset :
  ∃ k, k ≤ len * (len * 2 + 1)
       ∧ activeSeats ps d cur k = offset `min` (len * 2 + 1)
       ∧ (∀ j, j < k → activeSeats ps d cur j < offset `min` (len * 2 + 1))
       ∧ ∀ fuel, k ≤ fuel → seatWalk fuel ps d offset cur 0 = Ok (walked cur k).
Proof.
  destruct (reach_count cur (offset `min` (len * 2 + 1))) as (k & Hk & Hcount & Hmin).
  exists k. split; [nia|]. split; [exact Hcount|]. split; [exact Hmin|].
  intros fuel Hfuel.
  apply (seatWalk_from offset cur k 0 fuel Hfuel).
  - simpl. lia.
  - exact Hcount.
  - intros j Hj. apply Hmin. lia.
Qed.

End SeatWalk.

Lemma seatWalkBound_ge (ps : list Player.t) k :
  k ≤ length ps * (length ps * 2 + 1) → k ≤ seatWalkBound ps.
Proof. unfold seatWalkBound. nia. Qed.

Lemma Exists_active_nonempty (ps : list Player.t) :
  Exists (λ p, Player.active p = true) ps → 0 < length ps.
Proof. intros [? ? ?|? ? ?]; simpl; lia. Qed.

(** C10. With an active player on a non-empty roster and [offset >= 1],
    the seat walk of [getNextPlayerIndex] exits (with any fuel from some
    bound on, and with the bound [getNextPlayerIndex] itself runs it
    under) on the seat of a non-eliminated, non-spectator player. The
    precondition is needed: on a non-empty roster without such a player
    the walk never exits, whatever the fuel. *)
Theorem getNextPlayerIndex_terminates_on_active (sv : MockGameServer.t) (offset : nat) :
  1 ≤ offset →
  (Exists (λ p, Player.active p = true) (players sv) →
   ∃ i p,
     (∃ n, ∀ fuel, n ≤ fuel →
        seatWalk fuel (players sv) (GameState.direction (state sv)) offset
          (GameState.currentPlayerIndex (state sv)) 0 = Ok i)
     ∧ getNextPlayerIndex offset sv = Ok i
     ∧ players sv !! i = Some p
     ∧ Player.isEliminated p = false ∧ Player.isSpectator p = false)
  ∧ (players sv ≠ [] →
     Forall (λ p, Player.active p = false) (players sv) →
     ∀ fuel,
       seatWalk fuel (players sv) (GameState.direction (state sv)) offset
         (GameState.currentPlayerIndex (state sv)) 0 = Diverges).
Proof.
  intros Hoff. split.
  - intros Hsome.
    pose proof (Exists_active_nonempty _ Hsome) as Hlen.
    destruct (seatWalk_exits (players sv) (GameState.direction (state sv)) Hlen Hsome
                (GameState.currentPlayerIndex (state sv)) offset)
      as (k & Hk & Hcount & Hmin & Hrun).
    destruct (first_count_active (players sv) (GameState.direction (state sv)) Hlen
                (GameState.currentPlayerIndex (state sv)) k
                (offset `min` (length (players sv) * 2 + 1)) ltac:(lia) Hcount Hmin)
      as [Hpos Hact].
    destruct k as [|k]; [lia|]. simpl walked in Hrun.
    unfold activeAt in Hact.
    destruct (players sv !! seatAfter (players sv) (GameState.direction (state sv))
                (GameState.currentPlayerIndex (state sv)) (S k)) as [p|] eqn:Hp;
      [|discriminate].
    exists (seatAfter (players sv) (GameState.direction (state sv))
              (GameState.currentPlayerIndex (state sv)) (S k)), p.
    split; [exists (S k); exact Hrun|].
    split; [apply Hrun, seatWalkBound_ge, Hk|].
    split; [exact Hp|].
    unfold Player.active in Hact.
    destruct (Player.isEliminated p), (Player.isSpectator p); try discriminate; auto.
  - intros Hne Hnone fuel.
    apply seatWalk_nobody; [|lia|exact Hnone].
    destruct (players sv); [congruence|simpl; lia].
Qed.

(** C6. [getNextPlayerIndex(offset)] walks the seats from the current one
    in direction order with wraparound, counts only the seats of
    non-eliminated, non-spectator players, and returns the seat on which
    that count reaches [offset] for the first time (for every offset the
    guard [count > len * 2] leaves alone, so for the offsets 1 and 2 the
    server uses). *)
Theorem getNextPlayerIndex_stops_at_offset_th_active (sv : MockGameServer.t)
    (offset : nat) :
  Exists (λ p, Player.active p = true) (players sv) →
  1 ≤ offset ≤ length (players sv) * 2 + 1 →
  ∃ k, 1 ≤ k
    ∧ getNextPlayerIndex offset sv
      = Ok (seatAfter (players sv) (GameState.direction (state sv))
              (GameState.currentPlayerIndex (state sv)) k)
    ∧ activeSeats (players sv) (GameState.direction (state sv))
        (GameState.currentPlayerIndex (state sv)) k = offset
    ∧ activeAt (players sv)
        (seatAfter (players sv) (GameState.direction (state sv))
           (GameState.currentPlayerIndex (state sv)) k) = true
    ∧ ∀ j, j < k →
        activeSeats (players sv) (GameState.direction (state sv))
          (GameState.currentPlayerIndex (state sv)) j < offset.
Proof.
  intros Hsome Hoff.
  pose proof (Exists_active_nonempty _ Hsome) as Hlen.
  destruct (seatWalk_exits (players sv) (GameState.direction (state sv)) Hlen Hsome
              (GameState.currentPlayerIndex (state sv)) offset)
    as (k & Hk & Hcount & Hmin & Hrun).
  rewrite Nat.min_l in Hcount, Hmin by lia.
  destruct (first_count_active (players sv) (GameState.direction (state sv)) Hlen
              (GameState.currentPlayerIndex (state sv)) k offset ltac:(lia) Hcount Hmin)
    as [Hpos Hact].
  exists k. split; [lia|].
  split.
  { unfold getNextPlayerIndex. rewrite Hrun by (apply seatWalkBound_ge, Hk).
    destruct k; [lia|reflexivity]. }
  auto.
Qed.

(** The example of C6: players [A, B, C], B eliminated, clockwise; one
    seat on from A is C. *)
Lemma getNextPlayerIndex_stops_at_offset_th_active_witness :
  Exists (λ p, Player.active p = true) (players tableABC)
  ∧ 1 ≤ 1 ≤ length (players tableABC) * 2 + 1
  ∧ getNextPlayerIndex 1 tableABC = Ok 2
  ∧ (Player.id <$> players tableABC !! 2) = Some "C"
  ∧ ∃ k, 1 ≤ k
    ∧ getNextPlayerIndex 1 tableABC
      = Ok (seatAfter (players tableABC) (GameState.direction (state tableABC))
              (GameState.currentPlayerIndex (state tableABC)) k)
    ∧ activeSeats (players tableABC) (GameState.direction (state tableABC))
        (GameState.currentPlayerIndex (state tableABC)) k = 1
    ∧ activeAt (players tableABC)
        (seatAfter (players tableABC) (GameState.direction (state tableABC))
           (GameState.currentPlayerIndex (state tableABC)) k) = true
    ∧ ∀ j, j < k →
        activeSeats (players tableABC) (GameState.direction (state tableABC))
          (GameState.currentPlayerIndex (state tableABC)) j < 1.
Proof.
  assert (H1 : Exists (λ p, Player.active p = true) (players tableABC))
    by (apply Exists_cons_hd; reflexivity).
  assert (H2 : 1 ≤ 1 ≤ length (players tableABC) * 2 + 1) by (simpl; lia).
  split; [exact H1|]. split; [exact H2|].
  split; [reflexivity|]. split; [reflexivity|].
  exact (getNextPlayerIndex_stops_at_offset_th_active tableABC 1 H1 H2).
Defined.

Lemma getNextPlayerIndex_terminates_on_active_witness :
  1 ≤ 1
  ∧ (Exists (λ p, Player.active p = true) (players tableABC) →
     ∃ i p,
       (∃ n, ∀ fuel, n ≤ fuel →
          seatWalk fuel (players tableABC) (GameState.direction (state tableABC)) 1
            (GameState.currentPlayerIndex (state tableABC)) 0 = Ok i)
       ∧ getNextPlayerIndex 1 tableABC = Ok i
       ∧ players tableABC !! i = Some p
       ∧ Player.isEliminated p = false ∧ Player.isSpectator p = false)
  ∧ (players tableABC ≠ [] →
     Forall (λ p, Player.active p = false) (players tableABC) →
     ∀ fuel,
       seatWalk fuel (players tableABC) (GameState.direction (state tableABC)) 1
         (GameState.currentPlayerIndex (state tableABC)) 0 = Diverges).
Proof.
  split; [lia|].
  exact (getNextPlayerIndex_terminates_on_active tableABC 1 ltac:(lia)).
Defined.

(** ** Move legality *)

(** C2. [isValidMove] returns true exactly when the card is black, or has
    the active colour, or has the type of the top card and, for a number
    card, its value too; it returns false for every other card. *)
Theorem isValidMove_true_iff (card topCard : Card.t) (activeColor : CardColor.t) :
  isValidMove card topCard activeColor = true
  ↔ Card.color card = CardColor.black
    ∨ Card.color card = activeColor
    ∨ (Card.type card = Card.type topCard
       ∧ (Card.type card = CardType.number → Card.value card = Card.value topCard)).
Proof.
  unfold isValidMove.
  repeat case_bool_decide; split; intros Hc; try discriminate; try reflexivity; auto.
  - destruct Hc as [?|[?|[? Hv]]]; try contradiction. exfalso; auto.
  - right. right. split; [assumption|]. intros; contradiction.
  - destruct Hc as [?|[?|[? ?]]]; contradiction.
Qed.

(** ** Rejected plays *)

Lemma findIndex_Some {A} (P : A → Prop) `{∀ x, Decision (P x)} (l : list A) i :
  findIndex P l = Some i → ∃ x, l !! i = Some x ∧ P x.
Proof.
  unfold findIndex. destruct (list_find P l) as [[j x]|] eqn:E; [|discriminate].
  intros [= <-]. apply list_find_Some in E as (? & ? & _). eauto.
Qed.

(** C5. A [playCard] whose [playerId] is not that of the turn-holder, or
    whose [cardId] the turn-holder does not hold, or whose card is illegal
    against the top of the discard pile and the active colour, returns
    with the server as it was: same session state (nothing drawn,
    discarded or logged), no broadcast, no error. *)
Theorem playCard_rejected_is_noop (sv : MockGameServer.t) (playerId cardId : string)
    (wildColor : option CardColor.t) :
  (∀ p, players sv !! GameState.currentPlayerIndex (state sv) = Some p →
        Player.id p ≠ playerId)
  ∨ (∃ p, players sv !! GameState.currentPlayerIndex (state sv) = Some p
          ∧ ∀ c, c ∈ Player.hand p → Card.id c ≠ cardId)
  ∨ (∃ p topCard,
       players sv !! GameState.currentPlayerIndex (state sv) = Some p
       ∧ last (GameState.discardPile (state sv)) = Some topCard
       ∧ ∀ c, c ∈ Player.hand p → Card.id c = cardId →
              isValidMove c topCard (GameState.currentColor (state sv)) = false) →
  playCard playerId cardId wildColor sv = Ok sv.
Proof.
  intros Hrej. unfold playCard.
  case_bool_decide as Hturn; [reflexivity|].
  apply findIndex_Some in Hturn as (q & Hq & Hid).
  unfold getPlayer, players in *. rewrite Hq. simpl.
  destruct (list_find (λ c, Card.id c = cardId) (Player.hand q))
    as [[cardIndex card]|] eqn:Hfind; [|reflexivity].
  apply list_find_Some in Hfind as (Hcard & Hcid & _).
  apply list_elem_of_lookup_2 in Hcard.
  destruct Hrej as [Hnot|[(p & Hp & Hnone)|(p & topCard & Hp & Htop & Hbad)]].
  - exfalso. exact (Hnot q Hq Hid).
  - rewrite Hq in Hp. injection Hp as <-. exfalso. exact (Hnone card Hcard Hcid).
  - rewrite Hq in Hp. injection Hp as <-.
    rewrite Htop. simpl. rewrite (Hbad card Hcard Hcid). reflexivity.
Qed.

(** ** Arrays and the shuffle *)

(** Permutations of concatenations, through the multiset order. *)
Ltac solve_perm := apply (anti_symm submseteq); solve_submseteq.

Lemma pop_snoc {A} (l : list A) x : pop (l ++ [x]) = Some (x, l).
Proof. unfold pop. rewrite reverse_snoc, reverse_involutive. reflexivity. Qed.

Lemma pop_Some {A} (l l' : list A) x : pop l = Some (x, l') → l = l' ++ [x].
Proof.
  destruct l as [|y l] using rev_ind; [discriminate|].
  rewrite pop_snoc. intros [= -> ->]. reflexivity.
Qed.

Lemma pop_None {A} (l : list A) : pop l = None → l = [].
Proof.
  destruct l as [|y l] using rev_ind; [reflexivity|].
  rewrite pop_snoc. discriminate.
Qed.

Lemma swap_Permutation {A} (l : list A) i j : swap l i j ≡ₚ l.
Proof.
  unfold swap.
  destruct (l !! i) as [x|] eqn:Hi; [|reflexivity].
  destruct (l !! j) as [y|] eqn:Hj; [|reflexivity].
  apply Permutation_insert_swap; assumption.
Qed.

Lemma shuffleLoop_Permutation {A} random i : ∀ k (l : list A),
  shuffleLoop random k i l ≡ₚ l.
Proof.
  induction i as [|i IH]; intros k l; simpl; [reflexivity|].
  rewrite IH. apply swap_Permutation.
Qed.

(** [shuffleDeck] returns a permutation of its argument. *)
Lemma shuffleDeck_Permutation {A} random k (deck : list A) :
  shuffleDeck random k deck ≡ₚ deck.
Proof. apply shuffleLoop_Permutation. Qed.

(** ** Drawing *)

Lemma push_hand_nil p : Player.push_hand [] p = p.
Proof. destruct p. unfold Player.push_hand, Player.set_hand. simpl. rewrite app_nil_r. reflexivity. Qed.

Lemma push_hand_app cs1 cs2 p :
  Player.push_hand cs2 (Player.push_hand cs1 p) = Player.push_hand (cs1 ++ cs2) p.
Proof. unfold Player.push_hand, Player.set_hand. simpl. rewrite app_assoc. reflexivity. Qed.

Lemma drawnBy_refl i sv : drawnBy i [] sv sv.
Proof.
  split; [|split; [|reflexivity]].
  - symmetry. apply list_alter_id. intros. apply push_hand_nil.
  - rewrite app_nil_r. reflexivity.
Qed.

Lemma refill_frame sv sv1 :
  refill sv = Some sv1 →
  players sv1 = players sv
  ∧ GameState.deck (state sv1) ++ GameState.discardPile (state sv1)
    ≡ₚ GameState.deck (state sv) ++ GameState.discardPile (state sv)
  ∧ outsideCards sv1 = outsideCards sv
  ∧ (GameState.deck (state sv) ≠ [] ∨ 2 ≤ length (GameState.discardPile (state sv)) →
     GameState.deck (state sv1) ≠ []).
Proof.
  unfold refill.
  destruct (GameState.deck (state sv)) as [|c deck] eqn:Hdeck.
  - destruct (pop (GameState.discardPile (state sv))) as [[top rest]|] eqn:Hpop;
      [|discriminate].
    intros [= <-]. apply pop_Some in Hpop. simpl.
    split; [reflexivity|]. split; [|split; [reflexivity|]].
    + rewrite Hpop, shuffleDeck_Permutation. reflexivity.
    + intros [?|Hlen]; [congruence|].
      rewrite Hpop, length_app in Hlen. simpl in Hlen.
      intros Hnil. apply (f_equal length) in Hnil.
      rewrite (Permutation_length (shuffleDeck_Permutation _ _ rest)) in Hnil.
      simpl in Hnil. lia.
  - intros [= <-]. rewrite Hdeck. split; [reflexivity|]. split; [reflexivity|].
    split; [reflexivity|]. intros _. discriminate.
Qed.

(** [drawCards] on a seat of the roster returns; the seat gets what left
    the deck, at most [count] cards and at least one when there was a card
    to draw. *)
Lemma drawCards_frame i count : ∀ sv,
  i < length (players sv) →
  ∃ sv' drawn,
    drawCards i count sv = Ok sv'
    ∧ drawnBy i drawn sv sv'
    ∧ length drawn ≤ count
    ∧ (0 < count →
       GameState.deck (state sv) ≠ [] ∨ 2 ≤ length (GameState.discardPile (state sv)) →
       0 < length drawn).
Proof.
  induction count as [|count IH]; intros sv Hi; simpl.
  - exists sv, []. split; [reflexivity|]. split; [apply drawnBy_refl|].
    split; [simpl; lia|]. lia.
  - destruct (refill sv) as [sv1|] eqn:Hrefill.
    + destruct (refill_frame _ _ Hrefill) as (Hps1 & Hperm1 & Hout1 & Hne1).
      destruct (pop (GameState.deck (state sv1))) as [[card deck']|] eqn:Hpop.
      * apply pop_Some in Hpop.
        unfold getPlayer. rewrite Hps1.
        destruct (lookup_lt_is_Some_2 _ _ Hi) as [p Hp]. rewrite Hp. simpl.
        set (sv2 := upd (GameState.set_deck deck')
                      (updPlayer i (Player.push_hand [card]) sv1)).
        destruct (IH sv2) as (sv' & drawn & Hrun & (Hps & Hperm & Hout) & Hlen & _).
        { unfold sv2, players. simpl. rewrite length_alter. fold (players sv1).
          rewrite Hps1. exact Hi. }
        exists sv', (card :: drawn). split; [exact Hrun|]. split; [|simpl; lia].
        split; [|split].
        -- rewrite Hps. unfold sv2, players. simpl. fold (players sv1). rewrite Hps1.
           rewrite list_alter_alter_eq. apply list_alter_ext; [|reflexivity].
           intros. apply push_hand_app.
        -- rewrite <- Hperm1, Hpop. unfold sv2 in Hperm. simpl in Hperm.
           transitivity
             (card :: GameState.deck (state sv')
                        ++ GameState.discardPile (state sv') ++ drawn).
           { rewrite !app_assoc. symmetry. apply Permutation_middle. }
           rewrite Hperm, <- app_assoc. simpl. apply Permutation_middle.
        -- rewrite Hout. unfold sv2. simpl. exact Hout1.
      * apply pop_None in Hpop.
        destruct (IH sv1) as (sv' & drawn & Hrun & (Hps & Hperm & Hout) & Hlen & _).
        { rewrite Hps1. exact Hi. }
        exists sv', drawn. split; [exact Hrun|]. split; [|split; [lia|]].
        -- split; [|split].
           ++ rewrite Hps, Hps1. reflexivity.
           ++ rewrite Hperm. exact Hperm1.
           ++ rewrite Hout. exact Hout1.
        -- intros _ Hcards. exfalso. exact (Hne1 Hcards Hpop).
    + exists sv, []. split; [reflexivity|]. split; [apply drawnBy_refl|].
      split; [simpl; lia|]. intros _ Hcards.
      unfold refill in Hrefill.
      destruct (GameState.deck (state sv)); [|discriminate].
      destruct (pop (GameState.discardPile (state sv))) as [[??]|] eqn:Hpop;
        [discriminate|].
      apply pop_None in Hpop. rewrite Hpop in Hcards. simpl in Hcards.
      destruct Hcards; [congruence|lia].
Qed.

(** ** The stages of an accepted play *)

Lemma fmap_alter_fixed {A B} (g : A → B) (f : A → A) i (l : list A) :
  (∀ x, g (f x) = g x) → g <$> alter f i l = g <$> l.
Proof.
  intros Hfix. revert i. induction l as [|x l IH]; intros [|i]; simpl; try reflexivity.
  - rewrite Hfix. reflexivity.
  - f_equal. apply IH.
Qed.

Lemma seatWalk_ext fuel (ps ps' : list Player.t) d offset : ∀ x c,
  Player.active <$> ps = Player.active <$> ps' →
  seatWalk fuel ps d offset x c = seatWalk fuel ps' d offset x c.
Proof.
  induction fuel as [|fuel IH]; intros x c Heq; simpl; [reflexivity|].
  assert (Hlen : length ps = length ps').
  { rewrite <- (length_fmap Player.active ps), Heq, length_fmap. reflexivity. }
  rewrite Hlen.
  assert (Hlook : ∀ i, Player.active <$> ps !! i = Player.active <$> ps' !! i).
  { intros i. rewrite <- !list_lookup_fmap, Heq. reflexivity. }
  specialize (Hlook (stepSeat (length ps') d x)).
  destruct (ps !! stepSeat (length ps') d x), (ps' !! stepSeat (length ps') d x);
    simpl in Hlook; try discriminate; [|reflexivity].
  injection Hlook as ->.
  rewrite IH by exact Heq. reflexivity.
Qed.

Lemma getNextPlayerIndex_ext offset sv sv' :
  Player.active <$> players sv = Player.active <$> players sv' →
  GameState.direction (state sv) = GameState.direction (state sv') →
  GameState.currentPlayerIndex (state sv) = GameState.currentPlayerIndex (state sv') →
  getNextPlayerIndex offset sv = getNextPlayerIndex offset sv'.
Proof.
  intros Hact Hd Hc. unfold getNextPlayerIndex, seatWalkBound.
  rewrite Hd, Hc.
  assert (Hlen : length (players sv) = length (players sv')).
  { rewrite <- (length_fmap Player.active (players sv)), Hact, length_fmap. reflexivity. }
  rewrite Hlen. apply seatWalk_ext. exact Hact.
Qed.

(** [getNextPlayerIndex] reports a walk that never ends only when there is
    one: no amount of fuel lets the loop exit. *)
Lemma getNextPlayerIndex_Diverges offset sv :
  getNextPlayerIndex offset sv = Diverges →
  ∀ fuel,
    seatWalk fuel (players sv) (GameState.direction (state sv)) offset
      (GameState.currentPlayerIndex (state sv)) 0 = Diverges.
Proof.
  intros Hdiv fuel. unfold getNextPlayerIndex in Hdiv.
  destruct offset as [|offset]; [discriminate|].
  destruct (decide (Exists (λ p, Player.active p = true) (players sv)))
    as [Hsome|Hnone].
  - exfalso.
    pose proof (Exists_active_nonempty _ Hsome) as Hlen.
    destruct (seatWalk_exits (players sv) (GameState.direction (state sv)) Hlen Hsome
                (GameState.currentPlayerIndex (state sv)) (S offset))
      as (k & Hk & _ & _ & Hrun).
    rewrite Hrun in Hdiv by (apply seatWalkBound_ge, Hk). discriminate.
  - destruct (players sv) as [|p ps] eqn:Hps; [discriminate|].
    apply seatWalk_nobody; [simpl; lia|lia|].
    apply Forall_Exists_neg in Hnone. eapply Forall_impl; [exact Hnone|].
    intros q Hq. simpl in Hq. destruct (Player.active q); congruence.
Qed.

(** What the proof of C10 gives, for the other operations to use. *)
Lemma getNextPlayerIndex_Ok offset sv :
  1 ≤ offset →
  Exists (λ p, Player.active p = true) (players sv) →
  ∃ i p, getNextPlayerIndex offset sv = Ok i
         ∧ players sv !! i = Some p ∧ Player.active p = true.
Proof.
  intros Hoff Hsome.
  pose proof (Exists_active_nonempty _ Hsome) as Hlen.
  destruct (seatWalk_exits (players sv) (GameState.direction (state sv)) Hlen Hsome
              (GameState.currentPlayerIndex (state sv)) offset)
    as (k & Hk & Hcount & Hmin & Hrun).
  destruct (first_count_active (players sv) (GameState.direction (state sv)) Hlen
              (GameState.currentPlayerIndex (state sv)) k
              (offset `min` (length (players sv) * 2 + 1)) ltac:(lia) Hcount Hmin)
    as [Hpos Hact].
  destruct k as [|k]; [lia|]. simpl walked in Hrun.
  unfold activeAt in Hact.
  destruct (players sv !! seatAfter (players sv) (GameState.direction (state sv))
              (GameState.currentPlayerIndex (state sv)) (S k)) as [p|] eqn:Hp;
    [|discriminate].
  eexists _, p. split; [apply Hrun, seatWalkBound_ge, Hk|]. split; assumption.
Qed.

Lemma Exists_active_fmap (ps ps' : list Player.t) :
  Player.active <$> ps = Player.active <$> ps' →
  Exists (λ p, Player.active p = true) ps →
  Exists (λ p, Player.active p = true) ps'.
Proof.
  revert ps'. induction ps as [|p ps IH]; intros [|p' ps'] Heq Hex;
    simpl in Heq; try discriminate.
  - inversion Hex.
  - injection Heq as Hp Hps.
    apply Exists_cons in Hex as [Hp'|Hrest].
    + apply Exists_cons_hd. congruence.
    + apply Exists_cons_tl. eauto.
Qed.

Lemma afterPlay_active cardIndex penalty p :
  Player.active (afterPlay cardIndex penalty p) = Player.active p.
Proof. unfold afterPlay. destruct (1 <? _); reflexivity. Qed.

Lemma afterPlay_hand cardIndex penalty p :
  Player.hand (afterPlay cardIndex penalty p)
  = delete cardIndex (Player.hand p) ++ penalty.
Proof. unfold afterPlay. destruct (1 <? _); reflexivity. Qed.

(** The play up to the colour change: the card moves to the discard pile,
    the forgotten-Uno penalty is drawn, the flag is reset. *)
Lemma play_until_color cur cardIndex card player sv :
  players sv !! cur = Some player →
  ∃ sv3 penalty,
    (sv2 ←! unoPenalty cur (moveToDiscard cur cardIndex card sv);
     resetUno cur sv2) = Ok sv3
    ∧ players sv3 = alter (afterPlay cardIndex penalty) cur (players sv)
    ∧ GameState.deck (state sv3) ++ GameState.discardPile (state sv3) ++ penalty
      ≡ₚ GameState.deck (state sv) ++ GameState.discardPile (state sv) ++ [card]
    ∧ outsideCards sv3
      = outsideCards
          (if forgotUno player cardIndex
           then upd (GameState.push_log
                       (Player.name player +:+ " forgot UNO! +1 Card Penalty.")) sv
           else sv)
    ∧ (if forgotUno player cardIndex
       then length penalty ≤ 1
            ∧ (GameState.deck (state sv) ≠ [] ∨ GameState.discardPile (state sv) ≠ [] →
               length penalty = 1)
       else penalty = []).
Proof.
  intros Hplayer.
  set (sv1 := moveToDiscard cur cardIndex card sv).
  set (p1 := Player.set_hand (delete cardIndex (Player.hand player)) player).
  assert (Hp1 : players sv1 !! cur = Some p1).
  { unfold sv1, moveToDiscard, players. simpl. fold (players sv).
    rewrite list_lookup_alter_eq, Hplayer. reflexivity. }
  assert (Hi : cur < length (players sv1)) by (eapply lookup_lt_Some; eauto).
  (* the penalty *)
  assert (Hpen : ∃ sv2 penalty,
    unoPenalty cur sv1 = Ok sv2
    ∧ drawnBy cur penalty
        (if forgotUno player cardIndex
         then upd (GameState.push_log
                     (Player.name player +:+ " forgot UNO! +1 Card Penalty.")) sv1
         else sv1) sv2
    ∧ (if forgotUno player cardIndex
       then length penalty ≤ 1
            ∧ (GameState.deck (state sv) ≠ [] ∨ GameState.discardPile (state sv) ≠ [] →
               length penalty = 1)
       else penalty = [])).
  { unfold unoPenalty, getPlayer. rewrite Hp1. simpl.
    change ((length (delete cardIndex (Player.hand player)) =? 1)
            && negb (Player.hasCalledUno player)) with (forgotUno player cardIndex).
    destruct (forgotUno player cardIndex).
    - destruct (drawCards_frame cur 1
                  (upd (GameState.push_log
                          (Player.name player +:+ " forgot UNO! +1 Card Penalty.")) sv1)
                  Hi) as (sv2 & drawn & Hrun & Hframe & Hlen & Hpos).
      exists sv2, drawn. split; [exact Hrun|]. split; [exact Hframe|].
      split; [exact Hlen|]. intros Hcards.
      assert (0 < length drawn); [|lia].
      apply Hpos; [lia|]. simpl. rewrite length_app. simpl.
      destruct Hcards as [?|Hd]; [left; assumption|right].
      destruct (GameState.discardPile (state sv)); [congruence|simpl; lia].
    - exists sv1, []. split; [reflexivity|]. split; [apply drawnBy_refl|reflexivity]. }
  destruct Hpen as (sv2 & penalty & Hrun2 & (Hps2 & Hperm2 & Hout2) & Hpenalty).
  rewrite Hrun2. simpl.
  assert (Hps2' : players sv2
                  = alter (Player.push_hand penalty ∘
                           (λ p, Player.set_hand (delete cardIndex (Player.hand p)) p))
                      cur (players sv)).
  { rewrite Hps2. destruct (forgotUno player cardIndex);
      unfold sv1, moveToDiscard, players; simpl; apply list_alter_alter_eq. }
  assert (Hp2 : players sv2 !! cur = Some (Player.push_hand penalty p1)).
  { rewrite Hps2', list_lookup_alter_eq, Hplayer. reflexivity. }
  unfold resetUno, getPlayer. rewrite Hp2. simpl.
  exists (if 1 <? length (delete cardIndex (Player.hand player) ++ penalty)
          then updPlayer cur (Player.set_hasCalledUno false) sv2 else sv2), penalty.
  split; [destruct (1 <? _); reflexivity|].
  split; [|split; [|split; [|exact Hpenalty]]].
  - transitivity
      (alter (λ p, if 1 <? length (delete cardIndex (Player.hand player) ++ penalty)
                   then Player.set_hasCalledUno false p else p) cur (players sv2)).
    { destruct (1 <? _); [reflexivity|]. symmetry. apply list_alter_id. reflexivity. }
    rewrite Hps2', list_alter_alter_eq. apply list_alter_ext; [|reflexivity].
    intros x Hx. rewrite Hplayer in Hx. injection Hx as <-.
    unfold afterPlay. simpl. destruct (1 <? _); reflexivity.
  - transitivity (GameState.deck (state sv2) ++ GameState.discardPile (state sv2)
                    ++ penalty).
    { destruct (1 <? _); reflexivity. }
    rewrite Hperm2. destruct (forgotUno player cardIndex); reflexivity.
  - transitivity (outsideCards sv2); [destruct (1 <? _); reflexivity|].
    rewrite Hout2. destruct (forgotUno player cardIndex); reflexivity.
Qed.

Lemma activeCount_ext (ps ps' : list Player.t) :
  Player.active <$> ps = Player.active <$> ps' →
  length (filter (λ p, Player.active p = true) ps)
  = length (filter (λ p, Player.active p = true) ps').
Proof.
  revert ps'. induction ps as [|p ps IH]; intros [|p' ps'] Heq;
    simpl in Heq; try discriminate; [reflexivity|].
  injection Heq as Hp Hps. rewrite !filter_cons, Hp.
  destruct (decide (Player.active p' = true)); simpl; rewrite (IH ps' Hps); reflexivity.
Qed.

Lemma alter_push_hand_nil i (ps : list Player.t) : alter (Player.push_hand []) i ps = ps.
Proof. apply list_alter_id. intros. apply push_hand_nil. Qed.

(** The side effect of the card, with the number of cards it makes the
    next seat draw. *)
Lemma cardEffect_frame_drawn card sv4 :
  (makesNextDraw card = true → Exists (λ p, Player.active p = true) (players sv4)) →
  ∃ sv5 nextP extra,
    cardEffect card sv4 = Ok (nextOffsetOf card (length (activePlayers sv4)), sv5)
    ∧ players sv5 = alter (Player.push_hand extra) nextP (players sv4)
    ∧ GameState.deck (state sv5) ++ GameState.discardPile (state sv5) ++ extra
      ≡ₚ GameState.deck (state sv4) ++ GameState.discardPile (state sv4)
    ∧ outsideCards sv5
      = outsideCards
          (if flipsDirection card (length (activePlayers sv4))
           then upd (λ g, GameState.set_direction
                            (Direction.flip (GameState.direction g)) g) sv4
           else sv4)
    ∧ (if makesNextDraw card
       then ∃ p, getNextPlayerIndex 1 sv4 = Ok nextP
                 ∧ players sv4 !! nextP = Some p ∧ Player.active p = true
       else extra = [])
    ∧ length extra ≤ drawCount card.
Proof.
  intros Hsome.
  assert (Hdraw : ∀ n, makesNextDraw card = true →
    ∃ sv5 nextP extra,
      (nextP ←! getNextPlayerIndex 1 sv4; sv ←! drawCards nextP n sv4; Ok (2, sv))
      = Ok (2, sv5)
      ∧ players sv5 = alter (Player.push_hand extra) nextP (players sv4)
      ∧ GameState.deck (state sv5) ++ GameState.discardPile (state sv5) ++ extra
        ≡ₚ GameState.deck (state sv4) ++ GameState.discardPile (state sv4)
      ∧ outsideCards sv5 = outsideCards sv4
      ∧ (∃ p, getNextPlayerIndex 1 sv4 = Ok nextP
              ∧ players sv4 !! nextP = Some p ∧ Player.active p = true)
      ∧ length extra ≤ n).
  { intros n Hd.
    destruct (getNextPlayerIndex_Ok 1 sv4 ltac:(lia) (Hsome Hd)) as (i & p & Hi & Hp & Ha).
    destruct (drawCards_frame i n sv4 (lookup_lt_Some _ _ _ Hp))
      as (sv5 & extra & Hrun & (Hps & Hperm & Hout) & Hmost & _).
    exists sv5, i, extra. rewrite Hi. simpl. rewrite Hrun. simpl. eauto 10. }
  unfold cardEffect, nextOffsetOf, flipsDirection, makesNextDraw, drawCount in *.
  destruct (Card.type card); simpl in *.
  - exists sv4, 0, []. rewrite alter_push_hand_nil, app_nil_r. auto 10.
  - exists sv4, 0, []. rewrite alter_push_hand_nil, app_nil_r. auto 10.
  - destruct (length (activePlayers sv4) =? 2); simpl.
    + exists sv4, 0, []. rewrite alter_push_hand_nil, app_nil_r. auto 10.
    + eexists _, 0, []. split; [reflexivity|].
      rewrite alter_push_hand_nil, app_nil_r. auto 10.
  - destruct (Hdraw 2 eq_refl) as (sv5 & nextP & extra & H1 & H2 & H3 & H4 & H5 & H6).
    exists sv5, nextP, extra. auto 10.
  - exists sv4, 0, []. rewrite alter_push_hand_nil, app_nil_r. auto 10.
  - destruct (Hdraw 4 eq_refl) as (sv5 & nextP & extra & H1 & H2 & H3 & H4 & H5 & H6).
    exists sv5, nextP, extra. auto 10.
Qed.

(** The side effect of the card. *)
Lemma cardEffect_frame card sv4 :
  (makesNextDraw card = true → Exists (λ p, Player.active p = true) (players sv4)) →
  ∃ sv5 nextP extra,
    cardEffect card sv4 = Ok (nextOffsetOf card (length (activePlayers sv4)), sv5)
    ∧ players sv5 = alter (Player.push_hand extra) nextP (players sv4)
    ∧ GameState.deck (state sv5) ++ GameState.discardPile (state sv5) ++ extra
      ≡ₚ GameState.deck (state sv4) ++ GameState.discardPile (state sv4)
    ∧ outsideCards sv5
      = outsideCards
          (if flipsDirection card (length (activePlayers sv4))
           then upd (λ g, GameState.set_direction
                            (Direction.flip (GameState.direction g)) g) sv4
           else sv4)
    ∧ (if makesNextDraw card
       then ∃ p, getNextPlayerIndex 1 sv4 = Ok nextP
                 ∧ players sv4 !! nextP = Some p ∧ Player.active p = true
       else extra = []).
Proof.
  intros Hsome.
  destruct (cardEffect_frame_drawn card sv4 Hsome)
    as (sv5 & nextP & extra & H1 & H2 & H3 & H4 & H5 & _).
  exists sv5, nextP, extra. auto.
Qed.

(** An accepted play up to its last step: who holds what, where the
    cards are and what else has changed when [finishPlay] is entered, with
    the number of cards the card played has made the next seat draw. *)
Lemma applyPlay_effects_drawn cur cardIndex card wildColor player sv :
  players sv !! cur = Some player →
  (makesNextDraw card = true → Exists (λ p, Player.active p = true) (players sv)) →
  ∃ sv5 penalty nextP extra,
    applyPlay cur cardIndex card wildColor sv
    = finishPlay cur (nextOffsetOf card (length (activePlayers sv))) sv5
    ∧ players sv5
      = alter (Player.push_hand extra) nextP
          (alter (afterPlay cardIndex penalty) cur (players sv))
    ∧ GameState.deck (state sv5) ++ GameState.discardPile (state sv5)
        ++ penalty ++ extra
      ≡ₚ GameState.deck (state sv) ++ GameState.discardPile (state sv) ++ [card]
    ∧ outsideCards sv5
      = outsideCards
          ((if flipsDirection card (length (activePlayers sv))
            then upd (λ g, GameState.set_direction
                             (Direction.flip (GameState.direction g)) g)
            else λ sv, sv)
             (setColor card wildColor
                (if forgotUno player cardIndex
                 then upd (GameState.push_log
                             (Player.name player +:+ " forgot UNO! +1 Card Penalty.")) sv
                 else sv)))
    ∧ (if forgotUno player cardIndex
       then length penalty ≤ 1
            ∧ (GameState.deck (state sv) ≠ [] ∨ GameState.discardPile (state sv) ≠ [] →
               length penalty = 1)
       else penalty = [])
    ∧ (if makesNextDraw card
       then ∃ p, players sv !! nextP = Some p ∧ Player.active p = true
                 ∧ getNextPlayerIndex 1 sv = Ok nextP
       else extra = [])
    ∧ length extra ≤ drawCount card.
Proof.
  intros Hplayer Hsome.
  destruct (play_until_color cur cardIndex card player sv Hplayer)
    as (sv3 & penalty & Hrun3 & Hps3 & Hperm3 & Hout3 & Hpenalty).
  assert (Hact3 : Player.active <$> players sv3 = Player.active <$> players sv).
  { rewrite Hps3. apply fmap_alter_fixed. intros. apply afterPlay_active. }
  set (sv4 := setColor card wildColor sv3).
  assert (Hact4 : Player.active <$> players sv4 = Player.active <$> players sv)
    by exact Hact3.
  assert (Hcount : length (activePlayers sv4) = length (activePlayers sv))
    by (apply activeCount_ext, Hact4).
  destruct (cardEffect_frame_drawn card sv4)
    as (sv5 & nextP & extra & Hrun5 & Hps5 & Hperm5 & Hout5 & Hextra & Hmost).
  { intros Hd. eapply Exists_active_fmap; [symmetry; exact Hact4|auto]. }
  exists sv5, penalty, nextP, extra.
  split; [|split; [|split; [|split; [|split; [exact Hpenalty|split; [|exact Hmost]]]]]].
  - unfold applyPlay.
    destruct (unoPenalty cur (moveToDiscard cur cardIndex card sv)) as [sv2| |];
      simpl in Hrun3; try discriminate.
    simpl. rewrite Hrun3. simpl. fold sv4. rewrite Hrun5. simpl.
    rewrite Hcount. reflexivity.
  - rewrite Hps5. unfold sv4, setColor, players. simpl. fold (players sv3).
    rewrite Hps3. reflexivity.
  - rewrite <- Hperm3.
    transitivity ((GameState.deck (state sv5) ++ GameState.discardPile (state sv5)
                   ++ extra) ++ penalty).
    { rewrite <- !app_assoc. do 2 apply Permutation_app_head.
      apply Permutation_app_comm. }
    rewrite Hperm5. unfold sv4. simpl. rewrite <- !app_assoc. reflexivity.
  - rewrite Hout5, Hcount.
    assert (Hout4 : ∀ f : MockGameServer.t → MockGameServer.t,
              (∀ a b, outsideCards a = outsideCards b →
                      outsideCards (f a) = outsideCards (f b)) →
              outsideCards (f sv4)
              = outsideCards
                  (f (setColor card wildColor
                        (if forgotUno player cardIndex
                         then upd (GameState.push_log
                                     (Player.name player
                                      +:+ " forgot UNO! +1 Card Penalty.")) sv
                         else sv)))).
    { intros f Hf. apply Hf. unfold sv4, outsideCards, setColor in *. simpl in *.
      destruct (forgotUno player cardIndex); simpl in *; congruence. }
    destruct (flipsDirection card (length (activePlayers sv))).
    + apply (Hout4 (upd (λ g, GameState.set_direction
                                (Direction.flip (GameState.direction g)) g))).
      intros a b Hab. unfold outsideCards in *. simpl. congruence.
    + apply (Hout4 (λ sv, sv)). auto.
  - destruct (makesNextDraw card); [|exact Hextra].
    destruct Hextra as (p & Hnext & Hp & Ha).
    assert (Hnext' : getNextPlayerIndex 1 sv = Ok nextP).
    { rewrite <- Hnext. symmetry. apply getNextPlayerIndex_ext.
      - exact Hact4.
      - unfold sv4, outsideCards in *. simpl in *.
        destruct (forgotUno player cardIndex); simpl in *; congruence.
      - unfold sv4, outsideCards in *. simpl in *.
        destruct (forgotUno player cardIndex); simpl in *; congruence. }
    assert (Hlook : Player.active <$> players sv !! nextP = Some true).
    { rewrite <- list_lookup_fmap, <- Hact4, list_lookup_fmap, Hp. simpl. congruence. }
    destruct (players sv !! nextP) as [q|]; [|discriminate].
    exists q. simpl in Hlook. split; [reflexivity|]. split; [congruence|exact Hnext'].
Qed.

(** An accepted play up to its last step: who holds what, where the
    cards are and what else has changed when [finishPlay] is entered. *)
Lemma applyPlay_effects cur cardIndex card wildColor player sv :
  players sv !! cur = Some player →
  (makesNextDraw card = true → Exists (λ p, Player.active p = true) (players sv)) →
  ∃ sv5 penalty nextP extra,
    applyPlay cur cardIndex card wildColor sv
    = finishPlay cur (nextOffsetOf card (length (activePlayers sv))) sv5
    ∧ players sv5
      = alter (Player.push_hand extra) nextP
          (alter (afterPlay cardIndex penalty) cur (players sv))
    ∧ GameState.deck (state sv5) ++ GameState.discardPile (state sv5)
        ++ penalty ++ extra
      ≡ₚ GameState.deck (state sv) ++ GameState.discardPile (state sv) ++ [card]
    ∧ outsideCards sv5
      = outsideCards
          ((if flipsDirection card (length (activePlayers sv))
            then upd (λ g, GameState.set_direction
                             (Direction.flip (GameState.direction g)) g)
            else λ sv, sv)
             (setColor card wildColor
                (if forgotUno player cardIndex
                 then upd (GameState.push_log
                             (Player.name player +:+ " forgot UNO! +1 Card Penalty.")) sv
                 else sv)))
    ∧ (if forgotUno player cardIndex
       then length penalty ≤ 1
            ∧ (GameState.deck (state sv) ≠ [] ∨ GameState.discardPile (state sv) ≠ [] →
               length penalty = 1)
       else penalty = [])
    ∧ (if makesNextDraw card
       then ∃ p, players sv !! nextP = Some p ∧ Player.active p = true
                 ∧ getNextPlayerIndex 1 sv = Ok nextP
       else extra = []).
Proof.
  intros Hplayer Hsome.
  destruct (applyPlay_effects_drawn cur cardIndex card wildColor player sv Hplayer Hsome)
    as (sv5 & penalty & nextP & extra & H1 & H2 & H3 & H4 & H5 & H6 & _).
  exists sv5, penalty, nextP, extra. auto 10.
Qed.

Lemma nextOffsetOf_pos card n : 1 ≤ nextOffsetOf card n.
Proof. unfold nextOffsetOf. destruct (Card.type card); try lia. destruct (n =? 2); lia. Qed.

Lemma playCard_accepted sv playerId cardId wildColor player cardIndex card :
  accepted sv playerId cardId player cardIndex card →
  playCard playerId cardId wildColor sv
  = applyPlay (GameState.currentPlayerIndex (state sv)) cardIndex card wildColor sv.
Proof.
  intros (Hturn & Hplayer & Hcard & Hvalid). unfold playCard.
  rewrite Hturn. rewrite bool_decide_eq_false_2 by auto.
  unfold getPlayer, players. rewrite Hplayer. simpl. rewrite Hcard, Hvalid. reflexivity.
Qed.

(** The turn advance that ends a play from a hand that still holds a card. *)
Lemma finishPlay_advance cur n sv5 p5 :
  players sv5 !! cur = Some p5 →
  Player.hand p5 ≠ [] →
  1 ≤ n →
  Exists (λ p, Player.active p = true) (players sv5) →
  ∃ i q,
    getNextPlayerIndex n sv5 = Ok i
    ∧ players sv5 !! i = Some q ∧ Player.active q = true
    ∧ finishPlay cur n sv5
      = Ok (notify (upd (GameState.set_currentPlayerIndex i) (startTurnTimer sv5))).
Proof.
  intros Hp Hhand Hn Hsome.
  destruct (getNextPlayerIndex_Ok n sv5 Hn Hsome) as (i & q & Hi & Hq & Ha).
  exists i, q. split; [exact Hi|]. split; [exact Hq|]. split; [exact Ha|].
  unfold finishPlay, getPlayer. rewrite Hp. simpl.
  destruct (Player.hand p5) eqn:E; [congruence|]. simpl.
  unfold advanceTurn.
  change (getNextPlayerIndex n (startTurnTimer sv5)) with (getNextPlayerIndex n sv5).
  rewrite Hi. reflexivity.
Qed.

(** The acting player's seat when [finishPlay] is entered. *)
Lemma acting_player_after cur cardIndex penalty nextP extra player (ps : list Player.t) :
  ps !! cur = Some player →
  ∃ p5 mine,
    alter (Player.push_hand extra) nextP (alter (afterPlay cardIndex penalty) cur ps)
      !! cur = Some p5
    ∧ Player.hand p5 = delete cardIndex (Player.hand player) ++ penalty ++ mine
    ∧ Player.hasCalledUno p5
      = (if 1 <? length (delete cardIndex (Player.hand player) ++ penalty)
         then false else Player.hasCalledUno player)
    ∧ (mine = [] ∨ (mine = extra ∧ nextP = cur)).
Proof.
  intros Hp.
  assert (Hflag : Player.hasCalledUno (afterPlay cardIndex penalty player)
                  = (if 1 <? length (delete cardIndex (Player.hand player) ++ penalty)
                     then false else Player.hasCalledUno player)).
  { unfold afterPlay. simpl. destruct (1 <? _); reflexivity. }
  destruct (decide (nextP = cur)) as [->|Hne].
  - exists (Player.push_hand extra (afterPlay cardIndex penalty player)), extra.
    rewrite !list_lookup_alter_eq, Hp. simpl.
    rewrite afterPlay_hand, <- app_assoc. repeat split; auto.
  - exists (afterPlay cardIndex penalty player), [].
    rewrite list_lookup_alter_ne, list_lookup_alter_eq, Hp by exact Hne. simpl.
    rewrite afterPlay_hand, app_nil_r. repeat split; auto.
Qed.

(** With two active players or more, the seat after the current one is
    another seat. *)
Lemma next_seat_is_other sv p i :
  players sv !! GameState.currentPlayerIndex (state sv) = Some p →
  2 ≤ length (activePlayers sv) →
  getNextPlayerIndex 1 sv = Ok i →
  i ≠ GameState.currentPlayerIndex (state sv).
Proof.
  intros Hp Htwo Hnext. unfold getNextPlayerIndex in Hnext.
  set (ps := players sv) in *. set (d := GameState.direction (state sv)) in *.
  set (cur := GameState.currentPlayerIndex (state sv)) in *.
  assert (Hcur : cur < length ps) by (eapply lookup_lt_Some; eauto).
  assert (Hlen : 0 < length ps) by lia.
  assert (Hsome : Exists (λ p, Player.active p = true) ps).
  { unfold activePlayers in Htwo. fold ps in Htwo.
    destruct (filter (λ p, Player.active p = true) ps) as [|x l] eqn:Hf;
      [simpl in Htwo; lia|].
    assert (Hx : x ∈ filter (λ p, Player.active p = true) ps)
      by (rewrite Hf; apply elem_of_cons; auto).
    apply list_elem_of_filter in Hx as [Hax Hx].
    apply Exists_exists. eauto. }
  destruct (seatWalk_exits ps d Hlen Hsome cur 1) as (k & Hk & Hcount & Hmin & Hrun).
  rewrite Hrun in Hnext by (apply seatWalkBound_ge, Hk).
  injection Hnext as <-.
  rewrite Nat.min_l in Hcount, Hmin by lia.
  pose proof (activeSeats_cycle ps d Hlen cur) as Hcycle.
  unfold activePlayers in Htwo. fold ps in Htwo.
  destruct k as [|k]; [simpl in Hcount; lia|]. simpl.
  intros Hback.
  destruct (decide (S k ≤ length ps)) as [Hle|Hgt].
  - assert (Hk' : S k = length ps).
    { apply (seatAfter_inj ps d Hlen cur); [lia|lia|].
      rewrite Hback. symmetry. apply seatAfter_cycle_home; assumption. }
    rewrite Hk' in Hcount. lia.
  - specialize (Hmin (length ps) ltac:(lia)). lia.
Qed.

(** ** The forgotten-Uno penalty *)

(** C3. An accepted play that leaves the acting player one card while the
    player has not called Uno draws the penalty in the same call: at most
    one card, and exactly one whenever the deck or the discard pile held a
    card. The hand ends as the remaining card, then the penalty card, then
    the cards [extra] of the card played; these are none at a table of
    two or more active players, where the hand is the remaining card and
    the penalty card and nothing else, and otherwise they are the two or
    four cards of a draw card whose next seat is the acting seat itself.
    The empty-hand test comes after the penalty, so the call does not
    resolve the round: status and winner stay, the turn moves on. *)
Theorem playCard_penalises_forgotten_uno (sv : MockGameServer.t)
    (playerId cardId : string) (wildColor : option CardColor.t)
    (player : Player.t) (cardIndex : nat) (card : Card.t) :
  accepted sv playerId cardId player cardIndex card →
  length (delete cardIndex (Player.hand player)) = 1 →
  Player.hasCalledUno player = false →
  Exists (λ p, Player.active p = true) (players sv) →
  ∃ sv' player' penalty extra,
    playCard playerId cardId wildColor sv = Ok sv'
    ∧ players sv' !! GameState.currentPlayerIndex (state sv) = Some player'
    ∧ Player.hand player' = delete cardIndex (Player.hand player) ++ penalty ++ extra
    ∧ length penalty ≤ 1
    ∧ (GameState.deck (state sv) ≠ [] ∨ GameState.discardPile (state sv) ≠ [] →
       length penalty = 1)
    ∧ length extra ≤ drawCount card
    ∧ (extra ≠ [] →
       getNextPlayerIndex 1 sv = Ok (GameState.currentPlayerIndex (state sv)))
    ∧ (2 ≤ length (activePlayers sv) →
       extra = []
       ∧ length (Player.hand player') = 1 + length penalty)
    ∧ GameState.log (state sv')
      = GameState.log (state sv)
        ++ [Player.name player +:+ " forgot UNO! +1 Card Penalty."]
    ∧ GameState.status (state sv') = GameState.status (state sv)
    ∧ GameState.winner (state sv') = GameState.winner (state sv)
    ∧ getNextPlayerIndex
        (nextOffsetOf card (length (activePlayers sv)))
        (if flipsDirection card (length (activePlayers sv))
         then upd (λ g, GameState.set_direction
                          (Direction.flip (GameState.direction g)) g) sv
         else sv)
      = Ok (GameState.currentPlayerIndex (state sv')).
Proof.
  intros Hacc Hone Hflag Hsome.
  rewrite (playCard_accepted _ _ _ _ _ _ _ Hacc).
  destruct Hacc as (_ & Hplayer & _ & _).
  destruct (applyPlay_effects_drawn (GameState.currentPlayerIndex (state sv)) cardIndex
              card wildColor player sv Hplayer (λ _, Hsome))
    as (sv5 & penalty & nextP & extra & Hrun & Hps5 & _ & Hout5 & Hpenalty & Hextra
        & Hmost).
  assert (Hforgot : forgotUno player cardIndex = true).
  { unfold forgotUno. rewrite Hone, Hflag. reflexivity. }
  rewrite Hforgot in Hpenalty, Hout5. destruct Hpenalty as [Hle Hdrawn].
  destruct (acting_player_after (GameState.currentPlayerIndex (state sv)) cardIndex
              penalty nextP extra player (players sv) Hplayer)
    as (p5 & mine & Hp5 & Hhand5 & _ & Hmine).
  rewrite <- Hps5 in Hp5.
  assert (Hact5 : Player.active <$> players sv5 = Player.active <$> players sv).
  { rewrite Hps5, !fmap_alter_fixed; [reflexivity| |]; intros.
    - apply afterPlay_active.
    - reflexivity. }
  destruct (finishPlay_advance (GameState.currentPlayerIndex (state sv))
              (nextOffsetOf card (length (activePlayers sv))) sv5 p5 Hp5)
    as (i & q & Hi & _ & _ & Hfin).
  { rewrite Hhand5. destruct (delete cardIndex (Player.hand player)); [discriminate|].
    discriminate. }
  { apply nextOffsetOf_pos. }
  { eapply Exists_active_fmap; [symmetry; exact Hact5|exact Hsome]. }
  assert (Hself : mine ≠ [] →
            getNextPlayerIndex 1 sv = Ok (GameState.currentPlayerIndex (state sv))).
  { intros Hne. destruct Hmine as [->|[-> Hnext]]; [congruence|].
    destruct (makesNextDraw card); [|congruence].
    destruct Hextra as (p & _ & _ & Hseat). rewrite <- Hnext. exact Hseat. }
  assert (Hnone : 2 ≤ length (activePlayers sv) → mine = []).
  { intros Htwo. destruct mine as [|c mine]; [reflexivity|]. exfalso.
    exact (next_seat_is_other sv player _ Hplayer Htwo (Hself ltac:(discriminate))
             eq_refl). }
  rewrite Hrun, Hfin.
  eexists _, p5, penalty, mine. split; [reflexivity|].
  split; [exact Hp5|]. split; [exact Hhand5|]. split; [exact Hle|].
  split; [exact Hdrawn|].
  split; [destruct Hmine as [->|[-> _]]; [simpl; lia|exact Hmost]|].
  split; [exact Hself|].
  split.
  { intros Htwo. split; [exact (Hnone Htwo)|].
    rewrite Hhand5, (Hnone Htwo), app_nil_r, length_app, Hone. reflexivity. }
  unfold outsideCards in Hout5. simpl.
  destruct (flipsDirection card (length (activePlayers sv))); simpl in Hout5;
    (split; [congruence|]); (split; [congruence|]); (split; [congruence|]);
    rewrite <- Hi; apply getNextPlayerIndex_ext;
    solve [symmetry; exact Hact5 | simpl; congruence].
Qed.

(** ** Reverse *)

(** With two active players, one of them on the current seat, two counted
    seats on is the current seat again. *)
Lemma two_active_returns sv p :
  players sv !! GameState.currentPlayerIndex (state sv) = Some p →
  Player.active p = true →
  length (activePlayers sv) = 2 →
  getNextPlayerIndex 2 sv = Ok (GameState.currentPlayerIndex (state sv)).
Proof.
  intros Hp Hact Htwo. unfold getNextPlayerIndex.
  set (ps := players sv) in *. set (d := GameState.direction (state sv)).
  set (cur := GameState.currentPlayerIndex (state sv)) in *.
  assert (Hcur : cur < length ps) by (eapply lookup_lt_Some; eauto).
  assert (Hlen : 0 < length ps) by lia.
  pose proof (activeSeats_cycle ps d Hlen cur) as Hcycle.
  fold (activePlayers sv) in Hcycle. unfold activePlayers in Htwo.
  fold ps in Htwo. rewrite Htwo in Hcycle.
  pose proof (seatAfter_cycle_home ps d Hlen cur Hcur) as Hhome.
  assert (Hprev : ∀ j, j < length ps → activeSeats ps d cur j < 2).
  { intros j Hj.
    destruct (length ps) as [|n] eqn:En; [lia|].
    simpl in Hcycle. rewrite Hhome in Hcycle.
    unfold activeAt in Hcycle. rewrite Hp, Hact in Hcycle.
    pose proof (activeSeats_le ps d ltac:(lia) cur j n ltac:(lia)). lia. }
  transitivity (Ok (A:=nat) (walked ps d cur (0 + length ps))).
  - apply (seatWalk_from ps d Hlen 2 cur (length ps) 0 (seatWalkBound ps)).
    + unfold seatWalkBound. nia.
    + simpl. lia.
    + rewrite Nat.add_0_l, Hcycle. lia.
    + intros j Hj. pose proof (Hprev j ltac:(lia)). lia.
  - simpl. f_equal. rewrite <- Hhome at 2.
    destruct (length ps); [lia|reflexivity].
Qed.

Lemma active_Exists (ps : list Player.t) i p :
  ps !! i = Some p → Player.active p = true →
  Exists (λ p, Player.active p = true) ps.
Proof.
  intros Hp Ha. apply Exists_exists. exists p. split; [|exact Ha].
  eapply list_elem_of_lookup_2; eauto.
Qed.

(** C7. An accepted reverse that does not empty the hand: with exactly two
    active players the direction stays and the turn advances by offset 2,
    which brings it back to the player who played; with any other number
    the direction flips and the turn advances by 1 in the new direction:
    it goes to the first seat, walking from the acting seat against the
    old direction, that holds an active player, which with three active
    players or more is another seat than the acting one. *)
Theorem playCard_reverse_with_two_active_acts_as_skip (sv : MockGameServer.t)
    (playerId cardId : string) (wildColor : option CardColor.t)
    (player : Player.t) (cardIndex : nat) (card : Card.t) :
  accepted sv playerId cardId player cardIndex card →
  Card.type card = CardType.reverse →
  Player.active player = true →
  delete cardIndex (Player.hand player) ≠ [] →
  ∃ sv',
    playCard playerId cardId wildColor sv = Ok sv'
    ∧ (length (activePlayers sv) = 2 →
       GameState.direction (state sv') = GameState.direction (state sv)
       ∧ getNextPlayerIndex 2 sv = Ok (GameState.currentPlayerIndex (state sv'))
       ∧ GameState.currentPlayerIndex (state sv')
         = GameState.currentPlayerIndex (state sv))
    ∧ (length (activePlayers sv) ≠ 2 →
       GameState.direction (state sv') = Direction.flip (GameState.direction (state sv))
       ∧ getNextPlayerIndex 1
           (upd (λ g, GameState.set_direction
                        (Direction.flip (GameState.direction g)) g) sv)
         = Ok (GameState.currentPlayerIndex (state sv'))
       ∧ (∃ k, 1 ≤ k
            ∧ GameState.currentPlayerIndex (state sv')
              = seatAfter (players sv) (Direction.flip (GameState.direction (state sv)))
                  (GameState.currentPlayerIndex (state sv)) k
            ∧ activeAt (players sv) (GameState.currentPlayerIndex (state sv')) = true
            ∧ ∀ j, 1 ≤ j < k →
                activeAt (players sv)
                  (seatAfter (players sv)
                     (Direction.flip (GameState.direction (state sv)))
                     (GameState.currentPlayerIndex (state sv)) j) = false)
       ∧ (3 ≤ length (activePlayers sv) →
          GameState.currentPlayerIndex (state sv')
          ≠ GameState.currentPlayerIndex (state sv))).
Proof.
  intros Hacc Hrev Hactive Hleft.
  rewrite (playCard_accepted _ _ _ _ _ _ _ Hacc).
  destruct Hacc as (_ & Hplayer & _ & _).
  pose proof (active_Exists _ _ _ Hplayer Hactive) as Hsome.
  destruct (applyPlay_effects (GameState.currentPlayerIndex (state sv)) cardIndex card
              wildColor player sv Hplayer (λ _, Hsome))
    as (sv5 & penalty & nextP & extra & Hrun & Hps5 & _ & Hout5 & _ & _).
  destruct (acting_player_after (GameState.currentPlayerIndex (state sv)) cardIndex
              penalty nextP extra player (players sv) Hplayer)
    as (p5 & mine & Hp5 & Hhand5 & _ & _).
  rewrite <- Hps5 in Hp5.
  assert (Hact5 : Player.active <$> players sv5 = Player.active <$> players sv).
  { rewrite Hps5, !fmap_alter_fixed; [reflexivity| |]; intros.
    - apply afterPlay_active.
    - reflexivity. }
  destruct (finishPlay_advance (GameState.currentPlayerIndex (state sv))
              (nextOffsetOf card (length (activePlayers sv))) sv5 p5 Hp5)
    as (i & q & Hi & _ & _ & Hfin).
  { rewrite Hhand5. destruct (delete cardIndex (Player.hand player)); [congruence|].
    discriminate. }
  { apply nextOffsetOf_pos. }
  { eapply Exists_active_fmap; [symmetry; exact Hact5|exact Hsome]. }
  rewrite Hrun, Hfin. eexists. split; [reflexivity|].
  unfold nextOffsetOf, flipsDirection in *. rewrite Hrev in *.
  rewrite bool_decide_eq_true_2 in Hout5 by reflexivity.
  unfold outsideCards in Hout5. simpl.
  split; intros Hcount.
  - apply Nat.eqb_eq in Hcount as Hcount'. rewrite Hcount' in *.
    simpl in Hout5.
    assert (Hnext : getNextPlayerIndex 2 sv = Ok i).
    { rewrite <- Hi. apply getNextPlayerIndex_ext;
        solve [symmetry; exact Hact5
              | destruct (forgotUno player cardIndex); simpl in Hout5; congruence]. }
    rewrite (two_active_returns sv player Hplayer Hactive Hcount) in Hnext.
    injection Hnext as <-.
    split; [destruct (forgotUno player cardIndex); simpl in Hout5; congruence|].
    split; [apply (two_active_returns sv player Hplayer Hactive Hcount)|reflexivity].
  - apply Nat.eqb_neq in Hcount as Hcount'. rewrite Hcount' in *.
    simpl in Hout5.
    split; [destruct (forgotUno player cardIndex); simpl in Hout5; congruence|].
    assert (Hnext : getNextPlayerIndex 1
                      (upd (λ g, GameState.set_direction
                                   (Direction.flip (GameState.direction g)) g) sv)
                    = Ok i).
    { rewrite <- Hi. apply getNextPlayerIndex_ext;
        solve [symmetry; exact Hact5
              | destruct (forgotUno player cardIndex); simpl in *; congruence]. }
    split; [exact Hnext|]. split.
    + pose proof (Exists_active_nonempty _ Hsome) as Hlen.
      destruct (seatWalk_exits (players sv)
                  (Direction.flip (GameState.direction (state sv))) Hlen Hsome
                  (GameState.currentPlayerIndex (state sv)) 1)
        as (k & Hk & Hseats & Hmin & Hwalk).
      rewrite Nat.min_l in Hseats, Hmin by lia.
      destruct (first_count_active (players sv)
                  (Direction.flip (GameState.direction (state sv))) Hlen
                  (GameState.currentPlayerIndex (state sv)) k 1 ltac:(lia) Hseats Hmin)
        as [Hpos Hat].
      unfold getNextPlayerIndex in Hnext.
      change (seatWalk (seatWalkBound (players sv)) (players sv)
                (Direction.flip (GameState.direction (state sv))) 1
                (GameState.currentPlayerIndex (state sv)) 0 = Ok i) in Hnext.
      rewrite Hwalk in Hnext by (apply seatWalkBound_ge, Hk).
      injection Hnext as <-.
      exists k. split; [lia|].
      destruct k as [|k]; [lia|]. split; [reflexivity|]. split; [exact Hat|].
      intros j Hj. destruct j as [|j]; [lia|].
      specialize (Hmin (S j) ltac:(lia)). simpl in Hmin.
      destruct (activeAt (players sv) _); [lia|reflexivity].
    + intros Hthree.
      apply (next_seat_is_other
               (upd (λ g, GameState.set_direction
                            (Direction.flip (GameState.direction g)) g) sv)
               player i Hplayer); [|exact Hnext].
      change (2 ≤ length (activePlayers sv)). lia.
Qed.

(** ** Round resolution *)

(** The first element of the sorted copy is the earliest one of highest
    score. *)
Lemma head_sort_byScoreDesc (l : list Player.t) :
  match head (sort byScoreDesc l) with
  | None => l = []
  | Some h =>
      ∃ l1 l2, l = l1 ++ h :: l2
               ∧ (∀ y, y ∈ l1 → Player.score y < Player.score h)
               ∧ (∀ y, y ∈ l2 → Player.score y ≤ Player.score h)
  end.
Proof.
  induction l as [|x l IH]; simpl; [reflexivity|].
  destruct (sort byScoreDesc l) as [|y s]; simpl in *.
  - subst l. exists [], []. split; [reflexivity|]. split; intros ? []%elem_of_nil.
  - destruct IH as (l1 & l2 & -> & Hl1 & Hl2).
    unfold byScoreDesc at 1.
    destruct (Z.leb_spec (Z.of_nat (Player.score y) - Z.of_nat (Player.score x)) 0);
      simpl.
    + exists [], (l1 ++ y :: l2). split; [reflexivity|].
      split; [intros ? []%elem_of_nil|].
      intros z [Hz|[->|Hz]%elem_of_cons]%elem_of_app.
      * specialize (Hl1 z Hz). lia.
      * lia.
      * specialize (Hl2 z Hz). lia.
    + exists (x :: l1), l2. split; [reflexivity|]. split; [|exact Hl2].
      intros z [->|Hz]%elem_of_cons; [lia|auto].
Qed.

Lemma NoDup_id_inj (ps : list Player.t) i j p q :
  NoDup (Player.id <$> ps) →
  ps !! i = Some p → ps !! j = Some q → Player.id p = Player.id q → i = j.
Proof.
  intros Hnd Hp Hq Hid.
  apply (NoDup_lookup (Player.id <$> ps) i j (Player.id p) Hnd);
    rewrite list_lookup_fmap; [rewrite Hp|rewrite Hq]; simpl; congruence.
Qed.

Lemma NoDup_split_unique {A} (a b c d : list A) h :
  NoDup (a ++ h :: b) → a ++ h :: b = c ++ h :: d → a = c.
Proof.
  revert c. induction a as [|x a IH]; intros [|z c] Hnd Heq; simpl in *.
  - reflexivity.
  - injection Heq as <- ->. apply NoDup_cons in Hnd as [Hnot _].
    exfalso. apply Hnot. apply elem_of_app. right. apply elem_of_cons. auto.
  - injection Heq as -> <-. apply NoDup_cons in Hnd as [Hnot _].
    exfalso. apply Hnot. apply elem_of_app. right. apply elem_of_cons. auto.
  - injection Heq as <- Heq. apply NoDup_cons in Hnd as [_ Hnd].
    f_equal. eauto.
Qed.

Lemma eliminateHighest_spec sv :
  NoDup (Player.id <$> players sv) →
  ∃ elim,
    highestScorer (players sv) elim
    ∧ players (eliminateHighest sv)
      = match elim with
        | Some e => alter (Player.set_isEliminated true) e (players sv)
        | None => players sv
        end
    ∧ GameState.status (state (eliminateHighest sv)) = GameState.status (state sv)
    ∧ GameState.winner (state (eliminateHighest sv)) = GameState.winner (state sv).
Proof.
  intros Hnd. unfold eliminateHighest.
  pose proof (head_sort_byScoreDesc (activePlayers sv)) as Hhead.
  destruct (head (sort byScoreDesc (activePlayers sv))) as [h|].
  - destruct Hhead as (l1 & l2 & Hsplit & Hl1 & Hl2).
    assert (Hin : h ∈ activePlayers sv).
    { rewrite Hsplit. apply elem_of_app. right. apply elem_of_cons. auto. }
    unfold activePlayers in Hin. apply list_elem_of_filter in Hin as [Hact Hin].
    apply list_elem_of_lookup in Hin as [j Hj].
    assert (Hle : ∀ i p, players sv !! i = Some p → Player.active p = true →
                         Player.score p ≤ Player.score h).
    { intros i p Hp Ha.
      assert (Hpin : p ∈ activePlayers sv).
      { apply list_elem_of_filter. split; [exact Ha|].
        eapply list_elem_of_lookup_2; eauto. }
      rewrite Hsplit in Hpin.
      apply elem_of_app in Hpin as [Hp1|[->|Hp2]%elem_of_cons].
      - specialize (Hl1 p Hp1). lia.
      - lia.
      - apply Hl2, Hp2. }
    destruct (Nat.ltb_spec 0 (Player.score h)) as [Hpos|Hzero].
    + destruct (list_find (λ p, Player.id p = Player.id h) (players sv))
        as [[e pe]|] eqn:Hfind.
      * apply list_find_Some in Hfind as (He & Hid & _).
        assert (e = j) by (eapply NoDup_id_inj; eauto). subst e.
        assert (pe = h) by congruence. subst pe.
        exists (Some j). split; [|split; [reflexivity|split; reflexivity]].
        exists h. split; [exact Hj|]. split; [exact Hact|]. split; [exact Hpos|].
        intros i p Hp Ha. split; [eauto|]. intros Hlt.
        apply Hl1.
        assert (Hl1eq : l1 = filter (λ p, Player.active p = true) (take j (players sv))).
        { eapply (NoDup_split_unique l1 l2 _ _ h).
          - rewrite <- Hsplit. apply NoDup_filter.
            eapply NoDup_fmap_1. exact Hnd.
          - rewrite <- Hsplit. unfold activePlayers.
            rewrite <- (take_drop_middle (players sv) j h Hj) at 1.
            rewrite filter_app, filter_cons_True by exact Hact. reflexivity. }
        rewrite Hl1eq. apply list_elem_of_filter. split; [exact Ha|].
        apply list_elem_of_lookup. exists i. rewrite lookup_take_lt by exact Hlt.
        exact Hp.
      * exfalso. apply list_find_None in Hfind. rewrite Forall_forall in Hfind.
        apply (Hfind h); [eapply list_elem_of_lookup_2; eauto|reflexivity].
    + exists None. split; [|split; [reflexivity|split; reflexivity]].
      intros i p Hp Ha. specialize (Hle i p Hp Ha). lia.
  - exists None. split; [|split; [reflexivity|split; reflexivity]].
    intros i p Hp Ha.
    assert (Hpin : p ∈ activePlayers sv).
    { apply list_elem_of_filter. split; [exact Ha|].
      eapply list_elem_of_lookup_2; eauto. }
    rewrite Hhead in Hpin. apply elem_of_nil in Hpin as [].
Qed.

Lemma scoreRound_id wid p : Player.id (scoreRound wid p) = Player.id p.
Proof. unfold scoreRound. destruct (Player.active p); [case_bool_decide|]; reflexivity. Qed.

Lemma scoreRound_active wid p : Player.active (scoreRound wid p) = Player.active p.
Proof. unfold scoreRound. destruct (Player.active p) eqn:E; [case_bool_decide|]; auto. Qed.

Lemma scoreRound_hand wid p : Player.hand (scoreRound wid p) = Player.hand p.
Proof. unfold scoreRound. destruct (Player.active p); [case_bool_decide|]; reflexivity. Qed.

(** [handleRoundWin] on its own. *)
Lemma handleRoundWin_spec w sv roundWinner :
  players sv !! w = Some roundWinner →
  NoDup (Player.id <$> players sv) →
  ∃ sv', handleRoundWin w sv = Ok sv'
    ∧ match GameState.mode (state sv) with
      | GameMode.QUICK =>
          GameState.status (state sv') = GameStatus.GAME_OVER
          ∧ GameState.winner (state sv') = Some w
          ∧ players sv' = players sv
      | GameMode.TOURNAMENT =>
          ∃ elim,
            highestScorer (scoreRound (Player.id roundWinner) <$> players sv) elim
            ∧ players sv'
              = match elim with
                | Some e => alter (Player.set_isEliminated true) e
                              (scoreRound (Player.id roundWinner) <$> players sv)
                | None => scoreRound (Player.id roundWinner) <$> players sv
                end
            ∧ (if length (activePlayers sv') =? 1
               then GameState.status (state sv') = GameStatus.GAME_OVER
                    ∧ GameState.winner (state sv')
                      = findIndex (λ p, Player.active p = true) (players sv')
               else GameState.status (state sv') = GameStatus.ROUND_OVER
                    ∧ GameState.winner (state sv') = GameState.winner (state sv))
      end.
Proof.
  intros Hw Hnd. unfold handleRoundWin, getPlayer.
  change (players (setTimer false sv)) with (players sv). rewrite Hw. simpl.
  change (GameState.mode (state (setTimer false sv))) with (GameState.mode (state sv)).
  destruct (GameState.mode (state sv)).
  - eexists. split; [reflexivity|]. simpl. auto.
  - eexists. split; [reflexivity|].
    set (sv8 := upd _ (upd _ (setTimer false sv))).
    assert (Hps8 : players sv8 = scoreRound (Player.id roundWinner) <$> players sv)
      by reflexivity.
    destruct (eliminateHighest_spec sv8) as (elim & Helim & Hps9 & Hst9 & Hwin9).
    { rewrite Hps8, <- list_fmap_compose.
      erewrite list_fmap_ext; [exact Hnd|]. intros ? ? ?. apply scoreRound_id. }
    exists elim. rewrite <- Hps8. split; [exact Helim|].
    unfold crownLastRemaining.
    change (activePlayers (notify ?x)) with (activePlayers x).
    change (players (notify ?x)) with (players x).
    destruct (length (activePlayers (eliminateHighest sv8)) =? 1) eqn:Hone.
    + change (activePlayers (upd ?f ?x)) with (activePlayers x). rewrite Hone.
      split; [exact Hps9|]. split; reflexivity.
    + rewrite Hone. split; [exact Hps9|].
      change (state (notify ?x)) with (state x).
      rewrite Hst9, Hwin9. split; reflexivity.
Qed.

(** The seats when [finishPlay] is entered: only hands and Uno flags have
    changed. *)
Lemma roster_after_effects cardIndex penalty nextP extra cur (ps : list Player.t) i p :
  ps !! i = Some p →
  ∃ p5,
    alter (Player.push_hand extra) nextP (alter (afterPlay cardIndex penalty) cur ps) !! i
      = Some p5
    ∧ Player.id p5 = Player.id p ∧ Player.score p5 = Player.score p
    ∧ Player.isEliminated p5 = Player.isEliminated p
    ∧ Player.isSpectator p5 = Player.isSpectator p.
Proof.
  intros Hp.
  assert (Hfix : Player.id (afterPlay cardIndex penalty p) = Player.id p
                 ∧ Player.score (afterPlay cardIndex penalty p) = Player.score p
                 ∧ Player.isEliminated (afterPlay cardIndex penalty p)
                   = Player.isEliminated p
                 ∧ Player.isSpectator (afterPlay cardIndex penalty p)
                   = Player.isSpectator p).
  { unfold afterPlay. destruct (1 <? _); simpl; auto. }
  destruct (decide (nextP = i)) as [->|Hn], (decide (cur = i)) as [->|Hc];
    rewrite ?list_lookup_alter_eq, ?list_lookup_alter_ne by assumption;
    rewrite ?list_lookup_alter_eq, ?list_lookup_alter_ne by assumption;
    rewrite Hp; simpl; eexists; (split; [reflexivity|]); simpl; tauto.
Qed.

(** A seat after the scores have been entered and [elim] eliminated. *)
Lemma resolved_seat wid elim (ps5 : list Player.t) i p5 :
  ps5 !! i = Some p5 →
  ∃ p',
    match elim with
    | Some e => alter (Player.set_isEliminated true) e (scoreRound wid <$> ps5)
    | None => scoreRound wid <$> ps5
    end !! i = Some p'
    ∧ Player.id p' = Player.id p5 ∧ Player.hand p' = Player.hand p5
    ∧ Player.isSpectator p' = Player.isSpectator p5
    ∧ Player.score p' = Player.score (scoreRound wid p5)
    ∧ Player.isEliminated p'
      = (if decide (elim = Some i) then true
         else Player.isEliminated p5).
Proof.
  intros Hp.
  assert (Hs : (scoreRound wid <$> ps5) !! i = Some (scoreRound wid p5))
    by (rewrite list_lookup_fmap, Hp; reflexivity).
  assert (Hfix : Player.isSpectator (scoreRound wid p5) = Player.isSpectator p5
                 ∧ Player.isEliminated (scoreRound wid p5) = Player.isEliminated p5).
  { unfold scoreRound. destruct (Player.active p5); [case_bool_decide|]; auto. }
  destruct Hfix as [Hspec Helim].
  destruct elim as [e|].
  - destruct (decide (e = i)) as [->|Hne].
    + rewrite list_lookup_alter_eq, Hs. simpl.
      eexists. split; [reflexivity|]. simpl.
      rewrite scoreRound_id, scoreRound_hand, decide_True by reflexivity. auto.
    + rewrite list_lookup_alter_ne, Hs by exact Hne.
      eexists. split; [reflexivity|].
      rewrite scoreRound_id, scoreRound_hand, decide_False by congruence. auto.
  - eexists. split; [exact Hs|].
    rewrite scoreRound_id, scoreRound_hand. auto.
Qed.

(** C4. An accepted play that empties the acting player's hand resolves
    the round. QUICK: the game is over and that player has won.
    TOURNAMENT: every other active player's score becomes the score of the
    hand left to them and the winner's score 0; the active player of
    highest score, the earliest seat among equals, is eliminated if that
    score is positive (nobody is otherwise); and the status is GAME_OVER
    with the one remaining active player as winner when exactly one
    remains, ROUND_OVER otherwise. *)
Theorem playCard_empty_hand_resolves_round (sv sv' : MockGameServer.t)
    (playerId cardId : string) (wildColor : option CardColor.t)
    (player winner' : Player.t) (cardIndex : nat) (card : Card.t) :
  accepted sv playerId cardId player cardIndex card →
  NoDup (Player.id <$> players sv) →
  Player.active player = true →
  playCard playerId cardId wildColor sv = Ok sv' →
  players sv' !! GameState.currentPlayerIndex (state sv) = Some winner' →
  Player.hand winner' = [] →
  match GameState.mode (state sv) with
  | GameMode.QUICK =>
      GameState.status (state sv') = GameStatus.GAME_OVER
      ∧ GameState.winner (state sv') = Some (GameState.currentPlayerIndex (state sv))
  | GameMode.TOURNAMENT =>
      (∀ i p, players sv !! i = Some p →
         ∃ p', players sv' !! i = Some p'
           ∧ Player.id p' = Player.id p
           ∧ Player.score p'
             = if Player.active p
               then if decide (i = GameState.currentPlayerIndex (state sv)) then 0
                    else calculateHandScore (Player.hand p')
               else Player.score p)
      ∧ (∃ elim : option nat,
           (∀ i p p', players sv !! i = Some p → players sv' !! i = Some p' →
              Player.isSpectator p' = Player.isSpectator p
              ∧ Player.isEliminated p'
                = if decide (elim = Some i) then true else Player.isEliminated p)
           ∧ match elim with
             | Some e =>
                 ∃ pe', players sv' !! e = Some pe'
                   ∧ activeAt (players sv) e = true
                   ∧ 0 < Player.score pe'
                   ∧ ∀ i p', players sv' !! i = Some p' →
                             activeAt (players sv) i = true →
                             Player.score p' ≤ Player.score pe'
                             ∧ (i < e → Player.score p' < Player.score pe')
             | None =>
                 ∀ i p', players sv' !! i = Some p' →
                         activeAt (players sv) i = true → Player.score p' = 0
             end)
      ∧ (if length (activePlayers sv') =? 1
         then GameState.status (state sv') = GameStatus.GAME_OVER
              ∧ ∃ r pr, GameState.winner (state sv') = Some r
                        ∧ players sv' !! r = Some pr ∧ Player.active pr = true
         else GameState.status (state sv') = GameStatus.ROUND_OVER
              ∧ GameState.winner (state sv') = GameState.winner (state sv))
  end.
Proof.
  intros Hacc Hnd Hactive Hplay Hwinner' Hempty.
  rewrite (playCard_accepted _ _ _ _ _ _ _ Hacc) in Hplay.
  destruct Hacc as (_ & Hplayer & _ & _).
  set (cur := GameState.currentPlayerIndex (state sv)) in *.
  pose proof (active_Exists _ _ _ Hplayer Hactive) as Hsome.
  destruct (applyPlay_effects cur cardIndex card wildColor player sv Hplayer
              (λ _, Hsome))
    as (sv5 & penalty & nextP & extra & Hrun & Hps5 & _ & Hout5 & _ & _).
  rewrite Hrun in Hplay.
  destruct (acting_player_after cur cardIndex penalty nextP extra player (players sv)
              Hplayer) as (p5 & mine & Hp5 & _ & _ & _).
  rewrite <- Hps5 in Hp5.
  assert (Hact5 : Player.active <$> players sv5 = Player.active <$> players sv).
  { rewrite Hps5, !fmap_alter_fixed; [reflexivity| |]; intros.
    - apply afterPlay_active.
    - reflexivity. }
  assert (Hid5 : Player.id <$> players sv5 = Player.id <$> players sv).
  { rewrite Hps5, !fmap_alter_fixed; [reflexivity| |]; intros.
    - unfold afterPlay. destruct (1 <? _); reflexivity.
    - reflexivity. }
  assert (Hmode5 : GameState.mode (state sv5) = GameState.mode (state sv)
                   ∧ GameState.winner (state sv5) = GameState.winner (state sv)).
  { unfold outsideCards in Hout5.
    destruct (flipsDirection _ _), (forgotUno _ _); simpl in Hout5;
      split; congruence. }
  destruct Hmode5 as [Hmode5 Hwin5].
  (* the play went through [handleRoundWin] *)
  assert (Hwon : handleRoundWin cur sv5 = Ok sv').
  { destruct (Player.hand p5) eqn:Hhand5.
    - unfold finishPlay, getPlayer in Hplay. rewrite Hp5 in Hplay. simpl in Hplay.
      rewrite Hhand5 in Hplay. exact Hplay.
    - exfalso.
      destruct (finishPlay_advance cur
                  (nextOffsetOf card (length (activePlayers sv))) sv5 p5 Hp5)
        as (i & q & _ & _ & _ & Hfin).
      + rewrite Hhand5. discriminate.
      + apply nextOffsetOf_pos.
      + eapply Exists_active_fmap; [symmetry; exact Hact5|exact Hsome].
      + rewrite Hfin in Hplay. injection Hplay as <-.
        change (players (notify ?x)) with (players x) in Hwinner'.
        change (players (upd (GameState.set_currentPlayerIndex i) (startTurnTimer sv5)))
          with (players sv5) in Hwinner'.
        rewrite Hp5 in Hwinner'. injection Hwinner' as <-.
        rewrite Hhand5 in Hempty. discriminate. }
  destruct (handleRoundWin_spec cur sv5 p5 Hp5) as (sv'' & Hrun'' & Hspec).
  { rewrite Hid5. exact Hnd. }
  rewrite Hwon in Hrun''. injection Hrun'' as <-.
  rewrite Hmode5 in Hspec.
  destruct (GameState.mode (state sv)).
  { destruct Hspec as (? & ? & _). auto. }
  destruct Hspec as (elim & Hhigh & Hps' & Hstatus).
  assert (Hwid : Player.id p5 = Player.id player).
  { destruct (roster_after_effects cardIndex penalty nextP extra cur (players sv) cur
                player Hplayer) as (q & Hq & Hidq & _).
    rewrite <- Hps5, Hp5 in Hq. injection Hq as <-. exact Hidq. }
  assert (Hseat : ∀ i p, players sv !! i = Some p →
            ∃ p5i p', players sv5 !! i = Some p5i ∧ players sv' !! i = Some p'
              ∧ Player.id p' = Player.id p
              ∧ Player.hand p' = Player.hand p5i
              ∧ Player.isSpectator p' = Player.isSpectator p
              ∧ Player.active p5i = Player.active p
              ∧ Player.score p5i = Player.score p
              ∧ Player.score p' = Player.score (scoreRound (Player.id p5) p5i)
              ∧ Player.isEliminated p'
                = if decide (elim = Some i) then true else Player.isEliminated p).
  { intros i p Hp.
    destruct (roster_after_effects cardIndex penalty nextP extra cur (players sv) i p Hp)
      as (p5i & Hp5i & Hi1 & Hi2 & Hi3 & Hi4).
    rewrite <- Hps5 in Hp5i.
    destruct (resolved_seat (Player.id p5) elim (players sv5) i p5i Hp5i)
      as (p' & Hp' & Hr1 & Hr2 & Hr3 & Hr4 & Hr5).
    rewrite <- Hps' in Hp'.
    exists p5i, p'. unfold Player.active. repeat split; try congruence.
    rewrite Hr5, Hi3. reflexivity. }
  assert (Hscored : ∀ i p', players sv' !! i = Some p' →
            activeAt (players sv) i = true →
            ∃ q, (scoreRound (Player.id p5) <$> players sv5) !! i = Some q
                 ∧ Player.active q = true ∧ Player.score q = Player.score p').
  { intros i p' Hp' Hai. unfold activeAt in Hai.
    destruct (players sv !! i) as [p|] eqn:Hp; [|discriminate].
    destruct (Hseat i p Hp) as (p5i & p'' & Hp5i & Hp'' & _ & _ & _ & Ha & _ & Hsc & _).
    rewrite Hp' in Hp''. injection Hp'' as <-.
    exists (scoreRound (Player.id p5) p5i).
    rewrite list_lookup_fmap, Hp5i, scoreRound_active. split; [reflexivity|].
    split; congruence. }
  split; [|split].
  - intros i p Hp.
    destruct (Hseat i p Hp) as (p5i & p' & Hp5i & Hp' & Hid & Hhand & _ & Ha & Hsc5
                                & Hsc & _).
    exists p'. split; [exact Hp'|]. split; [exact Hid|].
    rewrite Hsc. unfold scoreRound. rewrite Ha.
    destruct (Player.active p); [|exact Hsc5].
    destruct (decide (i = cur)) as [->|Hne].
    + rewrite Hp5 in Hp5i. injection Hp5i as <-.
      rewrite bool_decide_eq_false_2 by auto. reflexivity.
    + rewrite bool_decide_eq_true_2.
      * simpl. rewrite Hhand. reflexivity.
      * intros Heq. apply Hne.
        eapply (NoDup_id_inj (players sv5)); eauto. rewrite Hid5. exact Hnd.
  - exists elim. split.
    + intros i p p' Hp Hp'.
      destruct (Hseat i p Hp) as (p5i & p'' & _ & Hp'' & _ & _ & Hspec' & _ & _ & _ & Hel).
      rewrite Hp' in Hp''. injection Hp'' as <-. auto.
    + destruct elim as [e|]; simpl in Hhigh.
      * destruct Hhigh as (pe & Hpe & Hae & Hpos & Hmax).
        assert (Hpe' : players sv' !! e = Some (Player.set_isEliminated true pe)).
        { rewrite Hps', list_lookup_alter_eq, Hpe. reflexivity. }
        exists (Player.set_isEliminated true pe). split; [exact Hpe'|].
        split; [|split; [exact Hpos|]].
        -- unfold activeAt.
           assert (Hl : Player.active <$> players sv !! e = Some true).
           { rewrite <- list_lookup_fmap, <- Hact5, list_lookup_fmap.
             rewrite list_lookup_fmap in Hpe.
             destruct (players sv5 !! e) as [q|]; [|discriminate].
             simpl in *. injection Hpe as <-.
             rewrite scoreRound_active in Hae. congruence. }
           destruct (players sv !! e); [|discriminate].
           simpl in Hl. congruence.
        -- intros i p' Hp' Hai.
           destruct (Hscored i p' Hp' Hai) as (q & Hq & Haq & Hsq).
           simpl. rewrite <- Hsq. exact (Hmax i q Hq Haq).
      * intros i p' Hp' Hai.
        destruct (Hscored i p' Hp' Hai) as (q & Hq & Haq & Hsq).
        rewrite <- Hsq. exact (Hhigh i q Hq Haq).
  - destruct (Nat.eqb_spec (length (activePlayers sv')) 1) as [Hone|Hmore].
    + destruct Hstatus as [Hst Hwin]. split; [exact Hst|].
      rewrite Hwin. unfold findIndex.
      destruct (list_find (λ p, Player.active p = true) (players sv'))
        as [[r pr]|] eqn:Hfind.
      * apply list_find_Some in Hfind as (Hr & Har & _).
        exists r, pr. auto.
      * exfalso. apply list_find_None in Hfind.
        unfold activePlayers in Hone.
        destruct (filter (λ p, Player.active p = true) (players sv')) as [|x l] eqn:Hf;
          [discriminate|].
        assert (Hx : x ∈ filter (λ p, Player.active p = true) (players sv'))
          by (rewrite Hf; apply elem_of_cons; auto).
        apply list_elem_of_filter in Hx as [Hax Hx].
        rewrite Forall_forall in Hfind. exact (Hfind x Hx Hax).
    + destruct Hstatus as [Hst Hwin]. split; [exact Hst|]. congruence.
Qed.

(** ** A new round *)

Lemma flipOpening_finds blacks : ∀ l c fuel,
  Forall (λ b, Card.color b = CardColor.black) blacks →
  Card.color c ≠ CardColor.black →
  length blacks ≤ fuel →
  flipOpening fuel (l ++ c :: blacks) = Ok (c, blacks ++ l).
Proof.
  induction blacks as [|b bs IH] using rev_ind; intros l c fuel Hblack Hc Hfuel.
  - destruct fuel; simpl; rewrite pop_snoc, bool_decide_eq_false_2 by exact Hc;
      reflexivity.
  - apply Forall_app in Hblack as [Hbs Hb]. rewrite Forall_singleton in Hb.
    rewrite length_app in Hfuel. simpl in Hfuel.
    destruct fuel as [|fuel]; [lia|]. simpl.
    replace (l ++ c :: bs ++ [b]) with ((l ++ c :: bs) ++ [b])
      by (rewrite <- app_assoc; reflexivity).
    rewrite pop_snoc, bool_decide_eq_true_2 by exact Hb.
    etransitivity; [apply (IH (b :: l) c fuel Hbs Hc); lia|].
    rewrite <- app_assoc. reflexivity.
Qed.

(** A deck of black cards only is rotated for ever, which is what the
    exhausted fuel of [openingCard] stands for. *)
Lemma flipOpening_all_black fuel : ∀ deck,
  deck ≠ [] →
  Forall (λ b, Card.color b = CardColor.black) deck →
  flipOpening fuel deck = Diverges.
Proof.
  induction fuel as [|fuel IH]; intros deck Hne Hblack;
    (destruct deck as [|b deck _] using rev_ind; [congruence|]);
    apply Forall_app in Hblack as [Hdeck Hb]; rewrite Forall_singleton in Hb;
    simpl; rewrite pop_snoc, bool_decide_eq_true_2 by exact Hb; [reflexivity|].
  apply IH; [discriminate|]. apply Forall_cons; auto.
Qed.

Lemma last_nonblack (deck : list Card.t) :
  Exists (λ c, Card.color c ≠ CardColor.black) deck →
  ∃ l c blacks, deck = l ++ c :: blacks
                ∧ Card.color c ≠ CardColor.black
                ∧ Forall (λ b, Card.color b = CardColor.black) blacks.
Proof.
  induction deck as [|x deck IH] using rev_ind; intros Hex.
  - inversion Hex.
  - destruct (decide (Card.color x = CardColor.black)) as [Hx|Hx].
    + apply Exists_app in Hex as [Hex|Hex].
      * destruct (IH Hex) as (l & c & blacks & -> & Hc & Hb).
        exists l, c, (blacks ++ [x]). rewrite <- app_assoc. split; [reflexivity|].
        split; [exact Hc|]. apply Forall_app. split; [exact Hb|].
        apply Forall_singleton, Hx.
      * apply Exists_cons in Hex as [?|Hnil]; [contradiction|inversion Hnil].
    + exists deck, x, []. auto.
Qed.

(** The opening card is found whenever the deck holds a card that is not
    black. *)
Lemma openingCard_Ok (deck : list Card.t) :
  Exists (λ c, Card.color c ≠ CardColor.black) deck →
  ∃ firstCard deck',
    openingCard deck = Ok (firstCard, deck')
    ∧ Card.color firstCard ≠ CardColor.black
    ∧ deck' ++ [firstCard] ≡ₚ deck.
Proof.
  intros Hex. destruct (last_nonblack deck Hex) as (l & c & blacks & -> & Hc & Hb).
  exists c, (blacks ++ l). split; [|split; [exact Hc|]].
  - unfold openingCard. apply flipOpening_finds; [exact Hb|exact Hc|].
    rewrite length_app. simpl. lia.
  - rewrite <- app_assoc, (Permutation_app_comm blacks), <- app_assoc.
    reflexivity.
Qed.

(** [openingCard] reports an endless rotation only when there is one. *)
Lemma openingCard_Diverges (deck : list Card.t) :
  openingCard deck = Diverges → ∀ fuel, flipOpening fuel deck = Diverges.
Proof.
  intros Hdiv fuel.
  destruct (decide (Forall (λ b, Card.color b = CardColor.black) deck))
    as [Hblack|Hnot].
  - apply flipOpening_all_black; [|exact Hblack].
    intros ->. discriminate.
  - exfalso. apply not_Forall_Exists in Hnot; [|intros c; apply _].
    destruct (openingCard_Ok deck Hnot) as (c & d & Hrun & _). congruence.
Qed.

Lemma generateDeck_Permutation uuidv4 u random k :
  generateDeck uuidv4 u random k
  ≡ₚ imap (λ n '(color, ty, v), Card.mk (uuidv4 (u + n)) color ty v) deckFaces.
Proof. apply shuffleDeck_Permutation. Qed.

(** [generateDeck] builds the 108 cards of the game, whatever the ids
    and the shuffle. *)
Lemma generateDeck_faces uuidv4 u random k :
  face <$> generateDeck uuidv4 u random k ≡ₚ deckFaces.
Proof.
  rewrite generateDeck_Permutation, fmap_imap.
  assert (Hfaces :
    imap (λ n, face ∘ (λ '(color, ty, v), Card.mk (uuidv4 (u + n)) color ty v))
      deckFaces = deckFaces) by reflexivity.
  rewrite Hfaces. reflexivity.
Qed.

Lemma generateDeck_length uuidv4 u random k :
  length (generateDeck uuidv4 u random k) = 108.
Proof.
  rewrite <- (length_fmap face), generateDeck_faces. reflexivity.
Qed.

Lemma filter_fmap_length {A B} (f : A → B) (P : B → Prop) `{∀ y, Decision (P y)}
    (l : list A) :
  length (filter (λ x, P (f x)) l) = length (filter P (f <$> l)).
Proof.
  induction l as [|x l IH]; [reflexivity|].
  rewrite fmap_cons, !filter_cons. destruct (decide (P (f x))); simpl; rewrite IH;
    reflexivity.
Qed.

Lemma generateDeck_blacks uuidv4 u random k :
  length (filter (λ c, Card.color c = CardColor.black)
            (generateDeck uuidv4 u random k)) = 8.
Proof.
  transitivity (length (filter (λ f : Face, f.1.1 = CardColor.black)
                          (face <$> generateDeck uuidv4 u random k))).
  { rewrite <- (filter_fmap_length face (λ f : Face, f.1.1 = CardColor.black)).
    reflexivity. }
  rewrite generateDeck_faces. reflexivity.
Qed.

Lemma filter_all {A} (P : A → Prop) `{∀ x, Decision (P x)} (l : list A) :
  Forall P l → filter P l = l.
Proof.
  induction 1 as [|x l Hx _ IH]; [reflexivity|].
  rewrite filter_cons_True by exact Hx. rewrite IH. reflexivity.
Qed.

(** After a deal that leaves more than eight cards, one of them is not
    black. *)
Lemma nonblack_left uuidv4 u random k n :
  n + 8 < 108 →
  Exists (λ c, Card.color c ≠ CardColor.black)
    (drop n (generateDeck uuidv4 u random k)).
Proof.
  intros Hn. set (deck := generateDeck uuidv4 u random k).
  destruct (decide (Forall (λ c, Card.color c = CardColor.black) (drop n deck)))
    as [Hall|Hnot].
  - exfalso.
    pose proof (generateDeck_blacks uuidv4 u random k) as Hblacks. fold deck in Hblacks.
    rewrite <- (take_drop n deck), filter_app, length_app in Hblacks.
    rewrite (filter_all _ _ Hall), length_drop in Hblacks.
    unfold deck in Hblacks. rewrite generateDeck_length in Hblacks. lia.
  - apply not_Forall_Exists in Hnot; [exact Hnot|]. intros c. apply _.
Qed.

Lemma dealRound_spec (ps : list Player.t) : ∀ deck,
  7 * length (filter (λ p, Player.active p = true) ps) ≤ length deck →
  ∃ ps' deck',
    dealRound ps deck = (ps', deck')
    ∧ Forall2 dealtInRound ps ps'
    ∧ deck' = drop (7 * length (filter (λ p, Player.active p = true) ps)) deck
    ∧ concat (Player.hand <$> filter (λ p, Player.active p = true) ps') ++ deck' = deck.
Proof.
  induction ps as [|p ps IH]; intros deck Hlen.
  - exists [], deck. simpl. auto using Forall2_nil.
  - rewrite filter_cons in Hlen |- *. simpl.
    destruct (decide (Player.active p = true)) as [Hact|Hact].
    + rewrite Hact. simpl in Hlen.
      destruct (IH (drop 7 deck)) as (ps' & deck' & Hrun & Hdealt & Hdrop & Hcards).
      { rewrite length_drop. lia. }
      rewrite Hrun. eexists _, deck'. split; [reflexivity|].
      split; [|split].
      * constructor; [|exact Hdealt].
        unfold dealtInRound. rewrite Hact. eexists. split; [|reflexivity].
        rewrite length_take. lia.
      * rewrite Hdrop, drop_drop. f_equal. simpl. lia.
      * rewrite filter_cons_True by exact Hact.
        rewrite fmap_cons, concat_cons, <- app_assoc, Hcards.
        exact (take_drop 7 deck).
    + apply not_true_is_false in Hact. rewrite Hact.
      destruct (IH deck Hlen) as (ps' & deck' & Hrun & Hdealt & Hdrop & Hcards).
      rewrite Hrun. exists (p :: ps'), deck'. split; [reflexivity|].
      split; [|split].
      * constructor; [|exact Hdealt]. unfold dealtInRound. rewrite Hact.
        reflexivity.
      * exact Hdrop.
      * rewrite filter_cons_False by congruence. exact Hcards.
Qed.

Lemma dealtInRound_id (ps ps' : list Player.t) :
  Forall2 dealtInRound ps ps' → Player.id <$> ps' = Player.id <$> ps.
Proof.
  induction 1 as [|p p' ps ps' Hp _ IH]; [reflexivity|].
  rewrite !fmap_cons, IH. f_equal. unfold dealtInRound in Hp.
  destruct (Player.active p); [destruct Hp as (h & _ & ->)|subst]; reflexivity.
Qed.

Lemma first_active_seat (ps ps' : list Player.t) :
  NoDup (Player.id <$> ps) →
  Player.id <$> ps' = Player.id <$> ps →
  filter (λ p, Player.active p = true) ps ≠ [] →
  ∃ i p0,
    head (filter (λ p, Player.active p = true) ps) = Some p0
    ∧ list_find (λ p, Player.active p = true) ps = Some (i, p0)
    ∧ findIndex (λ p, Player.id p = Player.id p0) ps' = Some i.
Proof.
  intros Hnd Hids Hne.
  destruct (filter (λ p, Player.active p = true) ps) as [|p0 rest] eqn:Hf;
    [congruence|].
  assert (Hhead : head (filter (λ p, Player.active p = true) ps) = Some p0)
    by (rewrite Hf; reflexivity).
  assert (Hact : Player.active p0 = true).
  { assert (Hin : p0 ∈ filter (λ p, Player.active p = true) ps)
      by (rewrite Hf; apply elem_of_cons; auto).
    apply list_elem_of_filter in Hin as [? _]. assumption. }
  apply head_filter_Some in Hhead as (l1 & l2 & Hsplit & Hl1).
  assert (Hp0 : ps !! length l1 = Some p0).
  { rewrite Hsplit, lookup_app_r, Nat.sub_diag by lia. reflexivity. }
  exists (length l1), p0. split; [reflexivity|]. split.
  - apply list_find_Some. split; [exact Hp0|]. split; [exact Hact|].
    intros j y Hy Hj. rewrite Hsplit, lookup_app_l in Hy by exact Hj.
    rewrite Forall_forall in Hl1. apply Hl1. eapply list_elem_of_lookup_2; eauto.
  - assert (Hlook : ∀ j, Player.id <$> ps' !! j = Player.id <$> ps !! j).
    { intros j. rewrite <- !list_lookup_fmap, Hids. reflexivity. }
    pose proof (Hlook (length l1)) as Hq. rewrite Hp0 in Hq.
    destruct (ps' !! length l1) as [q|] eqn:Hq'; [|discriminate].
    simpl in Hq. injection Hq as Hq.
    unfold findIndex.
    assert (Hfind : list_find (λ p, Player.id p = Player.id p0) ps'
                    = Some (length l1, q)).
    { apply list_find_Some. split; [exact Hq'|]. split; [exact Hq|].
      intros j y Hy Hj Hid.
      pose proof (Hlook j) as Hyj. rewrite Hy in Hyj.
      destruct (ps !! j) as [z|] eqn:Hz; [|discriminate].
      simpl in Hyj. injection Hyj as Hyj.
      assert (j = length l1); [|lia].
      eapply (NoDup_id_inj ps); eauto. congruence. }
    rewrite Hfind. reflexivity.
Qed.

(** C8, as the code has it. [nextRound] is a no-op in status GAME_OVER
    only. In any other status (LOBBY, PLAYING, ROUND_OVER), with 2 to 14
    active players, it deals seven cards of a fresh deck to every
    non-eliminated non-spectator player, resets their Uno flag and score,
    leaves the other players alone, opens the discard pile with a card
    that is not black, whose colour becomes the current colour, gives the
    turn to the earliest active seat and sets the status to PLAYING; the
    deck, that card and the hands dealt are the 108 cards of the game.
    With fewer than two active players it ends the game instead. *)
Theorem nextRound_only_guards_game_over (sv : MockGameServer.t) :
  (GameState.status (state sv) = GameStatus.GAME_OVER → nextRound sv = Ok sv)
  ∧ (GameState.status (state sv) ≠ GameStatus.GAME_OVER →
     2 ≤ length (activePlayers sv) ≤ 14 →
     NoDup (Player.id <$> players sv) →
     ∃ sv' firstCard,
       nextRound sv = Ok sv'
       ∧ GameState.status (state sv') = GameStatus.PLAYING
       ∧ Forall2 dealtInRound (players sv) (players sv')
       ∧ GameState.discardPile (state sv') = [firstCard]
       ∧ Card.color firstCard ≠ CardColor.black
       ∧ GameState.currentColor (state sv') = Card.color firstCard
       ∧ findIndex (λ p, Player.active p = true) (players sv)
         = Some (GameState.currentPlayerIndex (state sv'))
       ∧ face <$> (GameState.deck (state sv') ++ GameState.discardPile (state sv')
                   ++ concat (Player.hand <$> activePlayers sv'))
         ≡ₚ deckFaces)
  ∧ (GameState.status (state sv) ≠ GameStatus.GAME_OVER →
     length (activePlayers sv) < 2 →
     ∃ sv',
       nextRound sv = Ok sv'
       ∧ GameState.status (state sv') = GameStatus.GAME_OVER
       ∧ players sv' = players sv).
Proof.
  split; [|split].
  - intros Hover. unfold nextRound. rewrite bool_decide_eq_true_2 by exact Hover.
    reflexivity.
  - intros Hstatus [Hmin Hmax] Hnd. unfold nextRound.
    rewrite bool_decide_eq_false_2 by exact Hstatus. simpl.
    change (activePlayers (upd ?f (usedRandom ?n (usedUuid ?m sv))))
      with (activePlayers sv).
    change (players (upd ?f (usedRandom ?n (usedUuid ?m sv)))) with (players sv).
    destruct (Nat.ltb_spec (length (activePlayers sv)) 2) as [?|_]; [lia|].
    set (deck := generateDeck (uuidv4 sv) (uuidCalls sv) (random sv) (randomCalls sv)).
    destruct (dealRound_spec (players sv) deck)
      as (ps' & deck' & Hdeal & Hdealt & Hdrop & Hcards).
    { unfold deck. rewrite generateDeck_length. fold (activePlayers sv). lia. }
    rewrite Hdeal.
    destruct (openingCard_Ok deck') as (firstCard & deck'' & Hopen & Hcolor & Hperm).
    { rewrite Hdrop. apply nonblack_left. fold (activePlayers sv). lia. }
    rewrite Hopen. simpl.
    destruct (first_active_seat (players sv) ps' Hnd (dealtInRound_id _ _ Hdealt))
      as (i & p0 & Hhead & Hfind & Hseat).
    { fold (activePlayers sv). destruct (activePlayers sv); [simpl in Hmin; lia|].
      discriminate. }
    fold (activePlayers sv) in Hhead. rewrite Hhead. simpl. rewrite Hseat. simpl.
    eexists _, firstCard. split; [reflexivity|]. simpl.
    split; [reflexivity|]. split; [exact Hdealt|]. split; [reflexivity|].
    split; [exact Hcolor|]. split; [reflexivity|]. split.
    + unfold findIndex. rewrite Hfind. reflexivity.
    + unfold activePlayers, players. simpl.
      rewrite <- (generateDeck_faces (uuidv4 sv) (uuidCalls sv) (random sv)
                    (randomCalls sv)).
      fold deck. apply fmap_Permutation.
      rewrite <- Hcards, (cons_middle firstCard), app_assoc, Hperm.
      apply Permutation_app_comm.
  - intros Hstatus Hfew. unfold nextRound.
    rewrite bool_decide_eq_false_2 by exact Hstatus. simpl.
    change (activePlayers (upd ?f (usedRandom ?n (usedUuid ?m sv))))
      with (activePlayers sv).
    destruct (Nat.ltb_spec (length (activePlayers sv)) 2) as [_|?]; [|lia].
    eexists. split; [reflexivity|].
    destruct (length (activePlayers sv) =? 1); split; reflexivity.
Qed.

(** The round of [firstRound] has just begun when [nextRound] is called:
    the status is PLAYING, and the call deals new hands all the same. *)
Lemma nextRound_restarts_a_round_in_play :
  ∃ sv sv',
    run (take 3 firstRound) lobby = Ok sv
    ∧ GameState.status (state sv) = GameStatus.PLAYING
    ∧ nextRound sv = Ok sv'
    ∧ GameState.status (state sv') = GameStatus.PLAYING
    ∧ (Player.hand <$> players sv') ≠ (Player.hand <$> players sv)
    ∧ GameState.deck (state sv') ≠ GameState.deck (state sv).
Proof.
  eexists _, _. split; [vm_compute; reflexivity|].
  split; [reflexivity|]. split; [vm_compute; reflexivity|].
  split; [reflexivity|]. split; vm_compute; discriminate.
Qed.

(** ** The Uno flag *)

(** A session in which a player holds the flag with three cards: Bob
    calls Uno on two cards, then draws. *)
Lemma hasCalledUno_survives_a_draw :
  ∃ sv p,
    run unoThenDraw lobby = Ok sv
    ∧ GameState.status (state sv) = GameStatus.PLAYING
    ∧ players sv !! 1 = Some p
    ∧ Player.hasCalledUno p = true
    ∧ length (Player.hand p) = 3.
Proof.
  eexists _, _. split; [vm_compute; reflexivity|].
  split; [reflexivity|]. split; [reflexivity|]. split; reflexivity.
Qed.

(** [handleRoundWin] changes scores and elimination flags only. *)
Lemma handleRoundWin_fixed {B} (g : Player.t → B) w sv sv' :
  (∀ n p, g (Player.set_score n p) = g p) →
  (∀ p, g (Player.set_isEliminated true p) = g p) →
  handleRoundWin w sv = Ok sv' →
  g <$> players sv' = g <$> players sv.
Proof.
  intros Hscore Helim. unfold handleRoundWin, getPlayer.
  destruct (players (setTimer false sv) !! w) as [roundWinner|]; [|discriminate].
  simpl. destruct (GameState.mode (state sv)).
  - intros Hrun. injection Hrun as Hrun. subst sv'. reflexivity.
  - intros Hrun. injection Hrun as Hrun. subst sv'.
    change (players (notify ?x)) with (players x).
    set (sv8 := upd _ (upd _ (setTimer false sv))).
    assert (H8 : g <$> players sv8 = g <$> players sv).
    { unfold sv8, players. simpl. rewrite <- list_fmap_compose.
      apply list_fmap_ext. intros ? p ?. simpl. unfold scoreRound.
      destruct (Player.active p); [case_bool_decide|]; auto. }
    assert (H9 : g <$> players (eliminateHighest sv8) = g <$> players sv8).
    { unfold eliminateHighest.
      destruct (head _) as [h|]; [|reflexivity].
      destruct (0 <? Player.score h); [|reflexivity].
      destruct (list_find _ _) as [[e pe]|]; [|reflexivity].
      unfold players. simpl. apply fmap_alter_fixed. exact Helim. }
    rewrite <- H8, <- H9. unfold crownLastRemaining.
    destruct (_ =? 1); reflexivity.
Qed.

Lemma handleRoundWin_hands w sv sv' :
  handleRoundWin w sv = Ok sv' →
  Player.hand <$> players sv' = Player.hand <$> players sv.
Proof. apply handleRoundWin_fixed; reflexivity. Qed.

(** The stages of a play before [finishPlay] raise no Uno flag. *)
Lemma flags_after_effects cardIndex penalty nextP extra cur (ps : list Player.t) i p5 :
  alter (Player.push_hand extra) nextP (alter (afterPlay cardIndex penalty) cur ps) !! i
    = Some p5 →
  Player.hasCalledUno p5 = true →
  ∃ p, ps !! i = Some p ∧ Player.hasCalledUno p = true.
Proof.
  intros Hp5 Hflag.
  assert (Hlow : ∀ p, Player.hasCalledUno (afterPlay cardIndex penalty p) = true →
                      Player.hasCalledUno p = true).
  { intros p. unfold afterPlay. destruct (1 <? _); simpl; [discriminate|auto]. }
  destruct (decide (nextP = i)) as [->|Hn], (decide (cur = i)) as [->|Hc];
    rewrite ?list_lookup_alter_eq, ?list_lookup_alter_ne in Hp5 by assumption;
    rewrite ?list_lookup_alter_eq, ?list_lookup_alter_ne in Hp5 by assumption;
    destruct (ps !! i) as [p|]; simpl in Hp5; try discriminate;
    injection Hp5 as <-; exists p; split; auto.
Qed.

(** C9, as the code has it. The flag is raised by [callUno] only, and
    only for a player who holds at most two cards; after an accepted play
    at a table of two or more active players the acting player does not
    hold the flag together with more than one card, and no seat holds a
    flag it did not hold before; and [drawCard] leaves every flag as it
    is, so that a player who has called Uno and then draws keeps the flag
    over a growing hand. *)
Theorem hasCalledUno_raised_on_small_hand_reset_on_play_only :
  (∀ sv playerId i p',
     players (callUno playerId sv) !! i = Some p' →
     Player.hasCalledUno p' = true →
     ∃ p, players sv !! i = Some p
          ∧ Player.hand p' = Player.hand p
          ∧ (Player.hasCalledUno p = true
             ∨ (Player.id p = playerId ∧ length (Player.hand p) ≤ 2)))
  ∧ (∀ sv sv' playerId cardId wildColor player cardIndex card,
       accepted sv playerId cardId player cardIndex card →
       2 ≤ length (activePlayers sv) →
       playCard playerId cardId wildColor sv = Ok sv' →
       (∀ p', players sv' !! GameState.currentPlayerIndex (state sv) = Some p' →
              1 < length (Player.hand p') →
              Player.hasCalledUno p' = false)
       ∧ (∀ i p', players sv' !! i = Some p' →
                  Player.hasCalledUno p' = true →
                  ∃ p, players sv !! i = Some p ∧ Player.hasCalledUno p = true))
  ∧ (∀ sv sv' playerId,
       drawCard playerId sv = Ok sv' →
       Player.hasCalledUno <$> players sv' = Player.hasCalledUno <$> players sv).
Proof.
  split; [|split].
  - intros sv playerId i p' Hp' Hflag. unfold callUno in Hp'.
    destruct (list_find (λ p, Player.id p = playerId) (players sv))
      as [[i0 player]|] eqn:Hfind; [|eauto].
    apply list_find_Some in Hfind as (Hplayer & Hid & _).
    destruct (Nat.leb_spec (length (Player.hand player)) 2) as [Hsmall|_]; [|eauto].
    change (players (notify ?x)) with (players x) in Hp'.
    unfold players in Hp'. simpl in Hp'. fold (players sv) in Hp'.
    destruct (decide (i0 = i)) as [->|Hne].
    + rewrite list_lookup_alter_eq, Hplayer in Hp'. injection Hp' as <-.
      exists player. auto.
    + rewrite list_lookup_alter_ne in Hp' by exact Hne. eauto.
  - intros sv sv' playerId cardId wildColor player cardIndex card
      Hacc Htwo Hplay.
    rewrite (playCard_accepted _ _ _ _ _ _ _ Hacc) in Hplay.
    destruct Hacc as (_ & Hplayer & _ & _).
    set (cur := GameState.currentPlayerIndex (state sv)) in *.
    assert (Hsome : Exists (λ p, Player.active p = true) (players sv)).
    { unfold activePlayers in Htwo.
      destruct (filter (λ p, Player.active p = true) (players sv)) as [|x l] eqn:Hf;
        [simpl in Htwo; lia|].
      assert (Hx : x ∈ filter (λ p, Player.active p = true) (players sv))
        by (rewrite Hf; apply elem_of_cons; auto).
      apply list_elem_of_filter in Hx as [Hax Hx].
      apply Exists_exists. eauto. }
    destruct (applyPlay_effects cur cardIndex card wildColor player sv Hplayer
                (λ _, Hsome))
      as (sv5 & penalty & nextP & extra & Hrun & Hps5 & _ & _ & _ & Hextra).
    rewrite Hrun in Hplay.
    destruct (acting_player_after cur cardIndex penalty nextP extra player (players sv)
                Hplayer) as (p5 & mine & Hp5 & Hhand5 & Hflag5 & Hmine).
    rewrite <- Hps5 in Hp5.
    assert (Hnone : mine = []).
    { destruct Hmine as [?|[-> ->]]; [assumption|].
      destruct (makesNextDraw card); [|exact Hextra].
      destruct Hextra as (q & _ & _ & Hnext).
      exfalso. exact (next_seat_is_other sv player cur Hplayer Htwo Hnext eq_refl). }
    subst mine. rewrite app_nil_r in Hhand5.
    assert (Hact5 : Player.active <$> players sv5 = Player.active <$> players sv).
    { rewrite Hps5, !fmap_alter_fixed; [reflexivity| |]; intros.
      - apply afterPlay_active.
      - reflexivity. }
    (* hands and flags are those [finishPlay] is entered with *)
    assert (Hsame : Player.hand <$> players sv' = Player.hand <$> players sv5
                    ∧ Player.hasCalledUno <$> players sv'
                      = Player.hasCalledUno <$> players sv5).
    { destruct (Player.hand p5) as [|c5 h5] eqn:Hh5.
      - unfold finishPlay, getPlayer in Hplay. rewrite Hp5 in Hplay. simpl in Hplay.
        rewrite Hh5 in Hplay. simpl in Hplay. split.
        + exact (handleRoundWin_hands _ _ _ Hplay).
        + exact (handleRoundWin_fixed Player.hasCalledUno cur sv5 sv'
                   (λ _ _, eq_refl) (λ _, eq_refl) Hplay).
      - destruct (finishPlay_advance cur
                    (nextOffsetOf card (length (activePlayers sv))) sv5 p5 Hp5)
          as (i & q & _ & _ & _ & Hfin).
        + rewrite Hh5. discriminate.
        + apply nextOffsetOf_pos.
        + eapply Exists_active_fmap; [symmetry; exact Hact5|exact Hsome].
        + rewrite Hfin in Hplay. injection Hplay as <-. split; reflexivity. }
    destruct Hsame as [Hhands Hflags].
    assert (Hseat : ∀ i p', players sv' !! i = Some p' →
              ∃ q, players sv5 !! i = Some q
                   ∧ Player.hand q = Player.hand p'
                   ∧ Player.hasCalledUno q = Player.hasCalledUno p').
    { intros i p' Hp'.
      assert (Hh : Player.hand <$> players sv5 !! i = Some (Player.hand p'))
        by (rewrite <- list_lookup_fmap, <- Hhands, list_lookup_fmap, Hp'; reflexivity).
      assert (Hf : Player.hasCalledUno <$> players sv5 !! i
                   = Some (Player.hasCalledUno p'))
        by (rewrite <- list_lookup_fmap, <- Hflags, list_lookup_fmap, Hp'; reflexivity).
      destruct (players sv5 !! i) as [q|]; [|discriminate].
      simpl in Hh, Hf. exists q. split; [reflexivity|]. split; congruence. }
    split.
    + intros p' Hp' Hlong.
      destruct (Hseat cur p' Hp') as (q & Hq & Hhq & Hfq).
      rewrite Hp5 in Hq. injection Hq as <-.
      rewrite <- Hfq, Hflag5. rewrite <- Hhq, Hhand5 in Hlong.
      apply Nat.ltb_lt in Hlong. rewrite Hlong. reflexivity.
    + intros i p' Hp' Hflag.
      destruct (Hseat i p' Hp') as (q & Hq & _ & Hfq).
      rewrite Hps5 in Hq.
      apply (flags_after_effects cardIndex penalty nextP extra cur (players sv) i q Hq).
      congruence.
  - intros sv sv' playerId Hdraw. unfold drawCard in Hdraw.
    case_bool_decide as Hturn; [injection Hdraw as <-; reflexivity|].
    apply findIndex_Some in Hturn as (q & Hq & _).
    destruct (drawCards_frame (GameState.currentPlayerIndex (state sv)) 1 sv
                (lookup_lt_Some _ _ _ Hq))
      as (sv1 & drawn & Hrun & (Hps1 & _ & _) & _).
    rewrite Hrun in Hdraw. simpl in Hdraw.
    assert (Hflags : Player.hasCalledUno <$> players sv1
                     = Player.hasCalledUno <$> players sv).
    { rewrite Hps1. apply fmap_alter_fixed. reflexivity. }
    destruct (getPlayer _ sv1) as [player| |]; simpl in Hdraw; try discriminate.
    unfold advanceTurn in Hdraw.
    destruct (getNextPlayerIndex 1 _) as [i| |]; simpl in Hdraw; try discriminate.
    injection Hdraw as <-. exact Hflags.
Qed.

(** ** The card count *)

Lemma hands_alter_push (ps : list Player.t) cs : ∀ i,
  i < length ps →
  concat (Player.hand <$> alter (Player.push_hand cs) i ps)
  ≡ₚ cs ++ concat (Player.hand <$> ps).
Proof.
  induction ps as [|p ps IH]; intros i Hi; [simpl in Hi; lia|].
  destruct i as [|i].
  - change (alter (Player.push_hand cs) 0 (p :: ps)) with (Player.push_hand cs p :: ps).
    rewrite !fmap_cons, !concat_cons. simpl Player.hand. solve_perm.
  - change (alter (Player.push_hand cs) (S i) (p :: ps))
      with (p :: alter (Player.push_hand cs) i ps).
    rewrite !fmap_cons, !concat_cons, IH by (simpl in Hi; lia). solve_perm.
Qed.

Lemma hands_alter_afterPlay (ps : list Player.t) cardIndex card penalty player : ∀ cur,
  ps !! cur = Some player →
  Player.hand player !! cardIndex = Some card →
  card :: concat (Player.hand <$> alter (afterPlay cardIndex penalty) cur ps)
  ≡ₚ penalty ++ concat (Player.hand <$> ps).
Proof.
  induction ps as [|p ps IH]; intros cur Hp Hcard; [discriminate|].
  destruct cur as [|cur].
  - injection Hp as ->.
    change (alter (afterPlay cardIndex penalty) 0 (player :: ps))
      with (afterPlay cardIndex penalty player :: ps).
    rewrite !fmap_cons, !concat_cons, afterPlay_hand.
    transitivity (penalty ++ (card :: delete cardIndex (Player.hand player))
                    ++ concat (Player.hand <$> ps)); [solve_perm|].
    apply Permutation_app_head, Permutation_app_tail. symmetry.
    apply delete_Permutation, Hcard.
  - change (alter (afterPlay cardIndex penalty) (S cur) (p :: ps))
      with (p :: alter (afterPlay cardIndex penalty) cur ps).
    rewrite !fmap_cons, !concat_cons.
    transitivity (Player.hand p
                    ++ card :: concat (Player.hand <$>
                                         alter (afterPlay cardIndex penalty) cur ps));
      [solve_perm|].
    rewrite (IH cur Hp Hcard). solve_perm.
Qed.

Lemma handleRoundWin_piles w sv sv' :
  handleRoundWin w sv = Ok sv' →
  GameState.deck (state sv') = GameState.deck (state sv)
  ∧ GameState.discardPile (state sv') = GameState.discardPile (state sv).
Proof.
  unfold handleRoundWin, getPlayer.
  destruct (players (setTimer false sv) !! w) as [roundWinner|]; [|discriminate].
  simpl. destruct (GameState.mode (state sv)).
  - intros Hrun. injection Hrun as Hrun. subst sv'. split; reflexivity.
  - intros Hrun. injection Hrun as Hrun. subst sv'.
    unfold crownLastRemaining, eliminateHighest.
    destruct (_ =? 1); simpl;
      (destruct (head _) as [h|]; [|split; reflexivity]);
      (destruct (0 <? Player.score h); [|split; reflexivity]);
      (destruct (list_find _ _) as [[e pe]|]; split; reflexivity).
Qed.

(** An accepted play moves cards between deck, discard pile and hands and
    neither makes nor loses one. *)
Lemma playCard_moves_cards sv sv' playerId cardId wildColor player cardIndex card :
  accepted sv playerId cardId player cardIndex card →
  Exists (λ p, Player.active p = true) (players sv) →
  playCard playerId cardId wildColor sv = Ok sv' →
  allCards sv' ≡ₚ allCards sv.
Proof.
  intros Hacc Hsome Hplay.
  rewrite (playCard_accepted _ _ _ _ _ _ _ Hacc) in Hplay.
  destruct Hacc as (_ & Hplayer & Hfind & _).
  apply list_find_Some in Hfind as (Hcard & _ & _).
  set (cur := GameState.currentPlayerIndex (state sv)) in *.
  destruct (applyPlay_effects cur cardIndex card wildColor player sv Hplayer
              (λ _, Hsome))
    as (sv5 & penalty & nextP & extra & Hrun & Hps5 & Hperm5 & _ & _ & Hextra).
  rewrite Hrun in Hplay.
  assert (Hact5 : Player.active <$> players sv5 = Player.active <$> players sv).
  { rewrite Hps5, !fmap_alter_fixed; [reflexivity| |]; intros.
    - apply afterPlay_active.
    - reflexivity. }
  (* the cards when [finishPlay] is entered *)
  assert (Hhands5 : concat (Player.hand <$> players sv5)
                    ≡ₚ extra ++ concat (Player.hand <$>
                                          alter (afterPlay cardIndex penalty) cur
                                            (players sv))).
  { rewrite Hps5. destruct (makesNextDraw card).
    - destruct Hextra as (q & Hq & _ & _). apply hands_alter_push.
      rewrite length_alter. eapply lookup_lt_Some; eauto.
    - subst extra. rewrite alter_push_hand_nil. reflexivity. }
  assert (Hall5 : allCards sv5 ≡ₚ allCards sv).
  { apply (Permutation_cons_inv (a := card)).
    unfold allCards. fold (players sv5) (players sv).
    rewrite Hhands5.
    transitivity
      (GameState.deck (state sv5) ++ GameState.discardPile (state sv5) ++ extra
       ++ card :: concat (Player.hand <$>
                            alter (afterPlay cardIndex penalty) cur (players sv)));
      [solve_perm|].
    rewrite (hands_alter_afterPlay (players sv) cardIndex card penalty player cur
               Hplayer Hcard).
    transitivity
      ((GameState.deck (state sv5) ++ GameState.discardPile (state sv5)
        ++ penalty ++ extra) ++ concat (Player.hand <$> players sv));
      [solve_perm|].
    rewrite Hperm5. solve_perm. }
  rewrite <- Hall5.
  unfold finishPlay in Hplay.
  destruct (getPlayer cur sv5) as [p5| |]; simpl in Hplay; try discriminate.
  destruct (length (Player.hand p5) =? 0).
  - pose proof (handleRoundWin_hands _ _ _ Hplay) as Hh.
    destruct (handleRoundWin_piles _ _ _ Hplay) as [Hd Hp].
    unfold allCards. rewrite Hd, Hp. fold (players sv') (players sv5).
    rewrite Hh. reflexivity.
  - unfold advanceTurn in Hplay.
    destruct (getNextPlayerIndex _ _) as [i| |]; simpl in Hplay; try discriminate.
    injection Hplay as <-. reflexivity.
Qed.

(** So does [drawCard]. *)
Lemma drawCard_moves_cards sv sv' playerId :
  drawCard playerId sv = Ok sv' → allCards sv' ≡ₚ allCards sv.
Proof.
  intros Hdraw. unfold drawCard in Hdraw.
  case_bool_decide as Hturn; [injection Hdraw as <-; reflexivity|].
  apply findIndex_Some in Hturn as (q & Hq & _).
  destruct (drawCards_frame (GameState.currentPlayerIndex (state sv)) 1 sv
              (lookup_lt_Some _ _ _ Hq))
    as (sv1 & drawn & Hrun & (Hps1 & Hperm1 & _) & _).
  rewrite Hrun in Hdraw. simpl in Hdraw.
  assert (Hall1 : allCards sv1 ≡ₚ allCards sv).
  { unfold allCards. fold (players sv1) (players sv).
    rewrite Hps1, hands_alter_push by (eapply lookup_lt_Some; eauto).
    transitivity
      ((GameState.deck (state sv1) ++ GameState.discardPile (state sv1) ++ drawn)
       ++ concat (Player.hand <$> players sv)); [solve_perm|].
    rewrite Hperm1. solve_perm. }
  rewrite <- Hall1.
  destruct (getPlayer _ sv1) as [player| |]; simpl in Hdraw; try discriminate.
  unfold advanceTurn in Hdraw.
  destruct (getNextPlayerIndex 1 _) as [i| |]; simpl in Hdraw; try discriminate.
  injection Hdraw as <-. reflexivity.
Qed.

Lemma dealStart_spec (ps : list Player.t) : ∀ deck,
  ∃ ps' deck',
    dealStart ps deck = (ps', deck')
    ∧ length ps' = length ps
    ∧ concat (Player.hand <$> ps') ++ deck' = deck.
Proof.
  induction ps as [|p ps IH]; intros deck.
  - exists [], deck. auto.
  - simpl. destruct (Player.isSpectator p); simpl.
    + destruct (IH deck) as (ps' & deck' & Hrun & Hlen & Hcards).
      rewrite Hrun. eexists _, deck'. split; [reflexivity|].
      split; [simpl; lia|]. rewrite fmap_cons, concat_cons. exact Hcards.
    + destruct (IH (drop 7 deck)) as (ps' & deck' & Hrun & Hlen & Hcards).
      rewrite Hrun. eexists _, deck'. split; [reflexivity|].
      split; [simpl; lia|].
      rewrite fmap_cons, concat_cons, <- app_assoc, Hcards.
      exact (take_drop 7 deck).
Qed.

(** Right after a [startGame] that returns, the deck, the discard pile
    and the hands are the 108 cards of the game. *)
Lemma startGame_deals_the_deck sv sv' :
  2 ≤ length (players sv) →
  startGame sv = Ok sv' →
  face <$> allCards sv' ≡ₚ deckFaces ∧ length (allCards sv') = 108.
Proof.
  intros Htwo Hstart.
  assert (Hfaces : face <$> allCards sv' ≡ₚ deckFaces).
  { unfold startGame in Hstart.
    destruct (Nat.ltb_spec (length (players sv)) 2) as [?|_]; [lia|].
    simpl in Hstart.
    change (players (usedRandom ?n (usedUuid ?m sv))) with (players sv) in Hstart.
    set (deck := generateDeck (uuidv4 sv) (uuidCalls sv) (random sv) (randomCalls sv))
      in Hstart.
    destruct (dealStart_spec (players sv) deck) as (ps' & deck' & Hdeal & _ & Hcards).
    rewrite Hdeal in Hstart.
    destruct (openingCard deck') as [[firstCard deck'']| |] eqn:Hopen;
      simpl in Hstart; try discriminate.
    destruct (skipSpectators (length ps') ps' 0) as [i| |]; simpl in Hstart;
      try discriminate.
    injection Hstart as <-. unfold allCards, players. simpl.
    rewrite <- (generateDeck_faces (uuidv4 sv) (uuidCalls sv) (random sv)
                  (randomCalls sv)).
    fold deck. apply fmap_Permutation. rewrite <- Hcards.
    assert (Hperm : deck'' ++ [firstCard] ≡ₚ deck').
    { unfold openingCard in Hopen. clear -Hopen.
      revert Hopen. generalize (length deck') at 1. intros fuel. revert deck'.
      induction fuel as [|fuel IH]; intros deck' Hopen; simpl in Hopen;
        (destruct (pop deck') as [[c d]|] eqn:Hpop; [|discriminate]);
        apply pop_Some in Hpop; subst deck';
        case_bool_decide; try discriminate.
      - injection Hopen as <- <-. reflexivity.
      - rewrite (IH _ Hopen). apply Permutation_cons_append.
      - injection Hopen as <- <-. reflexivity. }
    transitivity ((deck'' ++ [firstCard]) ++ concat (Player.hand <$> ps'));
      [solve_perm|].
    rewrite Hperm. solve_perm. }
  split; [exact Hfaces|].
  rewrite <- (length_fmap face), Hfaces. reflexivity.
Qed.

(** C1 fails on the code after a round with an elimination. In the
    session [firstRound] Cy is eliminated with six cards in hand;
    [handleRoundWin] leaves that hand where it is and so does [nextRound],
    which deals a whole new deck to the two survivors: right after
    [nextRound] the deck, the discard pile and the hands hold 114 cards,
    not 108. *)
Theorem nextRound_leaves_the_eliminated_hand_in_play :
  ∃ sv' cy,
    run firstRound lobby = Ok roundOver
    ∧ GameState.status (state roundOver) = GameStatus.ROUND_OVER
    ∧ length (allCards roundOver) = 108
    ∧ nextRound roundOver = Ok sv'
    ∧ GameState.status (state sv') = GameStatus.PLAYING
    ∧ players sv' !! 2 = Some cy
    ∧ Player.isEliminated cy = true
    ∧ length (Player.hand cy) = 6
    ∧ length (allCards sv') = 114.
Proof.
  eexists _, _. split; [vm_compute; reflexivity|].
  split; [vm_compute; reflexivity|]. split; [vm_compute; reflexivity|].
  split; [vm_compute; reflexivity|]. split; [reflexivity|].
  split; [reflexivity|]. split; [reflexivity|]. split; vm_compute; reflexivity.
Qed.

(** ** Instances *)

Lemma playCard_rejected_is_noop_witness :
  playCard "B" "b3" None tableTwoCards = Ok tableTwoCards
  ∧ playCard "A" "w1" None tableTwoCards = Ok tableTwoCards
  ∧ playCard "A" "g7" None tableTwoCards = Ok tableTwoCards.
Proof.
  split; [|split].
  - apply playCard_rejected_is_noop. left.
    intros p Hp. vm_compute in Hp. injection Hp as <-. vm_compute. discriminate.
  - apply playCard_rejected_is_noop. right. left.
    exists (seatedPlayer "A" [red5; green7] false). split; [reflexivity|].
    intros c Hc. vm_compute in Hc.
    apply elem_of_cons in Hc as [->|Hc]; [vm_compute; discriminate|].
    apply elem_of_cons in Hc as [->|Hc]; [vm_compute; discriminate|].
    apply elem_of_nil in Hc as [].
  - apply playCard_rejected_is_noop. right. right.
    exists (seatedPlayer "A" [red5; green7] false), red9.
    split; [reflexivity|]. split; [reflexivity|].
    intros c Hc Hid. vm_compute in Hc.
    apply elem_of_cons in Hc as [->|Hc]; [vm_compute in Hid; discriminate|].
    apply elem_of_cons in Hc as [->|Hc]; [reflexivity|].
    apply elem_of_nil in Hc as [].
Defined.

Lemma tableTwoCards_accepts :
  accepted tableTwoCards "A" "r5" (seatedPlayer "A" [red5; green7] false) 0 red5.
Proof. repeat split. Defined.

(** The example of C3: A plays the red 5 from [red 5, green 7] without
    having called Uno. The penalty is the blue 4 from the top of the deck:
    A ends with the green 7 and the blue 4, B's hand is as it was, and the
    turn is B's. *)
Lemma playCard_penalises_forgotten_uno_witness :
  playCard "A" "r5" None tableTwoCards = Ok tableTwoCardsPlayed
  ∧ 2 ≤ length (activePlayers tableTwoCards)
  ∧ Player.hand <$> players tableTwoCards = [[red5; green7]; [blue3; yellow2]]
  ∧ GameState.deck (state tableTwoCards) = [yellow1; blue4]
  ∧ Player.hand <$> players tableTwoCardsPlayed = [[green7; blue4]; [blue3; yellow2]]
  ∧ GameState.deck (state tableTwoCardsPlayed) = [yellow1]
  ∧ GameState.log (state tableTwoCardsPlayed) = ["A forgot UNO! +1 Card Penalty."]
  ∧ GameState.status (state tableTwoCardsPlayed) = GameStatus.PLAYING
  ∧ GameState.winner (state tableTwoCardsPlayed) = None
  ∧ GameState.currentPlayerIndex (state tableTwoCardsPlayed) = 1.
Proof.
  assert (Hrun : playCard "A" "r5" None tableTwoCards = Ok tableTwoCardsPlayed)
    by (vm_compute; reflexivity).
  assert (Htwo : 2 ≤ length (activePlayers tableTwoCards)) by (vm_compute; lia).
  destruct (playCard_penalises_forgotten_uno tableTwoCards "A" "r5" None
              (seatedPlayer "A" [red5; green7] false) 0 red5 tableTwoCards_accepts
              eq_refl eq_refl)
    as (sv' & player' & penalty & extra & Hrun' & _ & _ & _ & _ & _ & _ & _
        & Hlog & Hstatus & Hwinner & _).
  - apply Exists_cons_hd. reflexivity.
  - rewrite Hrun in Hrun'. injection Hrun' as <-.
    split; [exact Hrun|]. split; [exact Htwo|].
    split; [reflexivity|]. split; [reflexivity|].
    split; [reflexivity|]. split; [reflexivity|].
    split; [exact Hlog|]. split; [exact Hstatus|]. split; [exact Hwinner|].
    reflexivity.
Defined.

Lemma tableReverse_accepts :
  accepted tableReverse "A" "rR"
    (seatedPlayer "A" [redReverse; green7; red5] false) 0 redReverse.
Proof. repeat split. Defined.

Lemma tableReverseThree_accepts :
  accepted tableReverseThree "A" "rR"
    (seatedPlayer "A" [redReverse; green7; red5] false) 0 redReverse.
Proof. repeat split. Defined.

(** The examples of C7. At the table of two, A's reverse leaves the
    direction clockwise and the turn with A. At the table of three, with
    [A, B, C] seated clockwise, it turns the direction and the turn goes to
    C, the seat before A's. *)
Lemma playCard_reverse_with_two_active_acts_as_skip_witness :
  (length (activePlayers tableReverse) = 2
   ∧ GameState.currentPlayerIndex (state tableReverse) = 0
   ∧ playCard "A" "rR" None tableReverse = Ok tableReversePlayed
   ∧ GameState.direction (state tableReversePlayed) = Direction.clockwise
   ∧ GameState.currentPlayerIndex (state tableReversePlayed) = 0)
  ∧ (length (activePlayers tableReverseThree) = 3
     ∧ GameState.currentPlayerIndex (state tableReverseThree) = 0
     ∧ playCard "A" "rR" None tableReverseThree = Ok tableReverseThreePlayed
     ∧ GameState.direction (state tableReverseThreePlayed) = Direction.counterClockwise
     ∧ GameState.currentPlayerIndex (state tableReverseThreePlayed) = 2).
Proof.
  split.
  - assert (Hrun : playCard "A" "rR" None tableReverse = Ok tableReversePlayed)
      by (vm_compute; reflexivity).
    destruct (playCard_reverse_with_two_active_acts_as_skip tableReverse "A" "rR" None
                (seatedPlayer "A" [redReverse; green7; red5] false) 0 redReverse
                tableReverse_accepts eq_refl eq_refl)
      as (sv' & Hrun' & Htwo & _).
    + vm_compute. discriminate.
    + rewrite Hrun in Hrun'. injection Hrun' as <-.
      destruct (Htwo eq_refl) as (Hdir & _ & Hturn).
      split; [reflexivity|]. split; [reflexivity|]. split; [exact Hrun|].
      split; [exact Hdir|exact Hturn].
  - assert (Hrun : playCard "A" "rR" None tableReverseThree
                   = Ok tableReverseThreePlayed)
      by (vm_compute; reflexivity).
    destruct (playCard_reverse_with_two_active_acts_as_skip tableReverseThree "A" "rR"
                None (seatedPlayer "A" [redReverse; green7; red5] false) 0 redReverse
                tableReverseThree_accepts eq_refl eq_refl)
      as (sv' & Hrun' & _ & Hthree).
    + vm_compute. discriminate.
    + rewrite Hrun in Hrun'. injection Hrun' as <-.
      destruct Hthree as (Hdir & _ & (k & Hk & Hseat & _ & Hfirst) & _).
      { vm_compute. discriminate. }
      split; [reflexivity|]. split; [reflexivity|]. split; [exact Hrun|].
      split; [exact Hdir|].
      destruct k as [|[|k]]; [lia|exact Hseat|].
      specialize (Hfirst 1 ltac:(lia)). vm_compute in Hfirst. discriminate.
Defined.

Lemma tableLastCard_accepts :
  accepted tableLastCard "A" "r5" (seatedPlayer "A" [red5] false) 0 red5.
Proof. repeat split. Defined.

(** The round-resolution example of the specification: three active
    players, the winner's hand empty, the others left with 35 and 62
    points. *)
Lemma playCard_empty_hand_resolves_round_witness :
  playCard "A" "r5" None tableLastCard = Ok tableLastCardPlayed
  ∧ NoDup (Player.id <$> players tableLastCard)
  ∧ Player.score <$> players tableLastCardPlayed = [0; 35; 62]
  ∧ Player.isEliminated <$> players tableLastCardPlayed = [false; false; true]
  ∧ GameState.status (state tableLastCardPlayed) = GameStatus.ROUND_OVER
  ∧ GameState.winner (state tableLastCardPlayed) = None.
Proof.
  assert (Hrun : playCard "A" "r5" None tableLastCard = Ok tableLastCardPlayed)
    by (vm_compute; reflexivity).
  assert (Hnd : NoDup (Player.id <$> players tableLastCard))
    by (apply (bool_decide_unpack _); vm_compute; exact I).
  pose proof (playCard_empty_hand_resolves_round tableLastCard tableLastCardPlayed
                "A" "r5" None (seatedPlayer "A" [red5] false)
                (seatedPlayer "A" [] false) 0 red5
                tableLastCard_accepts Hnd eq_refl Hrun eq_refl eq_refl) as Hres.
  destruct Hres as (_ & _ & Hstatus).
  split; [exact Hrun|]. split; [exact Hnd|].
  split; [reflexivity|]. split; [reflexivity|]. exact Hstatus.
Defined.

Lemma nextRound_only_guards_game_over_witness :
  GameState.status (state roundOver) = GameStatus.ROUND_OVER
  ∧ length (activePlayers roundOver) = 2
  ∧ NoDup (Player.id <$> players roundOver)
  ∧ ∃ sv' firstCard,
      nextRound roundOver = Ok sv'
      ∧ GameState.status (state sv') = GameStatus.PLAYING
      ∧ Forall2 dealtInRound (players roundOver) (players sv')
      ∧ GameState.discardPile (state sv') = [firstCard]
      ∧ Card.color firstCard ≠ CardColor.black
      ∧ GameState.currentColor (state sv') = Card.color firstCard
      ∧ findIndex (λ p, Player.active p = true) (players roundOver)
        = Some (GameState.currentPlayerIndex (state sv'))
      ∧ face <$> (GameState.deck (state sv') ++ GameState.discardPile (state sv')
                  ++ concat (Player.hand <$> activePlayers sv'))
        ≡ₚ deckFaces.
Proof.
  assert (Hstatus : GameState.status (state roundOver) = GameStatus.ROUND_OVER)
    by (vm_compute; reflexivity).
  assert (Hcount : length (activePlayers roundOver) = 2) by (vm_compute; reflexivity).
  assert (Hnd : NoDup (Player.id <$> players roundOver))
    by (apply (bool_decide_unpack _); vm_compute; exact I).
  split; [exact Hstatus|]. split; [exact Hcount|]. split; [exact Hnd|].
  apply (proj1 (proj2 (nextRound_only_guards_game_over roundOver))).
  - rewrite Hstatus. discriminate.
  - rewrite Hcount. lia.
  - exact Hnd.
Defined.

Lemma tableUnoDrawn_accepts :
  accepted tableUnoDrawn "A" "r5"
    (Player.set_hasCalledUno true (seatedPlayer "A" [red5; green7; blue4] false))
    0 red5.
Proof. repeat split. Defined.

(** The example of C9: a raise, a flag that stays up over three cards, and
    a reset. A holds two cards without the flag and [callUno] raises it; A
    draws, then B draws, and the flag is still up while A holds three
    cards; A then plays the red 5 from these three, holds two, and the
    flag is down. *)
Lemma hasCalledUno_raised_on_small_hand_reset_on_play_only_witness :
  (Player.hasCalledUno <$> players tableTwoCards = [false; false]
   ∧ Player.hand <$> players tableTwoCards = [[red5; green7]; [blue3; yellow2]]
   ∧ Player.hasCalledUno <$> players tableUnoCalled = [true; false]
   ∧ ∃ p, players tableTwoCards !! 0 = Some p
          ∧ Player.id p = "A" ∧ length (Player.hand p) ≤ 2)
  ∧ (drawCard "A" tableUnoCalled = Ok tableUnoDrew
     ∧ drawCard "B" tableUnoDrew = Ok tableUnoDrawn
     ∧ Player.hand <$> players tableUnoDrawn
       = [[red5; green7; blue4]; [blue3; yellow2; yellow1]]
     ∧ Player.hasCalledUno <$> players tableUnoDrawn = [true; false])
  ∧ (playCard "A" "r5" None tableUnoDrawn = Ok tableUnoPlayed
     ∧ 2 ≤ length (activePlayers tableUnoDrawn)
     ∧ Player.hand <$> players tableUnoPlayed
       = [[green7; blue4]; [blue3; yellow2; yellow1]]
     ∧ ∃ p', players tableUnoPlayed !! 0 = Some p'
             ∧ Player.hasCalledUno p' = false).
Proof.
  pose proof hasCalledUno_raised_on_small_hand_reset_on_play_only
    as (Hraise & Hreset & Hdraw).
  assert (HdrawA : drawCard "A" tableUnoCalled = Ok tableUnoDrew)
    by (vm_compute; reflexivity).
  assert (HdrawB : drawCard "B" tableUnoDrew = Ok tableUnoDrawn)
    by (vm_compute; reflexivity).
  assert (Hplay : playCard "A" "r5" None tableUnoDrawn = Ok tableUnoPlayed)
    by (vm_compute; reflexivity).
  assert (Htwo : 2 ≤ length (activePlayers tableUnoDrawn)) by (vm_compute; lia).
  split; [|split].
  - split; [reflexivity|]. split; [reflexivity|]. split; [reflexivity|].
    destruct (Hraise tableTwoCards "A" 0
                (Player.set_hasCalledUno true (seatedPlayer "A" [red5; green7] false))
                eq_refl eq_refl)
      as (p & Hp & _ & Hwhy).
    exists p. split; [exact Hp|].
    destruct Hwhy as [Hup|Hsmall]; [|exact Hsmall].
    injection Hp as <-. discriminate Hup.
  - split; [exact HdrawA|]. split; [exact HdrawB|]. split; [reflexivity|].
    rewrite (Hdraw _ _ _ HdrawB), (Hdraw _ _ _ HdrawA). reflexivity.
  - split; [exact Hplay|]. split; [exact Htwo|]. split; [reflexivity|].
    eexists. split; [reflexivity|].
    apply (proj1 (Hreset tableUnoDrawn tableUnoPlayed "A" "r5" None _ 0 red5
                    tableUnoDrawn_accepts Htwo Hplay) _ eq_refl).
    vm_compute. lia.
Defined.

(** * Properties of sessions and of the other operations *)

(** ** The deck and the score *)

(** X1. [shuffleDeck] returns a permutation of the deck it is given,
    whatever values [Math.random] produces: no card is lost, none is
    doubled, and the length stays. *)
Theorem shuffleDeck_keeps_the_cards {A} (random : nat → nat) (k : nat) (deck : list A) :
  shuffleDeck random k deck ≡ₚ deck
  ∧ length (shuffleDeck random k deck) = length deck.
Proof.
  split; [apply shuffleDeck_Permutation|].
  apply Permutation_length, shuffleDeck_Permutation.
Qed.

Lemma count_deckFaces (f : Face) :
  length (filter (λ x, x = f) deckFaces) = copies f.
Proof.
  destruct f as [[c t] v].
  destruct v as [v|]; [do 10 (destruct v as [|v]; [destruct c, t; vm_compute; reflexivity|])|].
  - destruct c, t; vm_compute; reflexivity.
  - destruct c, t; vm_compute; reflexivity.
Qed.

(** X2. Whatever the ids and the shuffle, [generateDeck] returns 108 cards
    with the composition of the rules: for each of the four colours one
    0, two of each number 1 to 9 and two of each of skip, reverse and
    draw-two; four wilds and four wild draw-fours, all black and without
    a value; and no other card. *)
Theorem generateDeck_holds_the_108_cards_of_the_rules (uuidv4 : nat → string) (u : nat)
    (random : nat → nat) (k : nat) (f : Face) :
  length (generateDeck uuidv4 u random k) = 108
  ∧ length (filter (λ c, face c = f) (generateDeck uuidv4 u random k)) = copies f.
Proof.
  split; [apply generateDeck_length|].
  transitivity (length (filter (λ x : Face, x = f)
                          (face <$> generateDeck uuidv4 u random k))).
  { rewrite <- (filter_fmap_length face (λ x : Face, x = f)). reflexivity. }
  rewrite generateDeck_faces. apply count_deckFaces.
Qed.

Lemma imap_ids (uuidv4 : nat → string) (l : list Face) : ∀ u,
  Card.id <$> imap (λ n '(color, ty, v), Card.mk (uuidv4 (u + n)) color ty v) l
  = uuidv4 <$> seq u (length l).
Proof.
  induction l as [|[[c t] v] l IH]; intros u; [reflexivity|].
  simpl. rewrite Nat.add_0_r. f_equal.
  rewrite <- IH. f_equal. apply imap_ext. intros n [[??]?] _. simpl.
  rewrite Nat.add_succ_r. reflexivity.
Qed.

(** X3. The cards of [generateDeck] have pairwise distinct ids whenever the
    108 values it takes from [uuidv4] are pairwise distinct, so that an
    id names one card of the deck. *)
Theorem generateDeck_ids_are_unique (uuidv4 : nat → string) (u : nat)
    (random : nat → nat) (k : nat) :
  NoDup (uuidv4 <$> seq u 108) →
  NoDup (Card.id <$> generateDeck uuidv4 u random k).
Proof.
  intros Hfresh.
  rewrite generateDeck_Permutation, imap_ids. exact Hfresh.
Qed.

Lemma generateDeck_ids_are_unique_witness :
  NoDup (Card.id <$> generateDeck sampleUuid 0 sampleRandom 0).
Proof.
  apply (generateDeck_ids_are_unique sampleUuid 0 sampleRandom 0).
  apply (bool_decide_unpack (NoDup (sampleUuid <$> seq 0 108))). vm_compute. exact I.
Defined.

Lemma foldl_cardScore (hand : list Card.t) : ∀ total,
  foldl cardScore total hand = total + sum_list (cardPoints <$> hand).
Proof.
  induction hand as [|c hand IH]; intros total; [simpl; lia|].
  rewrite fmap_cons. change (foldl cardScore total (c :: hand))
    with (foldl cardScore (cardScore total c) hand).
  rewrite IH. unfold cardScore, cardPoints. simpl. destruct (Card.type c); lia.
Qed.

(** X4. [calculateHandScore] is the sum over the hand of the points of
    each card: its face value for a number card, 20 for a skip, a reverse
    and a draw-two, 50 for a wild and a wild draw-four (so 0 for the
    empty hand, and the same total in any order of the cards). *)
Theorem calculateHandScore_sums_the_card_points (hand : list Card.t) :
  calculateHandScore hand = sum_list (cardPoints <$> hand).
Proof. unfold calculateHandScore. rewrite foldl_cardScore. reflexivity. Qed.

(** ** Draws *)

Lemma refill_available sv sv1 :
  refill sv = Some sv1 →
  available sv1 = available sv
  ∧ last (GameState.discardPile (state sv1)) = last (GameState.discardPile (state sv))
  ∧ (GameState.deck (state sv1) = [] → available sv = 0).
Proof.
  unfold refill, available.
  destruct (GameState.deck (state sv)) as [|c deck] eqn:Hdeck.
  - destruct (pop (GameState.discardPile (state sv))) as [[top rest]|] eqn:Hpop;
      [|discriminate].
    intros [= <-]. apply pop_Some in Hpop. simpl. rewrite Hpop.
    rewrite (Permutation_length (shuffleDeck_Permutation _ _ rest)).
    rewrite last_snoc, length_app. simpl.
    split; [lia|]. split; [reflexivity|].
    intros Hnil. apply (f_equal length) in Hnil.
    rewrite (Permutation_length (shuffleDeck_Permutation _ _ rest)) in Hnil.
    simpl in Hnil. lia.
  - intros [= <-]. rewrite Hdeck. split; [reflexivity|]. split; [reflexivity|].
    discriminate.
Qed.

Lemma drawCards_available i count : ∀ sv sv',
  drawCards i count sv = Ok sv' →
  available sv' = available sv - Nat.min count (available sv)
  ∧ last (GameState.discardPile (state sv')) = last (GameState.discardPile (state sv)).
Proof.
  induction count as [|count IH]; intros sv sv' Hrun; simpl in Hrun.
  - injection Hrun as <-. split; [simpl; lia|reflexivity].
  - destruct (refill sv) as [sv1|] eqn:Hrefill.
    + destruct (refill_available _ _ Hrefill) as (Hav1 & Htop1 & Hnil1).
      destruct (pop (GameState.deck (state sv1))) as [[card deck']|] eqn:Hpop.
      * apply pop_Some in Hpop.
        destruct (getPlayer i sv1); simpl in Hrun; try discriminate.
        apply IH in Hrun as [Hav Htop].
        set (sv2 := upd (GameState.set_deck deck')
                      (updPlayer i (Player.push_hand [card]) sv1)) in *.
        assert (Hav2 : available sv2 + 1 = available sv1).
        { unfold available, sv2. simpl. rewrite Hpop, length_app. simpl. lia. }
        split; [lia|]. rewrite Htop. exact Htop1.
      * apply pop_None in Hpop. specialize (Hnil1 Hpop).
        apply IH in Hrun as [Hav Htop]. rewrite Htop, Hav, Hav1, Hnil1.
        split; [lia|exact Htop1].
    + injection Hrun as <-. split; [|reflexivity].
      unfold refill in Hrefill. unfold available.
      destruct (GameState.deck (state sv)); [|discriminate].
      destruct (pop (GameState.discardPile (state sv))) as [[??]|] eqn:Hpop;
        [discriminate|].
      apply pop_None in Hpop. rewrite Hpop. simpl. lia.
Qed.

Lemma drawn_length i drawn sv sv' :
  drawnBy i drawn sv sv' →
  last (GameState.discardPile (state sv')) = last (GameState.discardPile (state sv)) →
  available sv' + length drawn = available sv.
Proof.
  intros (_ & Hperm & _) Htop. apply Permutation_length in Hperm.
  rewrite !length_app in Hperm. unfold available.
  destruct (GameState.discardPile (state sv)) as [|c l] using rev_ind;
    destruct (GameState.discardPile (state sv')) as [|c' l'] using rev_ind;
    rewrite ?last_snoc in Htop; try discriminate; simpl in *;
    rewrite ?length_app in *; simpl in *; lia.
Qed.

(** X5. [drawCards] on a seat of the roster always returns. It hands the
    seat as many cards as asked for, or all the cards that can be reached
    (the deck, and the discard pile below its top card, turned over when
    the deck runs out) if these are fewer; the cards only move, and the
    top of the discard pile stays where it is. *)
Theorem drawCards_draws_what_can_be_reached (i count : nat) (sv : MockGameServer.t) :
  i < length (players sv) →
  ∃ sv' drawn,
    drawCards i count sv = Ok sv'
    ∧ drawnBy i drawn sv sv'
    ∧ length drawn = Nat.min count (available sv)
    ∧ last (GameState.discardPile (state sv'))
      = last (GameState.discardPile (state sv)).
Proof.
  intros Hi.
  destruct (drawCards_frame i count sv Hi) as (sv' & drawn & Hrun & Hdrawn & _).
  destruct (drawCards_available i count sv sv' Hrun) as [Hav Htop].
  exists sv', drawn. split; [exact Hrun|]. split; [exact Hdrawn|].
  split; [|exact Htop].
  pose proof (drawn_length i drawn sv sv' Hdrawn Htop). lia.
Qed.

Lemma drawCards_draws_what_can_be_reached_witness :
  ∃ sv' drawn,
    drawCards 1 4 tableTwoCards = Ok sv'
    ∧ drawnBy 1 drawn tableTwoCards sv'
    ∧ length drawn = 2
    ∧ last (GameState.discardPile (state sv')) = Some red9.
Proof.
  apply (drawCards_draws_what_can_be_reached 1 4 tableTwoCards).
  simpl. lia.
Defined.

(** X6. [drawCard] for the player whose turn it is, at a table with an
    active player: the call returns, the player's hand grows by one card
    (by none when neither pile can give one), and the turn passes to the
    next active seat with a fresh 30-second timer, whether or not the card
    drawn could be played. Discard pile top, colour, direction and status
    stay. *)
Theorem drawCard_draws_one_and_passes_the_turn (sv : MockGameServer.t)
    (playerId : string) :
  findIndex (λ p, Player.id p = playerId) (players sv)
    = Some (GameState.currentPlayerIndex (state sv)) →
  Exists (λ p, Player.active p = true) (players sv) →
  ∃ sv' player drawn i q,
    drawCard playerId sv = Ok sv'
    ∧ players sv !! GameState.currentPlayerIndex (state sv) = Some player
    ∧ players sv'
      = alter (Player.push_hand drawn) (GameState.currentPlayerIndex (state sv))
          (players sv)
    ∧ length drawn = Nat.min 1 (available sv)
    ∧ getNextPlayerIndex 1 sv = Ok i
    ∧ GameState.currentPlayerIndex (state sv') = i
    ∧ players sv' !! i = Some q ∧ Player.active q = true
    ∧ GameState.turnTimer (state sv') = 30
    ∧ timerRunning sv' = true
    ∧ GameState.log (state sv')
      = GameState.log (state sv) ++ [Player.name player +:+ " drew a card"]
    ∧ last (GameState.discardPile (state sv'))
      = last (GameState.discardPile (state sv))
    ∧ GameState.currentColor (state sv') = GameState.currentColor (state sv)
    ∧ GameState.direction (state sv') = GameState.direction (state sv)
    ∧ GameState.status (state sv') = GameState.status (state sv).
Proof.
  intros Hturn Hsome. unfold drawCard.
  fold (players sv). rewrite Hturn, bool_decide_eq_false_2 by (intros H; apply H; reflexivity).
  apply findIndex_Some in Hturn as (player & Hplayer & _).
  remember (GameState.currentPlayerIndex (state sv)) as cur eqn:Hcur.
  destruct (drawCards_frame cur 1 sv (lookup_lt_Some _ _ _ Hplayer))
    as (sv1 & drawn & Hrun & Hdrawn & _).
  destruct (drawCards_available cur 1 sv sv1 Hrun) as [Hav Htop].
  pose proof (drawn_length cur drawn sv sv1 Hdrawn Htop) as Hdl.
  assert (Hlen : length drawn = Nat.min 1 (available sv)) by lia.
  destruct Hdrawn as (Hps1 & _ & Hout1).
  rewrite Hrun. simpl.
  assert (Hp1 : players sv1 !! cur = Some (Player.push_hand drawn player)).
  { rewrite Hps1, list_lookup_alter_eq, Hplayer. reflexivity. }
  unfold getPlayer. rewrite Hp1. simpl.
  set (sv2 := upd (GameState.push_log _) sv1).
  assert (Hact : Player.active <$> players sv1 = Player.active <$> players sv).
  { rewrite Hps1. apply fmap_alter_fixed. reflexivity. }
  unfold outsideCards in Hout1.
  assert (Hnext : getNextPlayerIndex 1 (startTurnTimer sv2) = getNextPlayerIndex 1 sv).
  { apply getNextPlayerIndex_ext; simpl; [exact Hact|congruence|].
    congruence. }
  destruct (getNextPlayerIndex_Ok 1 sv ltac:(lia) Hsome) as (i & q & Hi & Hq & Hqa).
  unfold advanceTurn. rewrite Hnext, Hi. simpl.
  assert (Hq1 : ∃ q1, players sv1 !! i = Some q1 ∧ Player.active q1 = true).
  { assert (Hl : (Player.active <$> players sv1) !! i = Some true).
    { rewrite Hact, list_lookup_fmap, Hq. simpl. congruence. }
    rewrite list_lookup_fmap in Hl.
    destruct (players sv1 !! i) as [q1|]; [|discriminate].
    exists q1. split; [reflexivity|]. simpl in Hl. congruence. }
  destruct Hq1 as (q1 & Hq1 & Hq1a).
  eexists _, player, drawn, i, q1. split; [reflexivity|].
  split; [exact Hplayer|]. split; [exact Hps1|]. split; [exact Hlen|].
  split; [reflexivity|]. split; [reflexivity|].
  split; [exact Hq1|]. split; [exact Hq1a|].
  simpl. repeat split; try congruence.
Qed.

Lemma drawCard_draws_one_and_passes_the_turn_witness :
  ∃ sv' player drawn i q,
    drawCard "A" tableTwoCards = Ok sv'
    ∧ players tableTwoCards !! 0 = Some player
    ∧ players sv' = alter (Player.push_hand drawn) 0 (players tableTwoCards)
    ∧ length drawn = 1
    ∧ getNextPlayerIndex 1 tableTwoCards = Ok i
    ∧ GameState.currentPlayerIndex (state sv') = i
    ∧ players sv' !! i = Some q ∧ Player.active q = true
    ∧ GameState.turnTimer (state sv') = 30
    ∧ timerRunning sv' = true
    ∧ GameState.log (state sv') = [] ++ [Player.name player +:+ " drew a card"]
    ∧ last (GameState.discardPile (state sv')) = Some red9
    ∧ GameState.currentColor (state sv') = CardColor.red
    ∧ GameState.direction (state sv') = Direction.clockwise
    ∧ GameState.status (state sv') = GameStatus.PLAYING.
Proof.
  apply (drawCard_draws_one_and_passes_the_turn tableTwoCards "A").
  - reflexivity.
  - apply Exists_cons_hd. reflexivity.
Defined.

(** ** Joining, bots and leaving *)

Lemma filter_active_snoc (ps : list Player.t) p :
  filter (λ p, Player.active p = true) (ps ++ [p])
  = filter (λ p, Player.active p = true) ps ++ (if Player.active p then [p] else []).
Proof.
  rewrite filter_app. f_equal. rewrite filter_cons, filter_nil.
  destruct (decide _) as [H|H]; destruct (Player.active p); congruence.
Qed.

(** X7. [handleJoinRequest] changes the roster at its end only, by one
    player at most, so the seats keep their indices; it never lets the
    roster grow beyond 15 and seats nobody for a known [existingId]. A
    newcomer has the id drawn from [uuidv4], an empty hand, and is a
    spectator exactly when the status is not LOBBY: a late joiner leaves
    the active players as they are. Ids stay unique when the id drawn is
    new, and no card, turn or status is touched. *)
Theorem handleJoinRequest_seats_at_most_one_newcomer (name avatar : string)
    (existingId : option string) (sv : MockGameServer.t) :
  ∃ new,
    players (handleJoinRequest name avatar existingId sv) = players sv ++ new
    ∧ length new ≤ 1
    ∧ (length (players sv) ≤ 15 → length (players sv ++ new) ≤ 15)
    ∧ (∀ eid, existingId = Some eid → eid ≠ EmptyString →
              eid ∈ (Player.id <$> players sv) → new = [])
    ∧ Forall (λ p, Player.id p = uuidv4 sv (uuidCalls sv)
                   ∧ Player.hand p = []
                   ∧ Player.isEliminated p = false
                   ∧ Player.isSpectator p
                     = negb (bool_decide (GameState.status (state sv)
                                          = GameStatus.LOBBY))) new
    ∧ (NoDup (Player.id <$> players sv) →
       uuidv4 sv (uuidCalls sv) ∉ (Player.id <$> players sv) →
       NoDup (Player.id <$> players (handleJoinRequest name avatar existingId sv)))
    ∧ (GameState.status (state sv) ≠ GameStatus.LOBBY →
       activePlayers (handleJoinRequest name avatar existingId sv) = activePlayers sv)
    ∧ allCards (handleJoinRequest name avatar existingId sv) = allCards sv
    ∧ GameState.currentPlayerIndex (state (handleJoinRequest name avatar existingId sv))
      = GameState.currentPlayerIndex (state sv)
    ∧ GameState.status (state (handleJoinRequest name avatar existingId sv))
      = GameState.status (state sv).
Proof.
  unfold handleJoinRequest.
  set (reconnect := match existingId with Some eid => _ | None => false end).
  assert (Hrec : ∀ eid, existingId = Some eid → eid ≠ EmptyString →
                        eid ∈ (Player.id <$> players sv) → reconnect = true).
  { intros eid -> Hne Hin. unfold reconnect.
    rewrite bool_decide_eq_false_2 by exact Hne. simpl.
    apply bool_decide_eq_true_2. apply Exists_exists.
    apply list_elem_of_fmap in Hin as (p & -> & Hp). exists p. auto. }
  destruct reconnect.
  { exists []. rewrite app_nil_r. simpl. repeat split; auto; try constructor. }
  destruct (Nat.leb_spec 15 (length (players sv))) as [Hfull|Hroom].
  { exists []. rewrite app_nil_r. repeat split; auto; try constructor. }
  eexists [_]. unfold players at 1. simpl. split; [reflexivity|].
  split; [lia|]. split; [rewrite length_app; simpl; lia|].
  split; [intros eid H1 H2 H3; discriminate (Hrec eid H1 H2 H3)|].
  split; [repeat constructor|].
  split.
  { intros Hnd Hnew. unfold players. simpl. rewrite fmap_app. simpl.
    apply NoDup_app. split; [exact Hnd|]. split; [|apply NoDup_singleton].
    intros x Hx ->%list_elem_of_singleton. exact (Hnew Hx). }
  split.
  { intros Hlate. unfold activePlayers, players. simpl.
    rewrite filter_active_snoc. unfold Player.active. simpl.
    rewrite bool_decide_eq_false_2 by exact Hlate. simpl. apply app_nil_r. }
  split; [|split; reflexivity].
  unfold allCards, players. simpl. rewrite fmap_app, concat_app. simpl.
  rewrite !app_nil_r. reflexivity.
Qed.

(** X8. [addBot] seats a bot at the end of a roster of fewer than 15 and
    does nothing to a roster of 15. Whatever the status, the bot is
    neither spectator nor eliminated and holds no card: added while a
    round is on, it is one more active player, without a hand. The call
    makes three draws from [Math.random] and one from [uuidv4]. *)
Theorem addBot_seats_an_active_bot_in_any_status (sv : MockGameServer.t) :
  (15 ≤ length (players sv) → addBot sv = sv)
  ∧ (length (players sv) < 15 →
     ∃ bot,
       players (addBot sv) = players sv ++ [bot]
       ∧ Player.id bot = uuidv4 sv (uuidCalls sv)
       ∧ Player.isBot bot = true
       ∧ Player.hand bot = []
       ∧ Player.active bot = true
       ∧ activePlayers (addBot sv) = activePlayers sv ++ [bot]
       ∧ allCards (addBot sv) = allCards sv
       ∧ GameState.status (state (addBot sv)) = GameState.status (state sv)
       ∧ GameState.currentPlayerIndex (state (addBot sv))
         = GameState.currentPlayerIndex (state sv)
       ∧ randomCalls (addBot sv) = randomCalls sv + 3
       ∧ uuidCalls (addBot sv) = uuidCalls sv + 1).
Proof.
  unfold addBot.
  destruct (Nat.leb_spec 15 (length (players sv))) as [Hfull|Hroom].
  { split; [reflexivity|lia]. }
  split; [lia|]. intros _.
  eexists. unfold players at 1. simpl. split; [reflexivity|].
  split; [reflexivity|]. split; [reflexivity|]. split; [reflexivity|].
  split; [reflexivity|].
  split.
  { unfold activePlayers, players. simpl. rewrite filter_active_snoc. reflexivity. }
  split; [|repeat split].
  unfold allCards, players. simpl. rewrite fmap_app, concat_app. simpl.
  rewrite !app_nil_r. reflexivity.
Qed.


Lemma hands_alter_retired (ps : list Player.t) p : ∀ i,
  ps !! i = Some p →
  concat (Player.hand <$> alter retired i ps) ++ Player.hand p
  ≡ₚ concat (Player.hand <$> ps).
Proof.
  induction ps as [|q ps IH]; intros i Hp; [discriminate|].
  destruct i as [|i].
  - injection Hp as ->.
    change (alter retired 0 (p :: ps)) with (retired p :: ps).
    rewrite !fmap_cons, !concat_cons. simpl. solve_perm.
  - change (alter retired (S i) (q :: ps)) with (q :: alter retired i ps).
    rewrite !fmap_cons, !concat_cons, <- (IH i Hp). solve_perm.
Qed.

Lemma list_find_id (ps : list Player.t) i p :
  NoDup (Player.id <$> ps) →
  ps !! i = Some p →
  list_find (λ q, Player.id q = Player.id p) ps = Some (i, p).
Proof.
  intros Hnd Hp. apply list_find_Some. split; [exact Hp|]. split; [reflexivity|].
  intros j q Hq Hj Hid.
  assert (j = i) by (eapply (NoDup_id_inj ps); eauto). lia.
Qed.

Lemma filter_active_length_Exists (ps : list Player.t) :
  0 < length (filter (λ p, Player.active p = true) ps) →
  Exists (λ p, Player.active p = true) ps.
Proof.
  intros Hlen. destruct (filter _ ps) as [|q l] eqn:Hf; [simpl in Hlen; lia|].
  assert (Hin : q ∈ filter (λ p, Player.active p = true) ps)
    by (rewrite Hf; apply elem_of_cons; auto).
  apply list_elem_of_filter in Hin as [Ha Hin].
  apply Exists_exists. eauto.
Qed.

(** X9. [handlePlayerExit] always returns: it calls [advanceTurn] only
    while two active players or more are left, so the seat walk finds a
    seat. It never touches the deck or the discard pile; in the lobby it
    takes every player of that id off the roster, afterwards it keeps all
    seats and their ids. *)
Theorem handlePlayerExit_always_returns (playerId : string) (sv : MockGameServer.t) :
  ∃ sv',
    handlePlayerExit playerId sv = Ok sv'
    ∧ GameState.deck (state sv') = GameState.deck (state sv)
    ∧ GameState.discardPile (state sv') = GameState.discardPile (state sv)
    ∧ (if bool_decide (GameState.status (state sv) = GameStatus.LOBBY)
       then players sv' = filter (λ p, Player.id p ≠ playerId) (players sv)
       else Player.id <$> players sv' = Player.id <$> players sv).
Proof.
  unfold handlePlayerExit. case_bool_decide as Hlobby.
  { eexists. split; [reflexivity|]. repeat split. }
  destruct (list_find _ (GameState.players (state sv))) as [[i player]|];
    [|eexists; split; [reflexivity|]; repeat split].
  destruct (Player.isEliminated player);
    [eexists; split; [reflexivity|]; repeat split|].
  set (sv2 := upd (GameState.push_log _) (updPlayer i _ sv)).
  assert (Hids : Player.id <$> players sv2 = Player.id <$> players sv).
  { unfold sv2, players. simpl. apply fmap_alter_fixed. reflexivity. }
  destruct (length (activePlayers sv2) <=? 1) eqn:Hfew; simpl.
  - case_bool_decide as Hover; simpl.
    + eexists. split; [reflexivity|]. repeat split. exact Hids.
    + destruct (list_find _ _) as [[w p]|];
        eexists; (split; [reflexivity|]); repeat split; exact Hids.
  - apply Nat.leb_gt in Hfew.
    destruct (negb _ && _);
      [|eexists; split; [reflexivity|]; repeat split; exact Hids].
    destruct (getNextPlayerIndex_Ok 1 (startTurnTimer sv2) ltac:(lia))
      as (n & q & Hn & _).
    { apply filter_active_length_Exists.
      change (players (startTurnTimer sv2)) with (players sv2).
      unfold activePlayers in Hfew. lia. }
    unfold advanceTurn. rewrite Hn. simpl.
    eexists. split; [reflexivity|]. repeat split. exact Hids.
Qed.

Lemma filter_none {A} (P : A → Prop) `{∀ x, Decision (P x)} (l : list A) :
  Forall (λ x, ¬ P x) l → filter P l = [].
Proof.
  induction 1 as [|x l Hx _ IH]; [reflexivity|].
  rewrite filter_cons_False by exact Hx. exact IH.
Qed.

Lemma list_find_filter_head {A} (P : A → Prop) `{∀ x, Decision (P x)} (l : list A) w x :
  list_find P l = Some (w, x) → head (filter P l) = Some x.
Proof.
  intros (Hx & HP & Hbefore)%list_find_Some.
  rewrite <- (take_drop_middle l w x Hx), filter_app, filter_cons_True by exact HP.
  assert (Hnil : filter P (take w l) = []).
  { apply filter_none, Forall_forall. intros y Hy.
    apply list_elem_of_lookup in Hy as (j & Hy).
    pose proof (lookup_lt_Some _ _ _ Hy) as Hj. rewrite length_take in Hj.
    rewrite lookup_take_lt in Hy by lia. eapply Hbefore; eauto. lia. }
  rewrite Hnil. reflexivity.
Qed.

(** X10. A player who leaves after the lobby, while the game is not over
    and ids are unique. A leaver who is already eliminated, by a lost
    round or by having left before, is not touched: the call does nothing
    but broadcast, the seat keeps its hand and its flags. A leaver who is
    not yet eliminated keeps the seat but is retired: eliminated,
    spectator, hand emptied (these cards leave the game, the piles are not
    touched). If that leaves one active player, the game is over and that
    player is the winner; if it leaves none, the game is over without a
    winner being set. With two or more left the status stays, and the turn
    moves on to the next active seat exactly when the leaver held it. *)
Theorem handlePlayerExit_retires_the_leaver (sv : MockGameServer.t) (i : nat)
    (p : Player.t) :
  GameState.status (state sv) ≠ GameStatus.LOBBY →
  GameState.status (state sv) ≠ GameStatus.GAME_OVER →
  NoDup (Player.id <$> players sv) →
  players sv !! i = Some p →
  (Player.isEliminated p = true →
   handlePlayerExit (Player.id p) sv = Ok (notify sv))
  ∧ (Player.isEliminated p = false →
     ∃ sv',
       handlePlayerExit (Player.id p) sv = Ok sv'
       ∧ players sv' = alter retired i (players sv)
       ∧ allCards sv' ++ Player.hand p ≡ₚ allCards sv
       ∧ match activePlayers sv' with
         | [] =>
             GameState.status (state sv') = GameStatus.GAME_OVER
             ∧ GameState.winner (state sv') = GameState.winner (state sv)
         | [w] =>
             GameState.status (state sv') = GameStatus.GAME_OVER
             ∧ timerRunning sv' = false
             ∧ ∃ r, GameState.winner (state sv') = Some r ∧ players sv' !! r = Some w
         | _ =>
             GameState.status (state sv') = GameState.status (state sv)
             ∧ GameState.winner (state sv') = GameState.winner (state sv)
             ∧ if decide (i = GameState.currentPlayerIndex (state sv))
               then getNextPlayerIndex 1 (updPlayer i retired sv)
                    = Ok (GameState.currentPlayerIndex (state sv'))
                    ∧ activeAt (players sv')
                        (GameState.currentPlayerIndex (state sv')) = true
               else GameState.currentPlayerIndex (state sv')
                    = GameState.currentPlayerIndex (state sv)
         end).
Proof.
  intros Hlobby Hover Hnd Hp. split; intros Helim.
  { unfold handlePlayerExit. rewrite bool_decide_eq_false_2 by exact Hlobby.
    fold (players sv). rewrite (list_find_id _ _ _ Hnd Hp), Helim. reflexivity. }
  unfold handlePlayerExit.
  rewrite bool_decide_eq_false_2 by exact Hlobby.
  fold (players sv). rewrite (list_find_id _ _ _ Hnd Hp), Helim.
  rewrite (bool_decide_eq_false_2 _ Hover). simpl negb. rewrite andb_true_r.
  set (sv2 := upd (GameState.push_log _) (updPlayer i _ sv)).
  assert (Hps2 : players sv2 = alter retired i (players sv)) by reflexivity.
  assert (Hcards : ∀ sv', players sv' = players sv2 →
            GameState.deck (state sv') = GameState.deck (state sv) →
            GameState.discardPile (state sv') = GameState.discardPile (state sv) →
            allCards sv' ++ Player.hand p ≡ₚ allCards sv).
  { intros sv' H1 H2 H3. unfold allCards. rewrite H1, H2, H3, Hps2.
    rewrite <- (hands_alter_retired (players sv) p i Hp). solve_perm. }
  destruct (Nat.leb_spec (length (activePlayers sv2)) 1) as [Hfew|Hmany].
  - change (players (upd (GameState.set_status GameStatus.GAME_OVER)
                       (setTimer false sv2))) with (players sv2).
    destruct (list_find _ (players sv2)) as [[w pw]|] eqn:Hfind.
    + eexists. split; [reflexivity|]. split; [exact Hps2|].
      split; [apply Hcards; reflexivity|].
      pose proof (list_find_filter_head _ _ _ _ Hfind) as Hhead.
      apply list_find_Some in Hfind as (Hw & _).
      change (activePlayers (notify _)) with (activePlayers sv2).
      unfold activePlayers in *.
      destruct (filter _ (players sv2)) as [|a [|b l]]; simpl in Hhead, Hfew;
        [discriminate| |lia].
      injection Hhead as ->. split; [reflexivity|]. split; [reflexivity|].
      exists w. split; [reflexivity|exact Hw].
    + eexists. split; [reflexivity|]. split; [exact Hps2|].
      split; [apply Hcards; reflexivity|].
      change (activePlayers (notify _)) with (activePlayers sv2).
      apply list_find_None in Hfind. unfold activePlayers.
      assert (Hnil : filter (λ p, Player.active p = true) (players sv2) = []).
      { apply filter_none. exact Hfind. }
      rewrite Hnil. split; reflexivity.
  - rewrite andb_true_l.
    assert (Hsome : Exists (λ p, Player.active p = true) (players sv2)).
    { apply filter_active_length_Exists. unfold activePlayers in Hmany. lia. }
    assert (Hturn :
      match players sv2 !! GameState.currentPlayerIndex (state sv) with
      | Some q => bool_decide (Player.id q = Player.id p)
      | None => false
      end = bool_decide (i = GameState.currentPlayerIndex (state sv))).
    { destruct (players sv2 !! _) as [q|] eqn:Hq.
      - apply bool_decide_ext. split.
        + intros Hid.
          assert (Hq0 : ∃ q0, players sv !! GameState.currentPlayerIndex (state sv)
                              = Some q0 ∧ Player.id q0 = Player.id q).
          { assert (Hl : (Player.id <$> players sv2)
                           !! GameState.currentPlayerIndex (state sv)
                         = Some (Player.id q))
              by (rewrite list_lookup_fmap, Hq; reflexivity).
            rewrite Hps2, fmap_alter_fixed, list_lookup_fmap in Hl by reflexivity.
            destruct (players sv !! GameState.currentPlayerIndex (state sv))
              as [q0|]; [|discriminate].
            exists q0. split; [reflexivity|]. simpl in Hl. congruence. }
          destruct Hq0 as (q0 & Hq0 & Hid0).
          eapply (NoDup_id_inj (players sv)); eauto. congruence.
        + intros Hic. rewrite <- Hic, Hps2, list_lookup_alter_eq, Hp in Hq.
          injection Hq as <-. reflexivity.
      - symmetry. apply bool_decide_eq_false_2. intros Hic.
        rewrite <- Hic, Hps2, list_lookup_alter_eq, Hp in Hq. discriminate. }
    rewrite Hturn.
    assert (Hshape : ∀ sv', activePlayers sv' = activePlayers sv2 →
              ∀ (Q : Prop), Q →
              match activePlayers sv' with
              | [] => GameState.status (state sv') = GameStatus.GAME_OVER
                      ∧ GameState.winner (state sv') = GameState.winner (state sv)
              | [w] => GameState.status (state sv') = GameStatus.GAME_OVER
                       ∧ timerRunning sv' = false
                       ∧ ∃ r, GameState.winner (state sv') = Some r
                              ∧ players sv' !! r = Some w
              | _ => Q
              end).
    { intros sv' -> Q HQ. destruct (activePlayers sv2) as [|a [|b l]];
        simpl in Hmany; [lia|lia|exact HQ]. }
    case_bool_decide as Hi.
    + destruct (getNextPlayerIndex_Ok 1 (startTurnTimer sv2) ltac:(lia) Hsome)
        as (n & q & Hn & Hq & Hqa).
      unfold advanceTurn. rewrite Hn. simpl.
      eexists. split; [reflexivity|]. split; [exact Hps2|].
      split; [apply Hcards; reflexivity|].
      apply Hshape; [reflexivity|]. simpl.
      split; [reflexivity|]. split; [reflexivity|].
      rewrite decide_True by exact Hi. split.
      * rewrite <- Hn. apply getNextPlayerIndex_ext; reflexivity.
      * change (activeAt (players sv2) n = true). unfold activeAt.
        change (players (startTurnTimer sv2)) with (players sv2) in Hq.
        rewrite Hq. exact Hqa.
    + simpl. eexists. split; [reflexivity|]. split; [exact Hps2|].
      split; [apply Hcards; reflexivity|].
      apply Hshape; [reflexivity|]. simpl.
      split; [reflexivity|]. split; [reflexivity|].
      rewrite decide_False by exact Hi. reflexivity.
Qed.

(** The examples of X10: at the table [A, B, C] where B is eliminated,
    B's leaving changes nothing; at the table of the last card, A's
    leaving retires A. *)
Lemma handlePlayerExit_retires_the_leaver_witness :
  (Player.isEliminated <$> players tableABC = [false; true; false]
   ∧ handlePlayerExit "B" tableABC = Ok (notify tableABC))
  ∧ ∃ sv',
      handlePlayerExit "A" tableLastCard = Ok sv'
      ∧ players sv' = alter retired 0 (players tableLastCard)
      ∧ allCards sv' ++ [red5] ≡ₚ allCards tableLastCard
      ∧ match activePlayers sv' with
        | [] =>
            GameState.status (state sv') = GameStatus.GAME_OVER
            ∧ GameState.winner (state sv') = GameState.winner (state tableLastCard)
        | [w] =>
            GameState.status (state sv') = GameStatus.GAME_OVER
            ∧ timerRunning sv' = false
            ∧ ∃ r, GameState.winner (state sv') = Some r ∧ players sv' !! r = Some w
        | _ =>
            GameState.status (state sv') = GameStatus.PLAYING
            ∧ GameState.winner (state sv') = None
            ∧ if decide (0 = GameState.currentPlayerIndex (state tableLastCard))
              then getNextPlayerIndex 1 (updPlayer 0 retired tableLastCard)
                   = Ok (GameState.currentPlayerIndex (state sv'))
                   ∧ activeAt (players sv') (GameState.currentPlayerIndex (state sv'))
                     = true
              else GameState.currentPlayerIndex (state sv') = 0
        end.
Proof.
  assert (Hids : NoDup (Player.id <$> players tableABC))
    by (apply (bool_decide_unpack _); vm_compute; exact I).
  assert (Hids' : NoDup (Player.id <$> players tableLastCard))
    by (apply (bool_decide_unpack _); vm_compute; exact I).
  split.
  - split; [reflexivity|].
    apply (handlePlayerExit_retires_the_leaver tableABC 1 (seatedPlayer "B" [] true));
      [discriminate|discriminate|exact Hids|reflexivity|reflexivity].
  - apply (handlePlayerExit_retires_the_leaver tableLastCard 0
             (seatedPlayer "A" [red5] false));
      [discriminate|discriminate|exact Hids'|reflexivity|reflexivity].
Defined.

(** ** The start of a game *)

Lemma dealStart_deals (ps : list Player.t) : ∀ deck,
  7 * length (filter (λ p, Player.isSpectator p = false) ps) ≤ length deck →
  ∃ ps' deck',
    dealStart ps deck = (ps', deck')
    ∧ Forall2 dealtAtStart ps ps'
    ∧ deck' = drop (7 * length (filter (λ p, Player.isSpectator p = false) ps)) deck.
Proof.
  induction ps as [|p ps IH]; intros deck Hlen.
  - exists [], deck. simpl. auto using Forall2_nil.
  - rewrite filter_cons in Hlen |- *. simpl.
    destruct (decide (Player.isSpectator p = false)) as [Hspec|Hspec].
    + rewrite Hspec. simpl in Hlen |- *.
      destruct (IH (drop 7 deck)) as (ps' & deck' & Hrun & Hdealt & Hdrop).
      { rewrite length_drop. lia. }
      rewrite Hrun. eexists _, deck'. split; [reflexivity|]. split.
      * constructor; [|exact Hdealt].
        unfold dealtAtStart. rewrite Hspec. eexists. split; [|reflexivity].
        rewrite length_take. lia.
      * rewrite Hdrop, drop_drop. f_equal. lia.
    + apply not_false_is_true in Hspec. rewrite Hspec. simpl.
      destruct (IH deck Hlen) as (ps' & deck' & Hrun & Hdealt & Hdrop).
      rewrite Hrun. eexists _, deck'. split; [reflexivity|]. split.
      * constructor; [|exact Hdealt]. unfold dealtAtStart. rewrite Hspec.
        reflexivity.
      * exact Hdrop.
Qed.

Lemma dealtAtStart_spectator (ps ps' : list Player.t) :
  Forall2 dealtAtStart ps ps' →
  Player.isSpectator <$> ps' = Player.isSpectator <$> ps.
Proof.
  induction 1 as [|p p' ps ps' Hp _ IH]; [reflexivity|].
  rewrite !fmap_cons, IH. f_equal. unfold dealtAtStart in Hp.
  destruct (Player.isSpectator p) eqn:E; [subst p'; exact E|].
  destruct Hp as (h & _ & ->). exact E.
Qed.

Lemma skipSpectators_finds (ps : list Player.t) i : ∀ n j fuel,
  i = j + n → n ≤ fuel → i < length ps →
  (∀ k p, j ≤ k < i → ps !! k = Some p → Player.isSpectator p = true) →
  (∃ p, ps !! i = Some p ∧ Player.isSpectator p = false) →
  skipSpectators fuel ps j = Ok i.
Proof.
  induction n as [|n IH]; intros j fuel Hi Hfuel Hlen Hbefore (p & Hp & Hspec).
  - assert (j = i) by lia. subst j.
    destruct fuel; simpl; rewrite Hp, Hspec; reflexivity.
  - destruct fuel as [|fuel]; [lia|]. simpl.
    destruct (lookup_lt_is_Some_2 ps j ltac:(lia)) as [q Hq]. rewrite Hq.
    rewrite (Hbefore j q ltac:(lia) Hq).
    rewrite Nat.mod_small by lia.
    apply (IH (j + 1) fuel); [lia|lia|exact Hlen| |eauto].
    intros k r Hk. apply Hbefore. lia.
Qed.

Lemma startGame_Ok (sv : MockGameServer.t) :
  2 ≤ length (players sv) →
  1 ≤ length (filter (λ p, Player.isSpectator p = false) (players sv)) ≤ 14 →
  ∃ sv' firstCard,
    startGame sv = Ok sv'
    ∧ GameState.status (state sv') = GameStatus.PLAYING
    ∧ Forall2 dealtAtStart (players sv) (players sv')
    ∧ GameState.discardPile (state sv') = [firstCard]
    ∧ Card.color firstCard ≠ CardColor.black
    ∧ GameState.currentColor (state sv') = Card.color firstCard
    ∧ length (GameState.deck (state sv'))
      = 107 - 7 * length (filter (λ p, Player.isSpectator p = false) (players sv))
    ∧ findIndex (λ p, Player.isSpectator p = false) (players sv)
      = Some (GameState.currentPlayerIndex (state sv'))
    ∧ GameState.turnTimer (state sv') = 30
    ∧ timerRunning sv' = true
    ∧ GameState.direction (state sv') = GameState.direction (state sv)
    ∧ GameState.winner (state sv') = GameState.winner (state sv).
Proof.
  intros Htwo [Hmin Hmax]. unfold startGame.
  destruct (Nat.ltb_spec (length (players sv)) 2) as [?|_]; [lia|]. simpl.
  change (players (usedRandom ?n (usedUuid ?m sv))) with (players sv).
  set (deck := generateDeck (uuidv4 sv) (uuidCalls sv) (random sv) (randomCalls sv)).
  set (k := length (filter (λ p, Player.isSpectator p = false) (players sv))) in *.
  destruct (dealStart_deals (players sv) deck) as (ps' & deck' & Hdeal & Hdealt & Hdrop).
  { unfold deck. rewrite generateDeck_length. fold k. lia. }
  fold k in Hdrop. rewrite Hdeal.
  destruct (openingCard_Ok deck') as (firstCard & deck'' & Hopen & Hcolor & Hperm).
  { rewrite Hdrop. apply nonblack_left. lia. }
  rewrite Hopen. simpl.
  (* the first seat that is not a spectator *)
  destruct (list_find (λ p, Player.isSpectator p = false) (players sv))
    as [[i p0]|] eqn:Hfind.
  2:{ apply list_find_None in Hfind.
      assert (Hnil : filter (λ p, Player.isSpectator p = false) (players sv) = []).
      { clear -Hfind. induction Hfind as [|x l Hx _ IH]; [reflexivity|].
        rewrite filter_cons_False by exact Hx. exact IH. }
      unfold k in Hmin. rewrite Hnil in Hmin. simpl in Hmin. lia. }
  apply list_find_Some in Hfind as (Hp0 & Hspec0 & Hbefore).
  pose proof (dealtAtStart_spectator _ _ Hdealt) as Hspecs.
  pose proof (Forall2_length _ _ _ Hdealt) as Hlen.
  assert (Hlook : ∀ j q, ps' !! j = Some q →
            ∃ q0, players sv !! j = Some q0
                  ∧ Player.isSpectator q = Player.isSpectator q0).
  { intros j q Hq.
    assert (Hl : (Player.isSpectator <$> ps') !! j = Some (Player.isSpectator q))
      by (rewrite list_lookup_fmap, Hq; reflexivity).
    rewrite Hspecs, list_lookup_fmap in Hl.
    destruct (players sv !! j) as [q0|]; [|discriminate].
    exists q0. split; [reflexivity|]. simpl in Hl. congruence. }
  assert (Hskip : skipSpectators (length ps') ps' 0 = Ok i).
  { apply (skipSpectators_finds ps' i i 0 (length ps')); [lia| | | |].
    - rewrite <- Hlen. apply lookup_lt_Some in Hp0. lia.
    - rewrite <- Hlen. eapply lookup_lt_Some; eauto.
    - intros j q Hj Hq. destruct (Hlook j q Hq) as (q0 & Hq0 & ->).
      apply not_false_is_true. eapply Hbefore; eauto. lia.
    - destruct (lookup_lt_is_Some_2 ps' i) as [q Hq].
      { rewrite <- Hlen. eapply lookup_lt_Some; eauto. }
      exists q. split; [exact Hq|].
      destruct (Hlook i q Hq) as (q0 & Hq0 & ->). congruence. }
  rewrite Hskip. simpl.
  eexists _, firstCard. split; [reflexivity|]. simpl.
  split; [reflexivity|]. split; [exact Hdealt|]. split; [reflexivity|].
  split; [exact Hcolor|]. split; [reflexivity|]. split.
  { apply Permutation_length in Hperm. rewrite length_app in Hperm. simpl in Hperm.
    rewrite Hdrop, length_drop in Hperm. unfold deck in Hperm.
    rewrite generateDeck_length in Hperm. lia. }
  split.
  { unfold findIndex.
    assert (Hf : list_find (λ p, Player.isSpectator p = false) (players sv)
                 = Some (i, p0)).
    { apply list_find_Some. auto. }
    rewrite Hf. reflexivity. }
  repeat split.
Qed.

(** X11. [startGame] at a table of two or more with 1 to 14 players who are
    not spectators: the call returns with the status PLAYING, seven cards
    and a clean record (no score, no Uno call, not eliminated) for each of
    these players and an empty hand for every spectator; the discard pile
    is one card that is not black and gives the current colour, the turn
    is on the first seat that is not a spectator and the timer runs from
    30. Hands, discard pile and deck together are the 108 cards of the
    rules. Direction and winner are not reset. *)
Theorem startGame_deals_seven_to_every_player (sv : MockGameServer.t) :
  2 ≤ length (players sv) →
  1 ≤ length (filter (λ p, Player.isSpectator p = false) (players sv)) ≤ 14 →
  ∃ sv' firstCard,
    startGame sv = Ok sv'
    ∧ GameState.status (state sv') = GameStatus.PLAYING
    ∧ Forall2 dealtAtStart (players sv) (players sv')
    ∧ GameState.discardPile (state sv') = [firstCard]
    ∧ Card.color firstCard ≠ CardColor.black
    ∧ GameState.currentColor (state sv') = Card.color firstCard
    ∧ length (GameState.deck (state sv'))
      = 107 - 7 * length (filter (λ p, Player.isSpectator p = false) (players sv))
    ∧ face <$> allCards sv' ≡ₚ deckFaces
    ∧ findIndex (λ p, Player.isSpectator p = false) (players sv)
      = Some (GameState.currentPlayerIndex (state sv'))
    ∧ GameState.turnTimer (state sv') = 30
    ∧ timerRunning sv' = true
    ∧ GameState.direction (state sv') = GameState.direction (state sv)
    ∧ GameState.winner (state sv') = GameState.winner (state sv).
Proof.
  intros Htwo Hplayers.
  destruct (startGame_Ok sv Htwo Hplayers)
    as (sv' & firstCard & Hrun & H1 & H2 & H3 & H4 & H5 & H6 & H7).
  exists sv', firstCard. split; [exact Hrun|]. split; [exact H1|].
  split; [exact H2|]. split; [exact H3|]. split; [exact H4|]. split; [exact H5|].
  split; [exact H6|]. split; [|exact H7].
  exact (proj1 (startGame_deals_the_deck sv sv' Htwo Hrun)).
Qed.

Lemma startGame_deals_seven_to_every_player_witness :
  ∃ sv' firstCard,
    startGame lobbyOfThree = Ok sv'
    ∧ GameState.status (state sv') = GameStatus.PLAYING
    ∧ Forall2 dealtAtStart (players lobbyOfThree) (players sv')
    ∧ GameState.discardPile (state sv') = [firstCard]
    ∧ Card.color firstCard ≠ CardColor.black
    ∧ GameState.currentColor (state sv') = Card.color firstCard
    ∧ length (GameState.deck (state sv')) = 86
    ∧ face <$> allCards sv' ≡ₚ deckFaces
    ∧ findIndex (λ p, Player.isSpectator p = false) (players lobbyOfThree)
      = Some (GameState.currentPlayerIndex (state sv'))
    ∧ GameState.turnTimer (state sv') = 30
    ∧ timerRunning sv' = true
    ∧ GameState.direction (state sv') = Direction.clockwise
    ∧ GameState.winner (state sv') = None.
Proof.
  apply (startGame_deals_seven_to_every_player lobbyOfThree).
  - vm_compute. lia.
  - vm_compute. lia.
Defined.

(** X12. The opening-card loop of [startGame] and [nextRound] on the cards
    left after the deal. It throws on an empty deck and never ends on a
    deck of black cards only. Otherwise it turns up the last card that is
    not black; the black cards that lay behind it are moved to the front
    of the deck, in their order. *)
Theorem openingCard_turns_up_the_last_coloured_card (deck : list Card.t) :
  (deck = [] → openingCard deck = TypeError)
  ∧ (deck ≠ [] → Forall (λ b, Card.color b = CardColor.black) deck →
     openingCard deck = Diverges ∧ ∀ fuel, flipOpening fuel deck = Diverges)
  ∧ (∀ l c blacks,
       deck = l ++ c :: blacks →
       Card.color c ≠ CardColor.black →
       Forall (λ b, Card.color b = CardColor.black) blacks →
       openingCard deck = Ok (c, blacks ++ l)
       ∧ ∀ fuel, length blacks ≤ fuel → flipOpening fuel deck = Ok (c, blacks ++ l)).
Proof.
  split; [|split].
  - intros ->. reflexivity.
  - intros Hne Hall. split; [|intros fuel]; apply flipOpening_all_black; assumption.
  - intros l c blacks -> Hc Hb. split; [|intros fuel Hfuel].
    + unfold openingCard. apply flipOpening_finds; [exact Hb|exact Hc|].
      rewrite length_app. simpl. lia.
    + apply flipOpening_finds; assumption.
Qed.

(** ** Whole sessions *)

Lemma quiet_refl sv : quiet sv sv.
Proof. repeat split. Qed.

Lemma quiet_trans sv1 sv2 sv3 : quiet sv1 sv2 → quiet sv2 sv3 → quiet sv1 sv3.
Proof.
  intros (A1 & A2 & A3 & A4 & A5 & A6 & A7) (B1 & B2 & B3 & B4 & B5 & B6 & B7).
  repeat split; congruence.
Qed.

Lemma quiet_updPlayer i f sv :
  (∀ p, Player.id (f p) = Player.id p) →
  (∀ p, Player.active (f p) = Player.active p) →
  quiet sv (updPlayer i f sv).
Proof.
  intros Hid Hact. unfold quiet, players. simpl.
  rewrite !fmap_alter_fixed by assumption. repeat split.
Qed.

Lemma refill_quiet sv sv1 : refill sv = Some sv1 → quiet sv sv1.
Proof.
  unfold refill.
  destruct (GameState.deck (state sv)) as [|c deck].
  - destruct (pop (GameState.discardPile (state sv))) as [[top rest]|] eqn:Hpop;
      [|discriminate].
    intros [= <-]. apply pop_Some in Hpop. unfold quiet. simpl.
    rewrite Hpop, last_snoc. repeat split.
  - intros [= <-]. apply quiet_refl.
Qed.

Lemma drawCards_quiet i count : ∀ sv sv',
  drawCards i count sv = Ok sv' →
  quiet sv sv'
  ∧ GameState.currentPlayerIndex (state sv') = GameState.currentPlayerIndex (state sv)
  ∧ GameState.direction (state sv') = GameState.direction (state sv).
Proof.
  induction count as [|count IH]; intros sv sv' Hrun; simpl in Hrun.
  - injection Hrun as <-. split; [apply quiet_refl|split; reflexivity].
  - destruct (refill sv) as [sv1|] eqn:Hrefill.
    + pose proof (refill_quiet _ _ Hrefill) as Hq1.
      assert (Hc1 : GameState.currentPlayerIndex (state sv1)
                    = GameState.currentPlayerIndex (state sv)
                    ∧ GameState.direction (state sv1) = GameState.direction (state sv)).
      { unfold refill in Hrefill. destruct (GameState.deck (state sv)).
        - destruct (pop _) as [[??]|]; [|discriminate].
          injection Hrefill as <-. split; reflexivity.
        - injection Hrefill as <-. split; reflexivity. }
      destruct Hc1 as [Hc1 Hd1].
      destruct (pop (GameState.deck (state sv1))) as [[card deck']|].
      * destruct (getPlayer i sv1); simpl in Hrun; try discriminate.
        apply IH in Hrun as (Hq & Hc & Hd). split; [|split].
        -- eapply quiet_trans; [exact Hq1|]. eapply quiet_trans; [|exact Hq].
           unfold quiet, players. simpl.
           rewrite !fmap_alter_fixed by reflexivity. repeat split.
        -- rewrite Hc. exact Hc1.
        -- rewrite Hd. exact Hd1.
      * apply IH in Hrun as (Hq & Hc & Hd). split; [|split].
        -- eapply quiet_trans; eauto.
        -- congruence.
        -- congruence.
    + injection Hrun as <-. split; [apply quiet_refl|split; reflexivity].
Qed.

Lemma unoPenalty_quiet i sv sv' : unoPenalty i sv = Ok sv' → quiet sv sv'.
Proof.
  unfold unoPenalty. destruct (getPlayer i sv) as [p| |]; cbn [bind];
    try discriminate.
  destruct (_ && _).
  - intros Hrun. apply drawCards_quiet in Hrun as [Hq _].
    eapply quiet_trans; [|exact Hq]. repeat split.
  - intros [= <-]. apply quiet_refl.
Qed.

Lemma resetUno_quiet i sv sv' : resetUno i sv = Ok sv' → quiet sv sv'.
Proof.
  unfold resetUno. destruct (getPlayer i sv) as [p| |]; simpl; try discriminate.
  destruct (1 <? _); intros [= <-]; [|apply quiet_refl].
  apply quiet_updPlayer; reflexivity.
Qed.

Lemma cardEffect_quiet card sv n sv' : cardEffect card sv = Ok (n, sv') → quiet sv sv'.
Proof.
  unfold cardEffect.
  destruct (Card.type card); cbn [bind];
    try (intros [= <- <-]; apply quiet_refl).
  - destruct (_ =? 2); intros [= <- <-]; [apply quiet_refl|repeat split].
  - destruct (getNextPlayerIndex 1 sv) as [nextP| |]; cbn [bind]; try discriminate.
    destruct (drawCards nextP 2 sv) as [sv2| |] eqn:Hdraw; cbn [bind];
      try discriminate.
    intros [= <- <-]. apply drawCards_quiet in Hdraw as [Hq _]. exact Hq.
  - destruct (getNextPlayerIndex 1 sv) as [nextP| |]; cbn [bind]; try discriminate.
    destruct (drawCards nextP 4 sv) as [sv2| |] eqn:Hdraw; cbn [bind];
      try discriminate.
    intros [= <- <-]. apply drawCards_quiet in Hdraw as [Hq _]. exact Hq.
Qed.

Lemma advanceTurn_quiet n sv sv' : advanceTurn n sv = Ok sv' → quiet sv sv'.
Proof.
  unfold advanceTurn.
  destruct (getNextPlayerIndex n _) as [i| |]; simpl; try discriminate.
  intros [= <-]. repeat split.
Qed.

Lemma callUno_quiet playerId sv :
  quiet sv (callUno playerId sv)
  ∧ GameState.currentPlayerIndex (state (callUno playerId sv))
    = GameState.currentPlayerIndex (state sv)
  ∧ GameState.discardPile (state (callUno playerId sv))
    = GameState.discardPile (state sv).
Proof.
  unfold callUno. destruct (list_find _ _) as [[i p]|];
    [|split; [apply quiet_refl|split; reflexivity]].
  destruct (_ <=? 2); [|split; [apply quiet_refl|split; reflexivity]].
  split; [|split; reflexivity].
  unfold quiet, players. simpl. rewrite !fmap_alter_fixed by reflexivity.
  repeat split.
Qed.

(** [handleRoundWin] keeps seats, ids and the table, and leaves a status
    that is not PLAYING. *)
Lemma handleRoundWin_table w sv sv' :
  handleRoundWin w sv = Ok sv' →
  Player.id <$> players sv' = Player.id <$> players sv
  ∧ uuidv4 sv' = uuidv4 sv ∧ uuidCalls sv' = uuidCalls sv
  ∧ last (GameState.discardPile (state sv')) = last (GameState.discardPile (state sv))
  ∧ GameState.currentColor (state sv') = GameState.currentColor (state sv)
  ∧ GameState.currentPlayerIndex (state sv') = GameState.currentPlayerIndex (state sv)
  ∧ GameState.status (state sv') ≠ GameStatus.PLAYING.
Proof.
  intros Hrun. split; [exact (handleRoundWin_fixed Player.id w sv sv'
                                (λ _ _, eq_refl) (λ _, eq_refl) Hrun)|].
  revert Hrun. unfold handleRoundWin, getPlayer.
  destruct (players (setTimer false sv) !! w) as [roundWinner|]; [|discriminate].
  simpl. destruct (GameState.mode (state sv)).
  - intros Hrun. injection Hrun as Hrun. subst sv'. simpl. repeat split. discriminate.
  - intros Hrun. injection Hrun as Hrun. subst sv'.
    unfold crownLastRemaining, eliminateHighest.
    destruct (_ =? 1); simpl;
      (destruct (head _) as [h|]; [|repeat split; discriminate]);
      (destruct (0 <? Player.score h); [|repeat split; discriminate]);
      (destruct (list_find _ _) as [[e pe]|]; repeat split; discriminate).
Qed.

(** The stages of an accepted play, for what they leave alone. *)
Lemma applyPlay_table cur cardIndex card wildColor sv sv' :
  applyPlay cur cardIndex card wildColor sv = Ok sv' →
  Player.id <$> players sv' = Player.id <$> players sv
  ∧ uuidv4 sv' = uuidv4 sv ∧ uuidCalls sv' = uuidCalls sv
  ∧ last (GameState.discardPile (state sv')) = Some card
  ∧ GameState.currentColor (state sv')
    = GameState.currentColor (state (setColor card wildColor sv))
  ∧ (GameState.status (state sv') = GameStatus.PLAYING →
     GameState.status (state sv) = GameStatus.PLAYING).
Proof.
  unfold applyPlay.
  set (sv1 := moveToDiscard cur cardIndex card sv).
  assert (H1 : Player.id <$> players sv1 = Player.id <$> players sv
               ∧ last (GameState.discardPile (state sv1)) = Some card).
  { unfold sv1, players. simpl. rewrite fmap_alter_fixed by reflexivity.
    rewrite last_snoc. split; reflexivity. }
  destruct H1 as [Hid1 Htop1].
  assert (Hu1 : uuidv4 sv1 = uuidv4 sv) by reflexivity.
  assert (Hn1 : uuidCalls sv1 = uuidCalls sv) by reflexivity.
  assert (Hs1 : GameState.status (state sv1) = GameState.status (state sv))
    by reflexivity.
  clearbody sv1.
  destruct (unoPenalty cur sv1) as [sv2| |] eqn:H2; simpl; try discriminate.
  apply unoPenalty_quiet in H2 as (A1 & _ & A3 & A4 & A5 & A6 & A7).
  destruct (resetUno cur sv2) as [sv3| |] eqn:H3; simpl; try discriminate.
  apply resetUno_quiet in H3 as (B1 & _ & B3 & B4 & B5 & B6 & B7).
  destruct (cardEffect card (setColor card wildColor sv3)) as [[n sv5]| |] eqn:H5;
    simpl; try discriminate.
  apply cardEffect_quiet in H5 as (C1 & _ & C3 & C4 & C5 & C6 & C7).
  simpl in C1, C3, C4, C5, C6, C7.
  change (players (setColor card wildColor sv3)) with (players sv3) in C1.
  unfold finishPlay. destruct (getPlayer cur sv5) as [p5| |]; simpl; try discriminate.
  destruct (_ =? 0).
  - intros Hwin. apply handleRoundWin_table in Hwin
      as (D1 & D3 & D4 & D6 & D7 & _ & Dstatus).
    split; [congruence|]. split; [congruence|]. split; [congruence|].
    split; [congruence|]. split; [simpl; congruence|]. intros H. contradiction.
  - destruct (advanceTurn n sv5) as [sv6| |] eqn:H6; simpl; try discriminate.
    intros [= <-]. apply advanceTurn_quiet in H6 as (D1 & _ & D3 & D4 & D5 & D6 & D7).
    change (players (notify sv6)) with (players sv6).
    split; [congruence|]. split; [simpl; congruence|]. split; [simpl; congruence|].
    split; [simpl; congruence|]. split; simpl; congruence.
Qed.

Lemma activeAt_true (ps : list Player.t) i :
  activeAt ps i = true ↔ ∃ p, ps !! i = Some p ∧ Player.active p = true.
Proof.
  unfold activeAt. destruct (ps !! i) as [p|]; split.
  - intros H. eauto.
  - intros (q & [= <-] & H). exact H.
  - discriminate.
  - intros (q & H & _). discriminate.
Qed.

Lemma activeAt_ext (ps ps' : list Player.t) i :
  Player.active <$> ps' = Player.active <$> ps → activeAt ps' i = activeAt ps i.
Proof.
  intros Hact. unfold activeAt.
  assert (Hl : (Player.active <$> ps') !! i = (Player.active <$> ps) !! i)
    by (rewrite Hact; reflexivity).
  rewrite !list_lookup_fmap in Hl.
  destruct (ps' !! i), (ps !! i); simpl in Hl; congruence.
Qed.

Lemma activeAt_Exists (ps : list Player.t) i :
  activeAt ps i = true → Exists (λ p, Player.active p = true) ps.
Proof. intros (p & Hp & Ha)%activeAt_true. eapply active_Exists; eauto. Qed.

Lemma seatsFrom_same sv sv' :
  Player.id <$> players sv' = Player.id <$> players sv →
  uuidv4 sv' = uuidv4 sv → uuidCalls sv ≤ uuidCalls sv' →
  seatsFrom sv sv'.
Proof.
  intros Hid Hu Hn. split; [exact Hu|]. split; [exact Hn|]. left.
  rewrite Hid. reflexivity.
Qed.

Lemma quiet_seatsFrom sv sv' : quiet sv sv' → seatsFrom sv sv'.
Proof. intros (A1 & _ & A3 & A4 & _). apply seatsFrom_same; [assumption..|lia]. Qed.

Lemma quiet_playable sv sv' :
  quiet sv sv' →
  GameState.currentPlayerIndex (state sv') = GameState.currentPlayerIndex (state sv) →
  playable sv → playable sv'.
Proof.
  intros (_ & A2 & _ & _ & A5 & A6 & _) Hcur Hplay Hst.
  rewrite A5 in Hst. destruct (Hplay Hst) as [Hturn Hpile]. split.
  - unfold turnOnActive in *. rewrite Hcur, (activeAt_ext _ _ _ A2). exact Hturn.
  - intros Hnil. rewrite Hnil in A6. destruct (GameState.discardPile (state sv))
      as [|c l] using rev_ind; [congruence|]. rewrite last_snoc in A6. discriminate.
Qed.

(** The turn after [advanceTurn] is on an active seat when there is one. *)
Lemma advanceTurn_turn n sv sv' :
  1 ≤ n →
  Exists (λ p, Player.active p = true) (players sv) →
  advanceTurn n sv = Ok sv' → turnOnActive sv'.
Proof.
  intros Hn Hsome. unfold advanceTurn.
  destruct (getNextPlayerIndex_Ok n (startTurnTimer sv) Hn Hsome) as (i & q & Hi & Hq & Ha).
  rewrite Hi. simpl. intros [= <-]. unfold turnOnActive. simpl.
  apply activeAt_true. eauto.
Qed.

Lemma playCard_keeps playerId cardId wildColor sv sv' :
  playCard playerId cardId wildColor sv = Ok sv' →
  playable sv →
  seatsFrom sv sv' ∧ playable sv'.
Proof.
  intros Hplay Hinv. unfold playCard in Hplay.
  case_bool_decide as Hmine;
    [injection Hplay as <-; split; [apply quiet_seatsFrom, quiet_refl|exact Hinv]|].
  unfold getPlayer in Hplay.
  destruct (players sv !! GameState.currentPlayerIndex (state sv)) as [player|] eqn:Hplayer;
    [|discriminate].
  simpl in Hplay.
  destruct (list_find _ (Player.hand player)) as [[cardIndex card]|];
    [|injection Hplay as <-; split; [apply quiet_seatsFrom, quiet_refl|exact Hinv]].
  destruct (validAgainstTop _ _ _) as [[|]| |]; simpl in Hplay; try discriminate;
    [|injection Hplay as <-; split; [apply quiet_seatsFrom, quiet_refl|exact Hinv]].
  destruct (applyPlay_table _ _ _ _ _ _ Hplay) as (Hid & Hu & Hn & Htop & _ & Hst).
  split; [apply seatsFrom_same; [assumption..|lia]|].
  intros Hst'. destruct (Hinv (Hst Hst')) as [Hturn _]. split.
  2:{ intros Hnil. rewrite Hnil in Htop. discriminate. }
  pose proof (activeAt_Exists _ _ Hturn) as Hsome.
  destruct (applyPlay_effects (GameState.currentPlayerIndex (state sv)) cardIndex card
              wildColor player sv Hplayer (λ _, Hsome))
    as (sv5 & penalty & nextP & extra & Hrun & Hps5 & _).
  rewrite Hrun in Hplay. unfold finishPlay in Hplay.
  destruct (getPlayer _ sv5) as [p5| |]; simpl in Hplay; try discriminate.
  destruct (_ =? 0).
  - apply handleRoundWin_table in Hplay as (_ & _ & _ & _ & _ & _ & Hne).
    contradiction.
  - destruct (advanceTurn _ sv5) as [sv6| |] eqn:Hadv; simpl in Hplay;
      try discriminate.
    injection Hplay as <-.
    apply advanceTurn_turn in Hadv; [exact Hadv|apply nextOffsetOf_pos|].
    eapply Exists_active_fmap; [|exact Hsome].
    rewrite Hps5, !fmap_alter_fixed; [reflexivity| |]; intros.
    + apply afterPlay_active.
    + reflexivity.
Qed.

Lemma drawCard_keeps playerId sv sv' :
  drawCard playerId sv = Ok sv' →
  playable sv →
  seatsFrom sv sv' ∧ playable sv'.
Proof.
  intros Hdraw Hinv. unfold drawCard in Hdraw.
  case_bool_decide as Hmine;
    [injection Hdraw as <-; split; [apply quiet_seatsFrom, quiet_refl|exact Hinv]|].
  destruct (drawCards _ 1 sv) as [sv1| |] eqn:H1; cbn [bind] in Hdraw;
    try discriminate.
  apply drawCards_quiet in H1 as (Hq1 & _ & _).
  destruct (getPlayer _ sv1) as [player| |]; cbn [bind] in Hdraw; try discriminate.
  set (sv2 := upd _ sv1) in Hdraw.
  assert (Hq2 : quiet sv sv2).
  { eapply quiet_trans; [exact Hq1|]. repeat split. }
  destruct (advanceTurn 1 sv2) as [sv3| |] eqn:H3; cbn [bind] in Hdraw;
    try discriminate.
  injection Hdraw as <-.
  pose proof (advanceTurn_quiet _ _ _ H3) as Hq3.
  pose proof (quiet_trans _ _ _ Hq2 Hq3) as Hq.
  split; [apply quiet_seatsFrom; destruct Hq as (?&?&?&?&?&?&?); repeat split;
          assumption|].
  intros Hst'. destruct Hq as (_ & A2 & _ & _ & A5 & A6 & _).
  change (GameState.status (state (notify sv3))) with (GameState.status (state sv3))
    in Hst'.
  rewrite A5 in Hst'. destruct (Hinv Hst') as [Hturn Hpile]. split.
  - change (turnOnActive sv3). apply (advanceTurn_turn 1 sv2 sv3); [lia| |exact H3].
    destruct Hq2 as (_ & B2 & _).
    eapply Exists_active_fmap; [symmetry; exact B2|].
    eapply activeAt_Exists; eauto.
  - change (GameState.discardPile (state sv3) ≠ []). intros Hnil.
    rewrite Hnil in A6. destruct (GameState.discardPile (state sv)) as [|c l]
      using rev_ind; [congruence|]. rewrite last_snoc in A6. discriminate.
Qed.

Lemma callUno_keeps playerId sv :
  playable sv → seatsFrom sv (callUno playerId sv) ∧ playable (callUno playerId sv).
Proof.
  intros Hinv. destruct (callUno_quiet playerId sv) as (Hq & Hcur & _).
  split; [apply quiet_seatsFrom, Hq|]. eapply quiet_playable; eauto.
Qed.

Lemma seatsFrom_trans sv1 sv2 sv3 :
  quiet sv1 sv2 → seatsFrom sv2 sv3 → seatsFrom sv1 sv3.
Proof.
  intros (A1 & _ & A3 & A4 & _) (B1 & B2 & B3).
  split; [congruence|]. split; [lia|].
  rewrite <- A1, <- A3, <- A4.
  destruct B3 as [B3|(B3 & B4 & B5)]; [left; exact B3|right].
  split; [exact B3|]. split; [exact B4|].
  rewrite <- (length_fmap Player.id), <- A1, length_fmap. exact B5.
Qed.

Lemma handleTimeout_keeps sv sv' :
  handleTimeout sv = Ok sv' → playable sv → seatsFrom sv sv' ∧ playable sv'.
Proof.
  unfold handleTimeout, getPlayer. intros Hrun Hinv.
  destruct (players sv !! GameState.currentPlayerIndex (state sv)) as [p|] eqn:Hp;
    [|discriminate].
  cbn [bind] in Hrun. destruct (_ || _) eqn:Hout.
  - destruct (advanceTurn 1 sv) as [sv1| |] eqn:Hadv; cbn [bind] in Hrun;
      try discriminate.
    injection Hrun as <-.
    pose proof (advanceTurn_quiet _ _ _ Hadv) as Hq.
    split; [apply quiet_seatsFrom; destruct Hq as (?&?&?&?&?&?&?); repeat split;
            assumption|].
    intros Hst'. destruct Hq as (_ & A2 & _ & _ & A5 & A6 & _).
    change (GameState.status (state (notify sv1))) with (GameState.status (state sv1))
      in Hst'.
    rewrite A5 in Hst'. destruct (Hinv Hst') as [Hturn Hpile]. split.
    + change (turnOnActive sv1). apply (advanceTurn_turn 1 sv sv1); [lia| |exact Hadv].
      eapply activeAt_Exists; eauto.
    + change (GameState.discardPile (state sv1) ≠ []). intros Hnil.
      rewrite Hnil in A6. destruct (GameState.discardPile (state sv)) as [|c l]
        using rev_ind; [congruence|]. rewrite last_snoc in A6. discriminate.
  - eapply drawCard_keeps; eauto.
Qed.

Lemma executeBotTurn_keeps botIndex sv sv' :
  executeBotTurn botIndex sv = Ok sv' → playable sv → seatsFrom sv sv' ∧ playable sv'.
Proof.
  unfold executeBotTurn. intros Hrun Hinv.
  destruct (getPlayer botIndex sv) as [bot| |]; cbn [bind] in Hrun; try discriminate.
  destruct (validMoves _ _ _) as [moves| |]; cbn [bind] in Hrun; try discriminate.
  destruct (sort byBotPriority moves) as [|cardToPlay rest].
  - eapply drawCard_keeps; eauto.
  - destruct (length (Player.hand bot) =? 2).
    + destruct (callUno_keeps (Player.id bot) sv Hinv) as [_ Hinv1].
      destruct (playCard_keeps _ _ _ _ _ Hrun Hinv1) as [Hseats Hinv'].
      split; [|exact Hinv'].
      eapply seatsFrom_trans; [|exact Hseats]. apply callUno_quiet.
    + eapply playCard_keeps; eauto.
Qed.

Lemma activeAt_app (ps new : list Player.t) i :
  activeAt ps i = true → activeAt (ps ++ new) i = true.
Proof.
  intros (p & Hp & Ha)%activeAt_true. apply activeAt_true. exists p.
  split; [|exact Ha]. apply lookup_app_l_Some. exact Hp.
Qed.

Lemma handleJoinRequest_keeps name avatar existingId sv :
  playable sv →
  seatsFrom sv (handleJoinRequest name avatar existingId sv)
  ∧ playable (handleJoinRequest name avatar existingId sv).
Proof.
  intros Hinv. unfold handleJoinRequest.
  destruct (match existingId with Some _ => _ | None => _ end).
  { split; [apply quiet_seatsFrom; repeat split|exact Hinv]. }
  destruct (Nat.leb_spec 15 (length (players sv))) as [Hfull|Hroom].
  { split; [apply quiet_seatsFrom, quiet_refl|exact Hinv]. }
  split.
  - split; [reflexivity|]. split; [simpl; lia|]. right.
    unfold players. simpl. rewrite fmap_app. simpl.
    split; [reflexivity|]. split; [lia|exact Hroom].
  - intros Hst. destruct (Hinv Hst) as [Hturn Hpile]. split; [|exact Hpile].
    unfold turnOnActive, players. simpl. apply activeAt_app. exact Hturn.
Qed.

Lemma addBot_keeps sv : playable sv → seatsFrom sv (addBot sv) ∧ playable (addBot sv).
Proof.
  intros Hinv. unfold addBot.
  destruct (Nat.leb_spec 15 (length (players sv))) as [Hfull|Hroom].
  { split; [apply quiet_seatsFrom, quiet_refl|exact Hinv]. }
  split.
  - split; [reflexivity|]. split; [simpl; lia|]. right.
    unfold players. simpl. rewrite fmap_app. simpl.
    split; [reflexivity|]. split; [lia|exact Hroom].
  - intros Hst. destruct (Hinv Hst) as [Hturn Hpile]. split; [|exact Hpile].
    unfold turnOnActive, players. simpl. apply activeAt_app. exact Hturn.
Qed.

Lemma sendReaction_keeps now playerId emoji sv :
  playable sv →
  seatsFrom sv (sendReaction now playerId emoji sv)
  ∧ playable (sendReaction now playerId emoji sv).
Proof.
  intros Hinv. unfold sendReaction. destruct (list_find _ _) as [[i p]|].
  - split; [apply quiet_seatsFrom; repeat split|exact Hinv].
  - split; [apply quiet_seatsFrom, quiet_refl|exact Hinv].
Qed.

Lemma sendChat_keeps trim now playerId text sv :
  playable sv →
  seatsFrom sv (sendChat trim now playerId text sv)
  ∧ playable (sendChat trim now playerId text sv).
Proof.
  intros Hinv. unfold sendChat. destruct (list_find _ _) as [[i p]|];
    [|split; [apply quiet_seatsFrom, quiet_refl|exact Hinv]].
  case_bool_decide; [split; [apply quiet_seatsFrom, quiet_refl|exact Hinv]|].
  split; [|exact Hinv].
  apply seatsFrom_same; [reflexivity|reflexivity|simpl; lia].
Qed.


Lemma handlePlayerExit_keeps playerId sv sv' :
  handlePlayerExit playerId sv = Ok sv' → playable sv → seatsFrom sv sv' ∧ playable sv'.
Proof.
  unfold handlePlayerExit. intros Hrun Hinv. case_bool_decide as Hlobby.
  { injection Hrun as <-. split.
    - split; [reflexivity|]. split; [simpl; lia|]. left.
      unfold players. simpl. apply fmap_sublist, sublist_filter.
    - intros Hst. simpl in Hst. congruence. }
  fold (players sv) in Hrun.
  destruct (list_find _ (players sv)) as [[i player]|] eqn:Hfind;
    [|injection Hrun as <-; split; [apply quiet_seatsFrom; repeat split|exact Hinv]].
  destruct (Player.isEliminated player);
    [injection Hrun as <-; split; [apply quiet_seatsFrom; repeat split|exact Hinv]|].
  apply list_find_Some in Hfind as (Hleaver & Hid & _).
  set (sv2 := upd (GameState.push_log _) (updPlayer i _ sv)) in Hrun.
  assert (Hids : Player.id <$> players sv2 = Player.id <$> players sv).
  { unfold sv2, players. simpl. apply fmap_alter_fixed. reflexivity. }
  assert (Hseats : ∀ sv3, Player.id <$> players sv3 = Player.id <$> players sv2 →
            uuidv4 sv3 = uuidv4 sv2 → uuidCalls sv3 = uuidCalls sv2 →
            seatsFrom sv sv3).
  { intros sv3 H1 H2 H3. apply seatsFrom_same; [congruence|exact H2|].
    rewrite H3. reflexivity. }
  destruct (Nat.leb_spec (length (activePlayers sv2)) 1) as [Hfew|Hmany].
  - case_bool_decide as Hover; simpl in Hrun.
    + injection Hrun as <-. split; [apply Hseats; reflexivity|].
      intros Hst. simpl in Hst. congruence.
    + destruct (list_find _ _) as [[w pw]|]; injection Hrun as <-;
        (split; [apply Hseats; reflexivity|]); intros Hst; discriminate Hst.
  - rewrite andb_false_l in Hrun.
    assert (Hsome : Exists (λ p, Player.active p = true) (players sv2)).
    { apply filter_active_length_Exists. unfold activePlayers in Hmany. lia. }
    destruct (negb _ && _) eqn:Htest.
    + destruct (advanceTurn 1 sv2) as [sv3| |] eqn:Hadv; cbn [bind] in Hrun;
        try discriminate.
      injection Hrun as <-.
      pose proof (advanceTurn_quiet _ _ _ Hadv) as (A1 & _ & A3 & A4 & A5 & A6 & _).
      split; [apply Hseats; assumption|].
      intros Hst. change (GameState.status (state sv3) = GameStatus.PLAYING) in Hst.
      rewrite A5 in Hst. destruct (Hinv Hst) as [_ Hpile]. split.
      * change (turnOnActive sv3). eapply advanceTurn_turn; [|exact Hsome|exact Hadv].
        lia.
      * change (GameState.discardPile (state sv3) ≠ []). intros Hnil.
        rewrite Hnil in A6. simpl in A6.
        destruct (GameState.discardPile (state sv)) as [|c l] using rev_ind;
          [congruence|]. rewrite last_snoc in A6. discriminate.
    + injection Hrun as <-. split; [apply Hseats; reflexivity|].
      intros Hst. change (GameState.status (state sv) = GameStatus.PLAYING) in Hst.
      destruct (Hinv Hst) as [Hturn Hpile]. split; [|exact Hpile].
      rewrite (bool_decide_eq_false_2 (GameState.status (state sv) = GameStatus.GAME_OVER))
        in Htest by congruence.
      simpl in Htest.
      apply activeAt_true in Hturn as (q & Hq & Hqa).
      unfold turnOnActive. apply activeAt_true. exists q. split; [|exact Hqa].
      change (players (notify sv2)) with (players sv2).
      change (GameState.currentPlayerIndex (state (notify sv2)))
        with (GameState.currentPlayerIndex (state sv)).
      destruct (decide (i = GameState.currentPlayerIndex (state sv))) as [Hi|Hi].
      * exfalso. subst i.
        assert (Hl : players sv2 !! GameState.currentPlayerIndex (state sv)
                     = Some (Player.set_isSpectator true
                               (Player.set_hand [] (Player.set_isEliminated true player)))).
        { unfold sv2, players. simpl. rewrite list_lookup_alter_eq.
          fold (players sv). rewrite Hleaver. reflexivity. }
        rewrite Hl in Htest. simpl in Htest.
        rewrite bool_decide_eq_true_2 in Htest by exact Hid. discriminate.
      * unfold sv2, players. simpl. rewrite list_lookup_alter_ne by exact Hi.
        exact Hq.
Qed.

Lemma dealStart_seats (ps : list Player.t) : ∀ deck ps' deck',
  dealStart ps deck = (ps', deck') →
  Player.id <$> ps' = Player.id <$> ps
  ∧ Forall (λ p', Player.isSpectator p' = false → Player.active p' = true) ps'.
Proof.
  induction ps as [|p ps IH]; intros deck ps' deck' Hrun; simpl in Hrun.
  - injection Hrun as <- <-. split; [reflexivity|constructor].
  - destruct (Player.isSpectator p) eqn:Hspec; simpl in Hrun.
    + destruct (dealStart ps deck) as [ps'' deck''] eqn:Hrest.
      injection Hrun as <- <-. destruct (IH _ _ _ Hrest) as [Hid Hall].
      split; [rewrite !fmap_cons, Hid; reflexivity|].
      constructor; [|exact Hall]. simpl. congruence.
    + destruct (dealStart ps (drop 7 deck)) as [ps'' deck''] eqn:Hrest.
      injection Hrun as <- <-. destruct (IH _ _ _ Hrest) as [Hid Hall].
      split; [rewrite !fmap_cons, Hid; reflexivity|].
      constructor; [|exact Hall]. intros _. unfold Player.active. simpl.
      rewrite Hspec. reflexivity.
Qed.

Lemma skipSpectators_Ok fuel (ps : list Player.t) : ∀ j i,
  skipSpectators fuel ps j = Ok i →
  ∃ p, ps !! i = Some p ∧ Player.isSpectator p = false.
Proof.
  induction fuel as [|fuel IH]; intros j i Hrun; simpl in Hrun;
    (destruct (ps !! j) as [p|] eqn:Hp; [|discriminate]);
    (destruct (Player.isSpectator p) eqn:Hspec; [|injection Hrun as <-; eauto]).
  - discriminate.
  - eapply IH; eauto.
Qed.

Lemma startGame_keeps sv sv' :
  startGame sv = Ok sv' → playable sv → seatsFrom sv sv' ∧ playable sv'.
Proof.
  unfold startGame. intros Hrun Hinv.
  destruct (length (players sv) <? 2).
  { injection Hrun as <-. split; [apply quiet_seatsFrom, quiet_refl|exact Hinv]. }
  simpl in Hrun.
  change (players (usedRandom ?n (usedUuid ?m sv))) with (players sv) in Hrun.
  destruct (dealStart (players sv) _) as [ps' deck'] eqn:Hdeal.
  apply dealStart_seats in Hdeal as [Hid Hall].
  destruct (openingCard deck') as [[firstCard deck'']| |]; simpl in Hrun;
    try discriminate.
  destruct (skipSpectators (length ps') ps' 0) as [i| |] eqn:Hskip; simpl in Hrun;
    try discriminate.
  injection Hrun as <-. split.
  - apply seatsFrom_same; [exact Hid|reflexivity|simpl; lia].
  - intros _. split; [|discriminate].
    unfold turnOnActive, players. simpl. apply activeAt_true.
    apply skipSpectators_Ok in Hskip as (p & Hp & Hspec). exists p.
    split; [exact Hp|]. rewrite Forall_forall in Hall. apply Hall; [|exact Hspec].
    eapply list_elem_of_lookup_2; eauto.
Qed.

Lemma dealRound_seats (ps : list Player.t) : ∀ deck ps' deck',
  dealRound ps deck = (ps', deck') →
  Player.id <$> ps' = Player.id <$> ps
  ∧ Player.active <$> ps' = Player.active <$> ps.
Proof.
  induction ps as [|p ps IH]; intros deck ps' deck' Hrun; simpl in Hrun.
  - injection Hrun as <- <-. split; reflexivity.
  - destruct (Player.active p) eqn:Hact.
    + destruct (dealRound ps (drop 7 deck)) as [ps'' deck''] eqn:Hrest.
      injection Hrun as <- <-. destruct (IH _ _ _ Hrest) as [Hid Ha].
      rewrite !fmap_cons, Hid, Ha. split; reflexivity.
    + destruct (dealRound ps deck) as [ps'' deck''] eqn:Hrest.
      injection Hrun as <- <-. destruct (IH _ _ _ Hrest) as [Hid Ha].
      rewrite !fmap_cons, Hid, Ha. split; reflexivity.
Qed.

Lemma nextRound_keeps sv sv' :
  nextRound sv = Ok sv' →
  NoDup (Player.id <$> players sv) → playable sv →
  seatsFrom sv sv' ∧ playable sv'.
Proof.
  unfold nextRound. intros Hrun Hnd Hinv. case_bool_decide as Hover.
  { injection Hrun as <-. split; [apply quiet_seatsFrom, quiet_refl|exact Hinv]. }
  simpl in Hrun.
  change (activePlayers (upd ?f (usedRandom ?n (usedUuid ?m sv))))
    with (activePlayers sv) in Hrun.
  change (players (upd ?f (usedRandom ?n (usedUuid ?m sv)))) with (players sv) in Hrun.
  destruct (Nat.ltb_spec (length (activePlayers sv)) 2) as [Hfew|Hmany].
  { injection Hrun as <-. split.
    - apply seatsFrom_same; [|reflexivity|simpl; lia].
      destruct (_ =? 1); reflexivity.
    - intros Hst. destruct (_ =? 1); discriminate Hst. }
  destruct (dealRound (players sv) _) as [ps' deck'] eqn:Hdeal.
  apply dealRound_seats in Hdeal as [Hid Hact].
  destruct (openingCard deck') as [[firstCard deck'']| |]; simpl in Hrun;
    try discriminate.
  destruct (first_active_seat (players sv) ps' Hnd Hid) as (i & p0 & Hhead & Hfind & Hseat).
  { fold (activePlayers sv). destruct (activePlayers sv); [simpl in Hmany; lia|].
    discriminate. }
  fold (activePlayers sv) in Hhead. rewrite Hhead in Hrun. simpl in Hrun.
  rewrite Hseat in Hrun. simpl in Hrun.
  injection Hrun as <-. split.
  - apply seatsFrom_same; [exact Hid|reflexivity|simpl; lia].
  - intros _. split; [|discriminate].
    unfold turnOnActive, players. simpl. rewrite (activeAt_ext _ _ _ Hact).
    apply list_find_Some in Hfind as (Hp0 & Ha0 & _).
    apply activeAt_true. eauto.
Qed.

Lemma call_keeps trim c sv sv' :
  call trim c sv = Ok sv' →
  NoDup (Player.id <$> players sv) → playable sv →
  seatsFrom sv sv' ∧ playable sv'.
Proof.
  intros Hrun Hnd Hinv. destruct c as [a| | | | | | |]; simpl in Hrun.
  - destruct a; simpl in Hrun.
    + injection Hrun as <-. apply handleJoinRequest_keeps, Hinv.
    + eapply startGame_keeps; eauto.
    + eapply playCard_keeps; eauto.
    + eapply drawCard_keeps; eauto.
    + injection Hrun as <-. apply callUno_keeps, Hinv.
    + eapply nextRound_keeps; eauto.
  - injection Hrun as <-. apply handleJoinRequest_keeps, Hinv.
  - injection Hrun as <-. apply addBot_keeps, Hinv.
  - eapply handlePlayerExit_keeps; eauto.
  - eapply handleTimeout_keeps; eauto.
  - eapply executeBotTurn_keeps; eauto.
  - injection Hrun as <-. apply sendReaction_keeps, Hinv.
  - injection Hrun as <-. apply sendChat_keeps, Hinv.
Qed.

Lemma seatsFrom_ids u0 sv sv' :
  (∀ m n, u0 m = u0 n → m = n) →
  (∀ n, u0 n ≠ "host-id") →
  idsFromOracle u0 sv → length (players sv) ≤ 15 →
  seatsFrom sv sv' →
  idsFromOracle u0 sv' ∧ length (players sv') ≤ 15.
Proof.
  intros Hinj Hhost (Hu & Hnd & Hall) Hlen (Hu' & Hcalls & Hids).
  rewrite Forall_forall in Hall.
  destruct Hids as [Hsub|(Happ & Hlt & Hroom)].
  - split; [split; [congruence|split]|].
    + eapply sublist_NoDup; eauto.
    + apply Forall_forall. intros x Hx.
      destruct (Hall x (elem_of_sublist _ _ _ Hx Hsub)) as [?|(n & Hn & ?)];
        [left; assumption|right]. exists n. split; [lia|assumption].
    + apply sublist_length in Hsub. rewrite !length_fmap in Hsub. lia.
  - split; [split; [congruence|split]|].
    + rewrite Happ. apply NoDup_app. split; [exact Hnd|].
      split; [|apply NoDup_singleton].
      intros x Hx ->%list_elem_of_singleton.
      destruct (Hall _ Hx) as [Heq|(n & Hn & Heq)]; rewrite Hu in Heq.
      * exact (Hhost _ Heq).
      * apply Hinj in Heq. lia.
    + rewrite Happ. apply Forall_app. split.
      * apply Forall_forall. intros x Hx.
        destruct (Hall x Hx) as [?|(n & Hn & ?)]; [left; assumption|right].
        exists n. split; [lia|assumption].
      * constructor; [|constructor]. right. exists (uuidCalls sv).
        split; [exact Hlt|congruence].
    + apply (f_equal length) in Happ. rewrite length_app, !length_fmap in Happ.
      simpl in Happ. lia.
Qed.

Lemma session_keeps trim u0 calls : ∀ sv sv',
  (∀ m n, u0 m = u0 n → m = n) →
  (∀ n, u0 n ≠ "host-id") →
  session trim calls sv = Ok sv' →
  idsFromOracle u0 sv → length (players sv) ≤ 15 → playable sv →
  idsFromOracle u0 sv' ∧ length (players sv') ≤ 15 ∧ playable sv'.
Proof.
  induction calls as [|c calls IH]; intros sv sv' Hinj Hhost Hrun Hids Hlen Hinv;
    simpl in Hrun.
  - injection Hrun as <-. auto.
  - destruct (call trim c sv) as [sv1| |] eqn:Hcall; simpl in Hrun; try discriminate.
    destruct (call_keeps _ _ _ _ Hcall (proj1 (proj2 Hids)) Hinv) as [Hseats Hinv1].
    destruct (seatsFrom_ids u0 sv sv1 Hinj Hhost Hids Hlen Hseats) as [Hids1 Hlen1].
    exact (IH sv1 sv' Hinj Hhost Hrun Hids1 Hlen1 Hinv1).
Qed.

(** X13. Safety of the host over whole sessions. Start from the
    constructor and serve any sequence of calls that return: joins,
    re-joins, bots, leavers, startGame, plays, draws, Uno calls, timeouts,
    bot turns, nextRound, reactions and chat, in any order and from any
    player. If [uuidv4] never repeats a value, then player ids stay
    unique, the roster never exceeds 15, and whenever the status is
    PLAYING the turn is on the seat of a player who is neither eliminated
    nor a spectator and the discard pile is not empty. *)
Theorem sessions_keep_the_turn_on_an_active_player (trim : string → string)
    (hostName hostAvatar roomCode : string) (mode : GameMode.t)
    (uuidv4 : nat → string) (random : nat → nat) (calls : list Call)
    (sv : MockGameServer.t) :
  (∀ m n, uuidv4 m = uuidv4 n → m = n) →
  (∀ n, uuidv4 n ≠ "host-id") →
  session trim calls (new hostName hostAvatar mode roomCode uuidv4 random) = Ok sv →
  NoDup (Player.id <$> players sv)
  ∧ length (players sv) ≤ 15
  ∧ (GameState.status (state sv) = GameStatus.PLAYING →
     (∃ p, players sv !! GameState.currentPlayerIndex (state sv) = Some p
           ∧ Player.isEliminated p = false ∧ Player.isSpectator p = false)
     ∧ GameState.discardPile (state sv) ≠ []).
Proof.
  intros Hinj Hhost Hrun.
  destruct (session_keeps trim uuidv4 calls _ sv Hinj Hhost Hrun)
    as ((_ & Hnd & _) & Hlen & Hinv).
  - split; [reflexivity|]. split.
    + simpl. apply NoDup_singleton.
    + repeat constructor.
  - simpl. lia.
  - intros Hst. discriminate Hst.
  - split; [exact Hnd|]. split; [exact Hlen|].
    intros Hst. destruct (Hinv Hst) as [Hturn Hpile]. split; [|exact Hpile].
    apply activeAt_true in Hturn as (p & Hp & Ha). exists p. split; [exact Hp|].
    unfold Player.active in Ha. apply andb_true_iff in Ha as [H1 H2].
    split; apply negb_true_iff; assumption.
Qed.

Lemma sampleUuid_inj m n : sampleUuid m = sampleUuid n → m = n.
Proof.
  unfold sampleUuid. intros H. apply String.app_inj in H.
  exact (pretty_nat_inj _ _ H).
Qed.

Lemma sessions_keep_the_turn_on_an_active_player_witness :
  session (λ s, s) sessionWithBot lobby = Ok tableWithBot
  ∧ GameState.status (state tableWithBot) = GameStatus.PLAYING
  ∧ NoDup (Player.id <$> players tableWithBot)
  ∧ length (players tableWithBot) ≤ 15
  ∧ (GameState.status (state tableWithBot) = GameStatus.PLAYING →
     (∃ p, players tableWithBot !! GameState.currentPlayerIndex (state tableWithBot)
           = Some p
           ∧ Player.isEliminated p = false ∧ Player.isSpectator p = false)
     ∧ GameState.discardPile (state tableWithBot) ≠ []).
Proof.
  assert (Hrun : session (λ s, s) sessionWithBot lobby = Ok tableWithBot)
    by (vm_compute; reflexivity).
  split; [exact Hrun|]. split; [vm_compute; reflexivity|].
  apply (sessions_keep_the_turn_on_an_active_player (λ s, s) "Ann" "a" "ROOM01"
           GameMode.TOURNAMENT sampleUuid sampleRandom sessionWithBot tableWithBot).
  - exact sampleUuid_inj.
  - intros n H. discriminate H.
  - exact Hrun.
Defined.

Lemma handleRoundWin_returns w sv p :
  players sv !! w = Some p → ∃ sv', handleRoundWin w sv = Ok sv'.
Proof.
  intros Hp. unfold handleRoundWin, getPlayer.
  change (players (setTimer false sv)) with (players sv). rewrite Hp. simpl.
  destruct (GameState.mode (state sv)); eexists; reflexivity.
Qed.

Lemma playCard_returns playerId cardId wildColor sv :
  turnOnActive sv → GameState.discardPile (state sv) ≠ [] →
  ∃ sv', playCard playerId cardId wildColor sv = Ok sv'.
Proof.
  intros Hturn Hpile. pose proof (activeAt_Exists _ _ Hturn) as Hsome.
  apply activeAt_true in Hturn as (player & Hplayer & Hactive).
  unfold playCard. case_bool_decide as Hmine; [eauto|].
  unfold getPlayer. fold (players sv). rewrite Hplayer. simpl.
  destruct (list_find _ (Player.hand player)) as [[cardIndex card]|]; [|eauto].
  destruct (last (GameState.discardPile (state sv))) as [top|] eqn:Htop.
  2:{ destruct (GameState.discardPile (state sv)) as [|c l] using rev_ind;
        [congruence|]. rewrite last_snoc in Htop. discriminate. }
  simpl. destruct (isValidMove card top _); simpl; [|eauto].
  destruct (applyPlay_effects (GameState.currentPlayerIndex (state sv)) cardIndex card
              wildColor player sv Hplayer (λ _, Hsome))
    as (sv5 & penalty & nextP & extra & Hrun & Hps5 & _).
  rewrite Hrun.
  destruct (acting_player_after (GameState.currentPlayerIndex (state sv)) cardIndex
              penalty nextP extra player (players sv) Hplayer)
    as (p5 & mine & Hp5 & _).
  rewrite <- Hps5 in Hp5.
  unfold finishPlay, getPlayer. rewrite Hp5. simpl.
  destruct (_ =? 0); [eapply handleRoundWin_returns; eauto|].
  destruct (getNextPlayerIndex_Ok
              (nextOffsetOf card (length (activePlayers sv))) (startTurnTimer sv5)
              (nextOffsetOf_pos _ _)) as (i & q & Hi & _).
  { change (players (startTurnTimer sv5)) with (players sv5).
    eapply Exists_active_fmap; [|exact Hsome].
    rewrite Hps5, !fmap_alter_fixed; [reflexivity| |]; intros.
    - apply afterPlay_active.
    - reflexivity. }
  unfold advanceTurn. rewrite Hi. simpl. eauto.
Qed.

Lemma drawCard_returns playerId sv :
  turnOnActive sv → ∃ sv', drawCard playerId sv = Ok sv'.
Proof.
  intros Hturn. pose proof (activeAt_Exists _ _ Hturn) as Hsome.
  apply activeAt_true in Hturn as (player & Hplayer & Hactive).
  unfold drawCard. case_bool_decide as Hmine; [eauto|].
  destruct (drawCards_frame (GameState.currentPlayerIndex (state sv)) 1 sv
              (lookup_lt_Some _ _ _ Hplayer))
    as (sv1 & drawn & Hrun & (Hps1 & _) & _).
  rewrite Hrun. cbn [bind].
  unfold getPlayer. rewrite Hps1, list_lookup_alter_eq, Hplayer. simpl.
  set (sv2 := upd _ sv1).
  destruct (getNextPlayerIndex_Ok 1 (startTurnTimer sv2) ltac:(lia)) as (i & q & Hi & _).
  { change (players (startTurnTimer sv2)) with (players sv1).
    eapply Exists_active_fmap; [|exact Hsome].
    rewrite Hps1, fmap_alter_fixed; reflexivity. }
  unfold advanceTurn. rewrite Hi. simpl. eauto.
Qed.

Lemma validMoves_Ok (hand : list Card.t) top currentColor :
  validMoves hand (Some top) currentColor
  = Ok (filter (λ c, isValidMove c top currentColor = true) hand).
Proof.
  induction hand as [|c hand IH]; [reflexivity|].
  simpl. rewrite IH. simpl. rewrite filter_cons.
  destruct (isValidMove c top currentColor) eqn:E.
  - rewrite decide_True by reflexivity. reflexivity.
  - rewrite decide_False by discriminate. reflexivity.
Qed.

(** X14. No call of a turn throws or hangs while the turn is on the seat of
    an active player and the discard pile shows a card (which the host
    keeps true in every session while the status is PLAYING): [playCard]
    and [drawCard] return for every caller and every argument, and so do
    [handleTimeout] and the turn of a bot at any seat of the roster. *)
Theorem the_calls_of_a_turn_return (sv : MockGameServer.t) :
  turnOnActive sv →
  GameState.discardPile (state sv) ≠ [] →
  (∀ playerId cardId wildColor, ∃ sv', playCard playerId cardId wildColor sv = Ok sv')
  ∧ (∀ playerId, ∃ sv', drawCard playerId sv = Ok sv')
  ∧ (∃ sv', handleTimeout sv = Ok sv')
  ∧ (∀ botIndex, botIndex < length (players sv) →
                 ∃ sv', executeBotTurn botIndex sv = Ok sv').
Proof.
  intros Hturn Hpile.
  split; [intros; apply playCard_returns; assumption|].
  split; [intros; apply drawCard_returns; assumption|].
  split.
  - unfold handleTimeout, getPlayer.
    destruct (proj1 (activeAt_true _ _) Hturn) as (p & Hp & Ha). rewrite Hp.
    cbn [bind]. unfold Player.active in Ha. apply andb_true_iff in Ha as [H1 H2].
    apply negb_true_iff in H1, H2. rewrite H1, H2. simpl.
    apply drawCard_returns. exact Hturn.
  - intros botIndex Hseat. unfold executeBotTurn, getPlayer.
    destruct (lookup_lt_is_Some_2 _ _ Hseat) as [bot Hbot]. rewrite Hbot. cbn [bind].
    destruct (last (GameState.discardPile (state sv))) as [top|] eqn:Htop.
    2:{ destruct (GameState.discardPile (state sv)) as [|c l] using rev_ind;
          [congruence|]. rewrite last_snoc in Htop. discriminate. }
    rewrite validMoves_Ok. cbn [bind].
    destruct (sort byBotPriority _) as [|cardToPlay rest];
      [apply drawCard_returns; exact Hturn|].
    destruct (_ =? 2); [|apply playCard_returns; assumption].
    destruct (callUno_quiet (Player.id bot) sv) as ((_ & Hact & _) & Hcur & Hdisc).
    apply playCard_returns.
    + unfold turnOnActive. rewrite Hcur, (activeAt_ext _ _ _ Hact). exact Hturn.
    + rewrite Hdisc. exact Hpile.
Qed.

Lemma the_calls_of_a_turn_return_witness :
  (∀ playerId cardId wildColor,
     ∃ sv', playCard playerId cardId wildColor tableTwoCards = Ok sv')
  ∧ (∀ playerId, ∃ sv', drawCard playerId tableTwoCards = Ok sv')
  ∧ (∃ sv', handleTimeout tableTwoCards = Ok sv')
  ∧ (∀ botIndex, botIndex < length (players tableTwoCards) →
                 ∃ sv', executeBotTurn botIndex tableTwoCards = Ok sv').
Proof.
  apply (the_calls_of_a_turn_return tableTwoCards).
  - reflexivity.
  - discriminate.
Defined.

(** ** Bots and the timer *)

Lemma head_sort_byBotPriority (l : list Card.t) :
  match sort byBotPriority l with
  | [] => l = []
  | h :: _ =>
      ∃ l1 l2, l = l1 ++ h :: l2
               ∧ (∀ y, y ∈ l1 → (botPriority y < botPriority h)%Z)
               ∧ (∀ y, y ∈ l2 → (botPriority y ≤ botPriority h)%Z)
  end.
Proof.
  induction l as [|x l IH]; simpl; [reflexivity|].
  destruct (sort byBotPriority l) as [|y s]; simpl in *.
  - subst l. exists [], []. split; [reflexivity|]. split; intros ? []%elem_of_nil.
  - destruct IH as (l1 & l2 & -> & Hl1 & Hl2).
    unfold byBotPriority at 1.
    destruct (Z.leb_spec (botPriority y - botPriority x) 0); simpl.
    + exists [], (l1 ++ y :: l2). split; [reflexivity|].
      split; [intros ? []%elem_of_nil|].
      intros z [Hz|[->|Hz]%elem_of_cons]%elem_of_app.
      * specialize (Hl1 z Hz). lia.
      * lia.
      * specialize (Hl2 z Hz). lia.
    + exists (x :: l1), l2. split; [reflexivity|]. split; [|exact Hl2].
      intros z [->|Hz]%elem_of_cons; [lia|auto].
Qed.




Lemma list_find_card (hand : list Card.t) ci c :
  NoDup (Card.id <$> hand) →
  hand !! ci = Some c →
  list_find (λ x, Card.id x = Card.id c) hand = Some (ci, c).
Proof.
  intros Hnd Hc. apply list_find_Some. split; [exact Hc|]. split; [reflexivity|].
  intros j y Hy Hj Hid.
  assert (j = ci); [|lia].
  apply (NoDup_lookup (Card.id <$> hand) j ci (Card.id c) Hnd);
    rewrite list_lookup_fmap; [rewrite Hy|rewrite Hc]; simpl; congruence.
Qed.

(** X16. A bot never pays the Uno penalty. When it is the turn of a bot that
    holds two cards (of distinct ids), one of them legal, at a table of
    two active players or more with unique player ids, its turn returns
    with the bot holding the one other card, its Uno flag raised, no
    penalty card drawn: the log gains the call, not the penalty. *)
Theorem executeBotTurn_calls_uno_in_time (sv : MockGameServer.t) (bot : Player.t)
    (top : Card.t) :
  NoDup (Player.id <$> players sv) →
  players sv !! GameState.currentPlayerIndex (state sv) = Some bot →
  Player.active bot = true →
  2 ≤ length (activePlayers sv) →
  length (Player.hand bot) = 2 →
  NoDup (Card.id <$> Player.hand bot) →
  last (GameState.discardPile (state sv)) = Some top →
  Exists (λ c, isValidMove c top (GameState.currentColor (state sv)) = true)
    (Player.hand bot) →
  ∃ sv' bot' played kept,
    executeBotTurn (GameState.currentPlayerIndex (state sv)) sv = Ok sv'
    ∧ Player.hand bot ≡ₚ [played; kept]
    ∧ isValidMove played top (GameState.currentColor (state sv)) = true
    ∧ players sv' !! GameState.currentPlayerIndex (state sv) = Some bot'
    ∧ Player.hand bot' = [kept]
    ∧ Player.hasCalledUno bot' = true
    ∧ last (GameState.discardPile (state sv')) = Some played
    ∧ GameState.log (state sv')
      = GameState.log (state sv) ++ [Player.name bot +:+ " called UNO!"]
    ∧ GameState.status (state sv') = GameState.status (state sv).
Proof.
  intros Hnd Hbot Hactive Htwo Hlen Hcards Htop Hlegal.
  set (cur := GameState.currentPlayerIndex (state sv)) in *.
  set (legal := filter (λ c, isValidMove c top (GameState.currentColor (state sv)) = true)
                  (Player.hand bot)).
  (* the choice *)
  unfold executeBotTurn, getPlayer. rewrite Hbot. cbn [bind].
  rewrite Htop, validMoves_Ok. cbn [bind]. fold legal.
  pose proof (head_sort_byBotPriority legal) as Hhead.
  destruct (sort byBotPriority legal) as [|c rest].
  { exfalso. apply Exists_exists in Hlegal as (x & Hx & Hv).
    assert (Hin : x ∈ legal) by (apply list_elem_of_filter; auto).
    rewrite Hhead in Hin. inversion Hin. }
  destruct Hhead as (l1 & l2 & Hsplit & _).
  assert (Hc : c ∈ legal) by (rewrite Hsplit; apply elem_of_app; right; left).
  apply list_elem_of_filter in Hc as [Hvalid Hc].
  apply list_elem_of_lookup in Hc as (ci & Hci).
  rewrite Hlen. simpl Nat.eqb. cbv iota.
  (* the call *)
  unfold callUno. rewrite (list_find_id _ _ _ Hnd Hbot), Hlen. simpl Nat.leb. cbv iota.
  set (bot1 := Player.set_hasCalledUno true bot).
  set (sv1 := notify (upd _ (updPlayer cur (Player.set_hasCalledUno true) sv))).
  assert (Hps1 : players sv1 = alter (Player.set_hasCalledUno true) cur (players sv))
    by reflexivity.
  assert (Hbot1 : players sv1 !! cur = Some bot1).
  { rewrite Hps1, list_lookup_alter_eq, Hbot. reflexivity. }
  assert (Hact1 : Player.active <$> players sv1 = Player.active <$> players sv).
  { rewrite Hps1. apply fmap_alter_fixed. reflexivity. }
  assert (Hnd1 : NoDup (Player.id <$> players sv1)).
  { rewrite Hps1, fmap_alter_fixed by reflexivity. exact Hnd. }
  assert (Htwo1 : 2 ≤ length (activePlayers sv1)).
  { unfold activePlayers. rewrite (activeCount_ext _ (players sv) Hact1). exact Htwo. }
  assert (Hsome1 : Exists (λ p, Player.active p = true) (players sv1)).
  { eapply active_Exists; [exact Hbot1|exact Hactive]. }
  (* the play *)
  assert (Hacc : accepted sv1 (Player.id bot) (Card.id c) bot1 ci c).
  { split; [|split; [exact Hbot1|split]].
    - unfold findIndex. fold (players sv1).
      change (Player.id bot) with (Player.id bot1).
      rewrite (list_find_id _ _ _ Hnd1 Hbot1). reflexivity.
    - apply list_find_card; assumption.
    - change (last (GameState.discardPile (state sv1)))
        with (last (GameState.discardPile (state sv))).
      rewrite Htop. simpl. rewrite Hvalid. reflexivity. }
  rewrite (playCard_accepted _ _ _ _ _ _ _ Hacc).
  change (GameState.currentPlayerIndex (state sv1)) with cur.
  destruct (applyPlay_effects cur ci c
              (if bool_decide (Card.color c = CardColor.black)
               then Some (bestColor (Player.hand bot)) else None)
              bot1 sv1 Hbot1 (λ _, Hsome1))
    as (sv5 & penalty & nextP & extra & Hrun & Hps5 & _ & Hout5 & Hpenalty & Hextra).
  assert (Hforgot : forgotUno bot1 ci = false).
  { unfold forgotUno. simpl. apply andb_false_r. }
  rewrite Hforgot in Hpenalty, Hout5. subst penalty.
  destruct (acting_player_after cur ci [] nextP extra bot1 (players sv1) Hbot1)
    as (p5 & mine & Hp5 & Hhand5 & Hflag5 & Hmine).
  rewrite <- Hps5 in Hp5.
  assert (Hmine' : mine = []).
  { destruct Hmine as [?|[-> Hself]]; [assumption|].
    destruct (makesNextDraw c); [|assumption].
    destruct Hextra as (q & _ & _ & Hnext).
    exfalso. exact (next_seat_is_other sv1 bot1 nextP Hbot1 Htwo1 Hnext Hself). }
  subst mine. rewrite !app_nil_r in Hhand5. rewrite app_nil_r in Hflag5.
  change (Player.hand bot1) with (Player.hand bot) in Hhand5, Hflag5.
  (* the card kept *)
  assert (Hkept : ∃ kept, delete ci (Player.hand bot) = [kept]
                          ∧ Player.hand bot ≡ₚ [c; kept]).
  { pose proof (delete_Permutation _ _ _ Hci) as Hperm.
    destruct (delete ci (Player.hand bot)) as [|kept [|? ?]] eqn:Hdel;
      apply Permutation_length in Hperm as Hl; rewrite Hlen in Hl; simpl in Hl;
      try lia.
    exists kept. split; [reflexivity|exact Hperm]. }
  destruct Hkept as (kept & Hdel & Hperm).
  rewrite Hdel in Hhand5, Hflag5. simpl in Hflag5.
  assert (Hact5 : Player.active <$> players sv5 = Player.active <$> players sv1).
  { rewrite Hps5, !fmap_alter_fixed; [reflexivity| |]; intros.
    - apply afterPlay_active.
    - reflexivity. }
  destruct (finishPlay_advance cur (nextOffsetOf c (length (activePlayers sv1))) sv5 p5
              Hp5)
    as (i & q & Hi & _ & _ & Hfin).
  { rewrite Hhand5. discriminate. }
  { apply nextOffsetOf_pos. }
  { eapply Exists_active_fmap; [symmetry; exact Hact5|exact Hsome1]. }
  assert (Hplay : applyPlay cur ci c
                    (if bool_decide (Card.color c = CardColor.black)
                     then Some (bestColor (Player.hand bot)) else None) sv1
                  = Ok (notify (upd (GameState.set_currentPlayerIndex i)
                                  (startTurnTimer sv5))))
    by (rewrite Hrun; exact Hfin).
  apply applyPlay_table in Hplay as (_ & _ & _ & Hlast & _).
  rewrite Hrun, Hfin.
  eexists _, p5, c, kept. split; [reflexivity|].
  split; [exact Hperm|]. split; [exact Hvalid|].
  split; [exact Hp5|]. split; [exact Hhand5|]. split; [exact Hflag5|].
  split; [exact Hlast|].
  unfold outsideCards in Hout5. simpl.
  destruct (flipsDirection c (length (activePlayers sv1))); simpl in Hout5;
    split; congruence.
Qed.

Lemma executeBotTurn_calls_uno_in_time_witness :
  ∃ sv' bot' played kept,
    executeBotTurn 0 tableBotTwoCards = Ok sv'
    ∧ [green7; red5] ≡ₚ [played; kept]
    ∧ isValidMove played red9 CardColor.red = true
    ∧ players sv' !! 0 = Some bot'
    ∧ Player.hand bot' = [kept]
    ∧ Player.hasCalledUno bot' = true
    ∧ last (GameState.discardPile (state sv')) = Some played
    ∧ GameState.log (state sv') = [] ++ ["X called UNO!"]
    ∧ GameState.status (state sv') = GameStatus.PLAYING.
Proof.
  apply (executeBotTurn_calls_uno_in_time tableBotTwoCards
           (botSeat "X" [green7; red5]) red9).
  - apply (bool_decide_unpack _). vm_compute. exact I.
  - reflexivity.
  - reflexivity.
  - vm_compute. lia.
  - reflexivity.
  - apply (bool_decide_unpack _). vm_compute. exact I.
  - reflexivity.
  - apply Exists_cons_tl, Exists_cons_hd. reflexivity.
Defined.

(** X17. When the turn timer runs out, with unique player ids and an active
    player at the table: for an active player on the turn the timeout is
    [drawCard] for that player, and the draw goes through because the id
    leads back to the turn seat; for a player on the turn who has left or
    been eliminated nothing is drawn and the turn only passes to the next
    active seat, with a fresh timer. *)
Theorem handleTimeout_draws_for_the_player_or_passes (sv : MockGameServer.t)
    (p : Player.t) :
  NoDup (Player.id <$> players sv) →
  players sv !! GameState.currentPlayerIndex (state sv) = Some p →
  Exists (λ q, Player.active q = true) (players sv) →
  if Player.active p
  then handleTimeout sv = drawCard (Player.id p) sv
       ∧ findIndex (λ q, Player.id q = Player.id p) (players sv)
         = Some (GameState.currentPlayerIndex (state sv))
  else ∃ i q,
         handleTimeout sv
         = Ok (notify (upd (GameState.set_currentPlayerIndex i) (startTurnTimer sv)))
         ∧ getNextPlayerIndex 1 sv = Ok i
         ∧ players sv !! i = Some q ∧ Player.active q = true.
Proof.
  intros Hnd Hp Hsome. unfold handleTimeout, getPlayer. rewrite Hp. cbn [bind].
  unfold Player.active.
  destruct (Player.isEliminated p), (Player.isSpectator p); simpl;
    try (destruct (getNextPlayerIndex_Ok 1 sv ltac:(lia) Hsome) as (i & q & Hi & Hq & Ha);
         exists i, q; unfold advanceTurn;
         change (getNextPlayerIndex 1 (startTurnTimer sv)) with (getNextPlayerIndex 1 sv);
         rewrite Hi; repeat split; assumption).
  split; [reflexivity|]. unfold findIndex. rewrite (list_find_id _ _ _ Hnd Hp).
  reflexivity.
Qed.

Lemma handleTimeout_draws_for_the_player_or_passes_witness :
  handleTimeout tableTwoCards = drawCard "A" tableTwoCards
  ∧ findIndex (λ q, Player.id q = "A") (players tableTwoCards) = Some 0.
Proof.
  apply (handleTimeout_draws_for_the_player_or_passes tableTwoCards
           (seatedPlayer "A" [red5; green7] false)).
  - apply (bool_decide_unpack _). vm_compute. exact I.
  - reflexivity.
  - apply Exists_cons_hd. reflexivity.
Defined.

(** ** Chat, the top card and the card count *)

Lemma substring_length n : ∀ s, String.length (String.substring 0 n s) ≤ n.
Proof.
  induction n as [|n IH]; intros [|a s]; simpl; try lia.
  specialize (IH s). lia.
Qed.

(** X18. [sendChat] stores a message only for a sender on the roster and a
    text that is not blank after trimming. The message carries the text
    trimmed and cut to 100 characters and goes to the end of the history;
    a history that held 50 messages drops its oldest one, so a history of
    at most 50 stays at most 50. Roster, cards and turn are not
    touched. *)
Theorem sendChat_keeps_the_last_50_messages (trim : string → string) (now : nat)
    (playerId text : string) (sv : MockGameServer.t) :
  let sv' := sendChat trim now playerId text sv in
  let history := GameState.chatMessages (state sv) in
  (length history ≤ 50 → length (GameState.chatMessages (state sv')) ≤ 50)
  ∧ (((playerId ∉ (Player.id <$> players sv) ∨ trim text = EmptyString) ∧ sv' = sv)
     ∨ (∃ msg,
          playerId ∈ (Player.id <$> players sv)
          ∧ trim text ≠ EmptyString
          ∧ ChatMessage.senderId msg = playerId
          ∧ ChatMessage.text msg = String.substring 0 100 (trim text)
          ∧ String.length (ChatMessage.text msg) ≤ 100
          ∧ GameState.chatMessages (state sv')
            = (if 50 <=? length history then drop 1 history else history) ++ [msg]))
  ∧ players sv' = players sv
  ∧ allCards sv' = allCards sv
  ∧ GameState.currentPlayerIndex (state sv') = GameState.currentPlayerIndex (state sv)
  ∧ GameState.status (state sv') = GameState.status (state sv).
Proof.
  intros sv' history. unfold sv', sendChat.
  destruct (list_find _ (players sv)) as [[i player]|] eqn:Hfind.
  - apply list_find_Some in Hfind as (Hp & Hid & _).
    case_bool_decide as Hblank.
    + split; [auto|]. split; [left; auto|]. repeat split.
    + set (msg := ChatMessage.mk (uuidv4 sv (uuidCalls sv)) playerId (Player.name player)
                    (String.substring 0 100 (trim text)) now).
      fold history.
      assert (Hif : (if 50 <? length (history ++ [msg])
                     then drop 1 (history ++ [msg]) else history ++ [msg])
                    = (if 50 <=? length history then drop 1 history else history)
                      ++ [msg]).
      { rewrite length_app. simpl length.
        destruct (Nat.ltb_spec 50 (length history + 1));
          destruct (Nat.leb_spec 50 (length history)); try lia; [|reflexivity].
        destruct history; [simpl in *; lia|]. reflexivity. }
      cbn -[Nat.ltb Nat.leb]. rewrite Hif.
      split; [|split; [right|repeat split]].
      * intros Hlen.
        destruct (Nat.leb_spec 50 (length history));
          rewrite length_app, ?length_drop; simpl; lia.
      * exists msg. split.
        { apply list_elem_of_fmap. exists player. split; [auto|].
          eapply list_elem_of_lookup_2; eauto. }
        split; [exact Hblank|]. split; [reflexivity|]. split; [reflexivity|].
        split; [apply substring_length|reflexivity].
  - apply list_find_None in Hfind.
    split; [auto|]. split; [left|repeat split]. split; [|reflexivity]. left.
    intros (p & -> & Hp)%list_elem_of_fmap. rewrite Forall_forall in Hfind.
    exact (Hfind p Hp eq_refl).
Qed.

(** X19. The card of an accepted play ends on top of the discard pile,
    also when the play makes a penalty or a draw turn the discard pile
    over; the current colour is the colour of the card, or for a black
    card the colour named with it, and black when none is named. *)
Theorem playCard_puts_the_card_on_top (sv sv' : MockGameServer.t)
    (playerId cardId : string) (wildColor : option CardColor.t)
    (player : Player.t) (cardIndex : nat) (card : Card.t) :
  accepted sv playerId cardId player cardIndex card →
  playCard playerId cardId wildColor sv = Ok sv' →
  last (GameState.discardPile (state sv')) = Some card
  ∧ GameState.currentColor (state sv')
    = (if bool_decide (Card.color card = CardColor.black)
       then default CardColor.black wildColor
       else Card.color card).
Proof.
  intros Hacc Hplay. rewrite (playCard_accepted _ _ _ _ _ _ _ Hacc) in Hplay.
  apply applyPlay_table in Hplay as (_ & _ & _ & Htop & Hcolor & _).
  split; [exact Htop|]. rewrite Hcolor. simpl.
  destruct wildColor; case_bool_decide; simpl; congruence.
Qed.

Lemma playCard_puts_the_card_on_top_witness :
  last (GameState.discardPile (state tableReversePlayed)) = Some redReverse
  ∧ GameState.currentColor (state tableReversePlayed) = CardColor.red.
Proof.
  apply (playCard_puts_the_card_on_top tableReverse tableReversePlayed "A" "rR" None
           (seatedPlayer "A" [redReverse; green7; red5] false) 0 redReverse).
  - repeat split.
  - vm_compute. reflexivity.
Defined.

Lemma playCard_cards playerId cardId wildColor sv sv' :
  Exists (λ p, Player.active p = true) (players sv) →
  playCard playerId cardId wildColor sv = Ok sv' →
  allCards sv' ≡ₚ allCards sv.
Proof.
  intros Hsome Hplay. pose proof Hplay as Hrun. unfold playCard in Hrun.
  case_bool_decide as Hmine; [injection Hrun as <-; reflexivity|].
  unfold getPlayer in Hrun.
  destruct (players sv !! GameState.currentPlayerIndex (state sv)) as [player|] eqn:Hplayer;
    [|discriminate].
  simpl in Hrun.
  destruct (list_find _ (Player.hand player)) as [[cardIndex card]|] eqn:Hfind;
    [|injection Hrun as <-; reflexivity].
  destruct (validAgainstTop _ _ _) as [[|]| |] eqn:Hvalid; simpl in Hrun;
    try discriminate; [|injection Hrun as <-; reflexivity].
  eapply (playCard_moves_cards sv sv' playerId cardId wildColor player cardIndex card);
    [|exact Hsome|exact Hplay].
  repeat split; assumption.
Qed.

Lemma callUno_cards playerId sv : allCards (callUno playerId sv) = allCards sv.
Proof.
  unfold callUno. destruct (list_find _ _) as [[i p]|]; [|reflexivity].
  destruct (_ <=? 2); [|reflexivity].
  unfold allCards, players. simpl. rewrite fmap_alter_fixed by reflexivity.
  reflexivity.
Qed.

Lemma allCards_seated sv sv' p :
  players sv' = players sv ++ [p] → Player.hand p = [] →
  GameState.deck (state sv') = GameState.deck (state sv) →
  GameState.discardPile (state sv') = GameState.discardPile (state sv) →
  allCards sv' = allCards sv.
Proof.
  intros Hps Hhand Hdeck Hpile. unfold allCards.
  rewrite Hps, Hdeck, Hpile, fmap_app, concat_app. simpl.
  rewrite Hhand, !app_nil_r. reflexivity.
Qed.

Lemma handleJoinRequest_cards name avatar existingId sv :
  allCards (handleJoinRequest name avatar existingId sv) = allCards sv.
Proof.
  unfold handleJoinRequest.
  destruct (match existingId with Some _ => _ | None => false end); [reflexivity|].
  destruct (15 <=? _); [reflexivity|].
  erewrite allCards_seated; reflexivity.
Qed.

(** X20. Between the deals the cards only move. Any call that returns at a
    table with an active player, other than [startGame], [nextRound] and
    a leave, keeps the cards of deck, discard pile and hands the same up
    to their places: joins, bots, plays with their penalties and forced
    draws, draws with the discard pile turned over, Uno calls, timeouts,
    bot turns, reactions and chat neither make nor lose a card. *)
Theorem cards_only_move_between_the_deals (trim : string → string) (c : Call)
    (sv sv' : MockGameServer.t) :
  Exists (λ p, Player.active p = true) (players sv) →
  movesCardsOnly c = true →
  call trim c sv = Ok sv' →
  allCards sv' ≡ₚ allCards sv.
Proof.
  intros Hsome Hkind Hrun. destruct c as [a| | | | | | |]; simpl in Hrun.
  - destruct a; simpl in Hrun; try discriminate Hkind.
    + injection Hrun as <-. rewrite handleJoinRequest_cards. reflexivity.
    + eapply playCard_cards; eauto.
    + eapply drawCard_moves_cards; eauto.
    + injection Hrun as <-. rewrite callUno_cards. reflexivity.
  - injection Hrun as <-. rewrite handleJoinRequest_cards. reflexivity.
  - injection Hrun as <-. unfold addBot.
    destruct (15 <=? _); [reflexivity|].
    erewrite allCards_seated; reflexivity.
  - discriminate Hkind.
  - unfold handleTimeout in Hrun.
    destruct (getPlayer _ sv) as [p| |]; cbn [bind] in Hrun; try discriminate.
    destruct (_ || _); [|eapply drawCard_moves_cards; eauto].
    unfold advanceTurn in Hrun.
    destruct (getNextPlayerIndex 1 _) as [i| |]; simpl in Hrun; try discriminate.
    injection Hrun as <-. reflexivity.
  - unfold executeBotTurn in Hrun.
    destruct (getPlayer botIndex sv) as [bot| |]; cbn [bind] in Hrun; try discriminate.
    destruct (validMoves _ _ _) as [moves| |]; cbn [bind] in Hrun; try discriminate.
    destruct (sort byBotPriority moves) as [|cardToPlay rest];
      [eapply drawCard_moves_cards; eauto|].
    destruct (_ =? 2); [|eapply playCard_cards; eauto].
    rewrite <- (callUno_cards (Player.id bot) sv).
    eapply playCard_cards; [|exact Hrun].
    destruct (callUno_quiet (Player.id bot) sv) as ((_ & Hact & _) & _).
    eapply Exists_active_fmap; [symmetry; exact Hact|exact Hsome].
  - injection Hrun as <-. unfold sendReaction.
    destruct (list_find _ _) as [[i p]|]; reflexivity.
  - injection Hrun as <-. unfold sendChat.
    destruct (list_find _ _) as [[i p]|]; [|reflexivity].
    case_bool_decide; reflexivity.
Qed.

Lemma cards_only_move_between_the_deals_witness :
  ∃ sv',
    call (λ s, s) (BotTurn 0) tableBot = Ok sv'
    ∧ allCards sv' ≡ₚ allCards tableBot.
Proof.
  eexists. split; [vm_compute; reflexivity|].
  apply (cards_only_move_between_the_deals (λ s, s) (BotTurn 0) tableBot).
  - apply Exists_cons_hd. reflexivity.
  - reflexivity.
  - vm_compute. reflexivity.
Defined.

(** ** Draw cards *)

Lemma lookup_fmap_eq {B} (g : Player.t → B) (ps ps' : list Player.t) i p :
  g <$> ps' = g <$> ps → ps !! i = Some p →
  ∃ p', ps' !! i = Some p' ∧ g p' = g p.
Proof.
  intros Heq Hp.
  assert (Hl : (g <$> ps') !! i = Some (g p))
    by (rewrite Heq, list_lookup_fmap, Hp; reflexivity).
  rewrite list_lookup_fmap in Hl. destruct (ps' !! i) as [p'|]; [|discriminate].
  exists p'. split; [reflexivity|]. simpl in Hl. congruence.
Qed.

Lemma finishPlay_hands cur n sv sv' :
  finishPlay cur n sv = Ok sv' →
  Player.hand <$> players sv' = Player.hand <$> players sv.
Proof.
  unfold finishPlay. destruct (getPlayer cur sv) as [p| |]; simpl; try discriminate.
  destruct (_ =? 0); [apply handleRoundWin_hands|].
  unfold advanceTurn. destruct (getNextPlayerIndex n _) as [i| |]; simpl;
    try discriminate.
  intros [= <-]. reflexivity.
Qed.

(** X21. A draw-two or a wild draw-four, accepted at a table of two active
    players or more, makes the next active seat in turn order (never the
    seat of the player) draw: the hand of that seat grows at its end by
    at most 2 or 4 cards, and by exactly that many when deck and discard
    pile together hold more cards than that. This happens before the
    hand of the player is looked at, so also when the card was the last
    one. When the player keeps a card the turn then goes to the second
    active seat: the seat that drew is passed over. *)
Theorem playCard_makes_the_next_player_draw (sv sv' : MockGameServer.t)
    (playerId cardId : string) (wildColor : option CardColor.t)
    (player : Player.t) (cardIndex : nat) (card : Card.t) :
  accepted sv playerId cardId player cardIndex card →
  makesNextDraw card = true →
  2 ≤ length (activePlayers sv) →
  playCard playerId cardId wildColor sv = Ok sv' →
  ∃ nextP victim victim' extra,
    getNextPlayerIndex 1 sv = Ok nextP
    ∧ nextP ≠ GameState.currentPlayerIndex (state sv)
    ∧ players sv !! nextP = Some victim
    ∧ Player.active victim = true
    ∧ players sv' !! nextP = Some victim'
    ∧ Player.hand victim' = Player.hand victim ++ extra
    ∧ length extra ≤ drawCount card
    ∧ (drawCount card < length (GameState.deck (state sv))
                        + length (GameState.discardPile (state sv)) →
       length extra = drawCount card)
    ∧ (delete cardIndex (Player.hand player) ≠ [] →
       getNextPlayerIndex 2 sv = Ok (GameState.currentPlayerIndex (state sv'))).
Proof.
  intros Hacc Hdraw Htwo Hplay.
  rewrite (playCard_accepted _ _ _ _ _ _ _ Hacc) in Hplay.
  destruct Hacc as (_ & Hplayer & _ & _).
  remember (GameState.currentPlayerIndex (state sv)) as cur eqn:Hcur.
  change (players sv !! cur = Some player) in Hplayer.
  assert (Hsome : Exists (λ p, Player.active p = true) (players sv)).
  { apply filter_active_length_Exists. unfold activePlayers in Htwo. lia. }
  unfold applyPlay in Hplay.
  destruct (play_until_color cur cardIndex card player sv Hplayer)
    as (sv3 & penalty & Hrun3 & Hps3 & Hperm3 & Hout3 & Hpen).
  set (sv1 := moveToDiscard cur cardIndex card sv) in *.
  destruct (unoPenalty cur sv1) as [sv2| |] eqn:H2; simpl in Hrun3; try discriminate.
  cbn [bind] in Hplay. rewrite Hrun3 in Hplay. cbn [bind] in Hplay.
  (* the piles when the effect of the card begins *)
  assert (Htop3 : last (GameState.discardPile (state sv3)) = Some card).
  { apply unoPenalty_quiet in H2 as (_ & _ & _ & _ & _ & A6 & _).
    apply resetUno_quiet in Hrun3 as (_ & _ & _ & _ & _ & B6 & _).
    rewrite B6, A6. unfold sv1. simpl. apply last_snoc. }
  assert (Hlen : length penalty ≤ 1).
  { destruct (forgotUno player cardIndex); [apply Hpen|]. subst penalty. simpl. lia. }
  assert (Hav3 : available sv3 + length penalty
                 = length (GameState.deck (state sv))
                   + length (GameState.discardPile (state sv))).
  { apply Permutation_length in Hperm3. rewrite !length_app in Hperm3.
    simpl in Hperm3. unfold available.
    destruct (GameState.discardPile (state sv3)) as [|c l] using rev_ind;
      [discriminate|]. rewrite length_app in *. simpl in *. lia. }
  assert (Hact3 : Player.active <$> players sv3 = Player.active <$> players sv).
  { rewrite Hps3. apply fmap_alter_fixed. intros. apply afterPlay_active. }
  assert (Hdir3 : GameState.direction (state sv3) = GameState.direction (state sv)
                  ∧ GameState.currentPlayerIndex (state sv3) = cur).
  { unfold outsideCards in Hout3. destruct (forgotUno player cardIndex);
      simpl in Hout3; split; congruence. }
  destruct Hdir3 as [Hdir3 Hcur3].
  set (sv4 := setColor card wildColor sv3) in *.
  (* the draw of the next seat *)
  assert (Heffect : cardEffect card sv4
                    = (nextP ←! getNextPlayerIndex 1 sv4;
                       sv ←! drawCards nextP (drawCount card) sv4; Ok (2, sv))).
  { unfold cardEffect, drawCount. unfold makesNextDraw in Hdraw.
    destruct (Card.type card); try discriminate Hdraw; reflexivity. }
  rewrite Heffect in Hplay.
  destruct (getNextPlayerIndex_Ok 1 sv4 ltac:(lia)) as (nextP & victim4 & Hnext & Hv4 & Hva).
  { eapply Exists_active_fmap; [symmetry; exact Hact3|exact Hsome]. }
  rewrite Hnext in Hplay. cbn [bind] in Hplay.
  destruct (drawCards_frame nextP (drawCount card) sv4 (lookup_lt_Some _ _ _ Hv4))
    as (sv5 & extra & Hrun5 & Hdrawn5 & Hle5 & _).
  rewrite Hrun5 in Hplay. cbn [bind] in Hplay.
  destruct (drawCards_available _ _ _ _ Hrun5) as [Hav5 Htop5].
  pose proof (drawn_length _ _ _ _ Hdrawn5 Htop5) as Hdl.
  destruct (drawCards_quiet _ _ _ _ Hrun5) as ((_ & Hact5 & _) & Hcur5 & Hdir5).
  destruct Hdrawn5 as (Hps5 & _ & _).
  change (players sv4) with (players sv3) in Hact5.
  change (GameState.direction (state sv4)) with (GameState.direction (state sv3))
    in Hdir5.
  change (GameState.currentPlayerIndex (state sv4))
    with (GameState.currentPlayerIndex (state sv3)) in Hcur5.
  assert (Hnext0 : getNextPlayerIndex 1 sv = Ok nextP).
  { rewrite <- Hnext. symmetry. apply getNextPlayerIndex_ext;
      [exact Hact3|exact Hdir3|rewrite <- Hcur; exact Hcur3]. }
  assert (Hother : nextP ≠ cur).
  { rewrite Hcur. eapply next_seat_is_other; [|exact Htwo|exact Hnext0].
    rewrite <- Hcur. exact Hplayer. }
  assert (Hv0 : players sv !! nextP = Some victim4).
  { change (players sv4) with (players sv3) in Hv4.
    rewrite Hps3, list_lookup_alter_ne in Hv4 by congruence. exact Hv4. }
  assert (Hv5 : players sv5 !! nextP = Some (Player.push_hand extra victim4)).
  { rewrite Hps5, list_lookup_alter_eq, Hv4. reflexivity. }
  destruct (lookup_fmap_eq Player.hand (players sv5) (players sv') nextP _
              (finishPlay_hands _ _ _ _ Hplay) Hv5) as (victim' & Hv' & Hhand').
  exists nextP, victim4, victim', extra.
  split; [exact Hnext0|]. split; [exact Hother|]. split; [exact Hv0|].
  split; [exact Hva|]. split; [exact Hv'|]. split; [exact Hhand'|].
  split; [exact Hle5|]. split.
  { intros Hdeep. change (available sv4) with (available sv3) in *. lia. }
  intros Hkeeps.
  (* the turn *)
  assert (Hp5 : ∃ p5, players sv5 !! cur = Some p5
                      ∧ Player.hand p5 = delete cardIndex (Player.hand player) ++ penalty).
  { exists (afterPlay cardIndex penalty player). split; [|apply afterPlay_hand].
    change (players sv4) with (players sv3) in Hps5.
    rewrite Hps5, list_lookup_alter_ne, Hps3, list_lookup_alter_eq, Hplayer by congruence.
    reflexivity. }
  destruct Hp5 as (p5 & Hp5 & Hhand5).
  unfold finishPlay, getPlayer in Hplay. rewrite Hp5 in Hplay. cbn [bind] in Hplay.
  destruct (length (Player.hand p5) =? 0) eqn:Hempty.
  { apply Nat.eqb_eq in Hempty. rewrite Hhand5, length_app in Hempty.
    destruct (delete cardIndex (Player.hand player)); [congruence|simpl in Hempty; lia]. }
  unfold advanceTurn in Hplay.
  destruct (getNextPlayerIndex 2 (startTurnTimer sv5)) as [i| |] eqn:Hi;
    cbn [bind] in Hplay; try discriminate.
  injection Hplay as <-. simpl. rewrite <- Hi. apply getNextPlayerIndex_ext.
  - change (players (startTurnTimer sv5)) with (players sv5). congruence.
  - change (GameState.direction (state (startTurnTimer sv5)))
      with (GameState.direction (state sv5)). congruence.
  - change (GameState.currentPlayerIndex (state (startTurnTimer sv5)))
      with (GameState.currentPlayerIndex (state sv5)). congruence.
Qed.

Lemma playCard_makes_the_next_player_draw_witness :
  ∃ nextP victim victim' extra,
    getNextPlayerIndex 1 tableDrawTwo = Ok nextP
    ∧ nextP ≠ 0
    ∧ players tableDrawTwo !! nextP = Some victim
    ∧ Player.active victim = true
    ∧ players tableDrawTwoPlayed !! nextP = Some victim'
    ∧ Player.hand victim' = Player.hand victim ++ extra
    ∧ length extra ≤ 2
    ∧ (2 < 3 + 1 → length extra = 2)
    ∧ (delete 0 [redDraw2; green7; red5] ≠ [] →
       getNextPlayerIndex 2 tableDrawTwo
       = Ok (GameState.currentPlayerIndex (state tableDrawTwoPlayed))).
Proof.
  apply (playCard_makes_the_next_player_draw tableDrawTwo tableDrawTwoPlayed "A" "rD"
           None (seatedPlayer "A" [redDraw2; green7; red5] false) 0 redDraw2).
  - repeat split.
  - reflexivity.
  - vm_compute. lia.
  - vm_compute. reflexivity.
Defined.

(** ** The turn *)

Lemma filter_one_seat {A} (P : A → Prop) `{∀ x, Decision (P x)} (l : list A) :
  ∀ i j x y,
  length (filter P l) = 1 →
  l !! i = Some x → P x → l !! j = Some y → P y → i = j.
Proof.
  induction l as [|a l IH]; intros i j x y Hone Hx HPx Hy HPy; [discriminate|].
  rewrite filter_cons in Hone. destruct (decide (P a)) as [Ha|Ha].
  - simpl in Hone.
    assert (Hnil : filter P l = []) by (destruct (filter P l); [reflexivity|discriminate]).
    assert (Hno : ∀ k z, l !! k = Some z → ¬ P z).
    { intros k z Hz HPz.
      assert (Hin : z ∈ filter P l).
      { apply list_elem_of_filter. split; [exact HPz|].
        eapply list_elem_of_lookup_2; eauto. }
      rewrite Hnil in Hin. inversion Hin. }
    destruct i as [|i], j as [|j]; [reflexivity| | |]; exfalso.
    + exact (Hno j y Hy HPy).
    + exact (Hno i x Hx HPx).
    + exact (Hno j y Hy HPy).
  - destruct i as [|i]; [injection Hx as ->; contradiction|].
    destruct j as [|j]; [injection Hy as ->; contradiction|].
    f_equal. eapply IH; eauto.
Qed.

(** X22. With a single active player left at the table, every advance of
    the turn, by whatever offset and in either direction, lands on the
    seat of that player. *)
Theorem getNextPlayerIndex_with_one_active_player (sv : MockGameServer.t)
    (offset : nat) :
  length (activePlayers sv) = 1 →
  1 ≤ offset →
  ∃ w pw,
    activePlayers sv = [pw]
    ∧ players sv !! w = Some pw
    ∧ getNextPlayerIndex offset sv = Ok w.
Proof.
  intros Hone Hoff.
  destruct (getNextPlayerIndex_Ok offset sv Hoff) as (i & p & Hi & Hp & Ha).
  { apply filter_active_length_Exists. unfold activePlayers in Hone. lia. }
  exists i, p. split; [|split; assumption].
  unfold activePlayers in *.
  destruct (filter _ (players sv)) as [|q [|? ?]] eqn:Hf; try discriminate Hone.
  assert (Hin : p ∈ filter (λ p, Player.active p = true) (players sv)).
  { apply list_elem_of_filter. split; [exact Ha|].
    eapply list_elem_of_lookup_2; eauto. }
  rewrite Hf in Hin. apply list_elem_of_singleton in Hin. congruence.
Qed.

Lemma getNextPlayerIndex_with_one_active_player_witness :
  ∃ w pw,
    activePlayers tableAlone = [pw]
    ∧ players tableAlone !! w = Some pw
    ∧ getNextPlayerIndex 2 tableAlone = Ok w.
Proof.
  apply (getNextPlayerIndex_with_one_active_player tableAlone 2).
  - reflexivity.
  - lia.
Defined.

(** X23. The turn after an accepted play that leaves the player a card, at
    a table with an active player. The call returns; status and winner
    stay; the direction is flipped by a reverse played among other than
    two active players and by nothing else; the turn goes to the seat the
    seat walk reaches, in the direction as it now is, after one active
    seat for a number card, a wild and a flipping reverse, after two for
    a skip, a draw-two, a wild draw-four and a reverse among two; the
    timer restarts at 30 and one update is broadcast. *)
Theorem playCard_passes_the_turn_by_the_card (sv : MockGameServer.t)
    (playerId cardId : string) (wildColor : option CardColor.t)
    (player : Player.t) (cardIndex : nat) (card : Card.t) :
  accepted sv playerId cardId player cardIndex card →
  Exists (λ p, Player.active p = true) (players sv) →
  delete cardIndex (Player.hand player) ≠ [] →
  ∃ sv' q,
    playCard playerId cardId wildColor sv = Ok sv'
    ∧ GameState.direction (state sv')
      = (if flipsDirection card (length (activePlayers sv))
         then Direction.flip (GameState.direction (state sv))
         else GameState.direction (state sv))
    ∧ getNextPlayerIndex (nextOffsetOf card (length (activePlayers sv)))
        (upd (GameState.set_direction (GameState.direction (state sv'))) sv)
      = Ok (GameState.currentPlayerIndex (state sv'))
    ∧ players sv' !! GameState.currentPlayerIndex (state sv') = Some q
    ∧ Player.active q = true
    ∧ GameState.status (state sv') = GameState.status (state sv)
    ∧ GameState.winner (state sv') = GameState.winner (state sv)
    ∧ GameState.turnTimer (state sv') = 30
    ∧ timerRunning sv' = true
    ∧ notifyCalls sv' = S (notifyCalls sv).
Proof.
  intros Hacc Hsome Hkeeps.
  rewrite (playCard_accepted _ _ _ _ _ _ _ Hacc).
  destruct Hacc as (_ & Hplayer & _ & _).
  destruct (applyPlay_effects (GameState.currentPlayerIndex (state sv)) cardIndex card
              wildColor player sv Hplayer (λ _, Hsome))
    as (sv5 & penalty & nextP & extra & Hrun & Hps5 & _ & Hout5 & _ & _).
  destruct (acting_player_after (GameState.currentPlayerIndex (state sv)) cardIndex
              penalty nextP extra player (players sv) Hplayer)
    as (p5 & mine & Hp5 & Hhand5 & _ & _).
  rewrite <- Hps5 in Hp5.
  assert (Hact5 : Player.active <$> players sv5 = Player.active <$> players sv).
  { rewrite Hps5, !fmap_alter_fixed; [reflexivity| |]; intros.
    - apply afterPlay_active.
    - reflexivity. }
  destruct (finishPlay_advance (GameState.currentPlayerIndex (state sv))
              (nextOffsetOf card (length (activePlayers sv))) sv5 p5 Hp5)
    as (i & q & Hi & Hq & Hqa & Hfin).
  { rewrite Hhand5. destruct (delete cardIndex (Player.hand player)); [congruence|].
    discriminate. }
  { apply nextOffsetOf_pos. }
  { eapply Exists_active_fmap; [symmetry; exact Hact5|exact Hsome]. }
  rewrite Hrun, Hfin.
  eexists _, q. split; [reflexivity|].
  unfold outsideCards in Hout5. simpl.
  assert (Hdir : GameState.direction (state sv5)
                 = (if flipsDirection card (length (activePlayers sv))
                    then Direction.flip (GameState.direction (state sv))
                    else GameState.direction (state sv))).
  { destruct (flipsDirection card (length (activePlayers sv)));
      destruct (forgotUno player cardIndex); simpl in Hout5; congruence. }
  split; [exact Hdir|]. split.
  { rewrite <- Hi. apply getNextPlayerIndex_ext; simpl.
    - symmetry. exact Hact5.
    - reflexivity.
    - destruct (flipsDirection card (length (activePlayers sv)));
        destruct (forgotUno player cardIndex); simpl in Hout5; congruence. }
  split; [exact Hq|]. split; [exact Hqa|].
  destruct (flipsDirection card (length (activePlayers sv)));
    destruct (forgotUno player cardIndex); simpl in Hout5;
    repeat split; congruence.
Qed.

Lemma tableSkip_accepts :
  accepted tableSkip "A" "rS" (seatedPlayer "A" [redSkip; green7; red5] false) 0 redSkip.
Proof. repeat split. Defined.

Lemma playCard_passes_the_turn_by_the_card_witness :
  ∃ sv' q,
    playCard "A" "rS" None tableSkip = Ok sv'
    ∧ GameState.direction (state sv') = Direction.clockwise
    ∧ getNextPlayerIndex 2
        (upd (GameState.set_direction (GameState.direction (state sv'))) tableSkip)
      = Ok (GameState.currentPlayerIndex (state sv'))
    ∧ players sv' !! GameState.currentPlayerIndex (state sv') = Some q
    ∧ Player.active q = true
    ∧ GameState.status (state sv') = GameStatus.PLAYING
    ∧ GameState.winner (state sv') = None
    ∧ GameState.turnTimer (state sv') = 30
    ∧ timerRunning sv' = true
    ∧ notifyCalls sv' = 1.
Proof.
  apply (playCard_passes_the_turn_by_the_card tableSkip "A" "rS" None
           (seatedPlayer "A" [redSkip; green7; red5] false) 0 redSkip
           tableSkip_accepts).
  - apply Exists_cons_hd. reflexivity.
  - discriminate.
Defined.
